(** * Hybrid retrieval engine: BM25 keyword search, vector adapter,
      weighted reciprocal-rank fusion and the optional external reranker.

    Shallow embedding of [src/src/vector_retriever.py] and of the
    construction code of [src/src/rag_chat_agent.py].

    Numbers.  Python floats are modelled by exact numbers: the fusion
    reranker only adds, multiplies and divides, so its scores live in [Q]
    (and evaluate); BM25 takes a logarithm, so its scores live in [R].
    Rounding is outside the model.

    Exceptions.  Code that can raise returns a [result]; [exn] ranges over
    the subclasses of Python's [Exception] that the modelled code raises or
    receives from its collaborators. *)

From Stdlib Require Import List String Ascii ZArith QArith Bool Arith Lia.
From Stdlib Require Import Permutation Sorted DecimalString DecimalPos DecimalZ.
From Stdlib Require Import Reals Lra.
Import ListNotations.

Set Implicit Arguments.

(** ** Python prelude *)

Module Py.

Inductive exn : Type :=
| ValueError
| ZeroDivisionError
| IndexError
| KeyError
| ImportError
| UpstreamError (what : string).

Inductive result (A : Type) : Type :=
| Ok (a : A)
| Raise (e : exn).

Arguments Ok {A} a.
Arguments Raise {A} e.

Definition bind {A B : Type} (m : result A) (f : A -> result B) : result B :=
  match m with
  | Ok a => f a
  | Raise e => Raise e
  end.

(** [try: m  except Exception: h] *)
Definition try_except {A : Type} (m : result A) (h : exn -> result A)
  : result A :=
  match m with
  | Ok a => Ok a
  | Raise e => h e
  end.

(** [l[:k]] with Python's reading of a negative bound. *)
Definition slice_to {A : Type} (l : list A) (k : Z) : list A :=
  if (0 <=? k)%Z then firstn (Z.to_nat k) l
  else firstn (List.length l - Z.to_nat (- k)) l.

(** [x or y] on strings: the empty string is falsy. *)
Definition str_or (x y : string) : string :=
  match x with
  | EmptyString => y
  | _ => x
  end.

Definition str_truthy (x : string) : bool :=
  match x with
  | EmptyString => false
  | _ => true
  end.

(** [d.get(key, default)] on an association list used as a dict. *)
Fixpoint dict_get {V : Type} (d : list (string * V)) (key : string)
  : option V :=
  match d with
  | [] => None
  | (k, v) :: rest => if String.eqb key k then Some v else dict_get rest key
  end.

Definition dict_mem {V : Type} (d : list (string * V)) (key : string) : bool :=
  match dict_get d key with
  | Some _ => true
  | None => false
  end.

(** [d[key] = f(d[key])] for a key already present: the entry keeps its
    place in the insertion order. *)
Fixpoint dict_update {V : Type} (d : list (string * V)) (key : string)
  (f : V -> V) : list (string * V) :=
  match d with
  | [] => []
  | (k, v) :: rest =>
      if String.eqb key k then (k, f v) :: rest
      else (k, v) :: dict_update rest key f
  end.

(** [d[key] = v] for a key not yet present: appended at the end. *)
Definition dict_insert {V : Type} (d : list (string * V)) (key : string)
  (v : V) : list (string * V) :=
  d ++ [(key, v)].

(** [sorted(l, key=key, reverse=True)]: a stable sort, largest key first;
    elements with equal keys keep their order in [l].  [ltb] is the
    strict order on keys. *)
Section StableSort.
Variables (A K : Type) (ltb : K -> K -> bool) (key : A -> K).

Fixpoint insert_desc (x : A) (l : list A) : list A :=
  match l with
  | [] => [x]
  | y :: ys =>
      if ltb (key x) (key y) then y :: insert_desc x ys
      else x :: y :: ys
  end.

Fixpoint sorted_desc (l : list A) : list A :=
  match l with
  | [] => []
  | x :: xs => insert_desc x (sorted_desc xs)
  end.
End StableSort.

End Py.

Import Py.

Declare Scope py_scope.
Notation "x <- m ;; k" := (bind m (fun x => k))
  (at level 61, m at next level, right associativity) : py_scope.
Local Open Scope py_scope.

(** Values stored in metadata dicts. *)
Inductive pyval : Type :=
| PyInt (z : Z)
| PyStr (s : string).

Definition meta : Type := list (string * pyval).

(** The result dict every stage hands on.  ['file_name'], ['content'] and
    ['metadata'] are always set; the other keys are optional.  [Sc] is the
    type of the retriever's own ['score']. *)
Record result_item (Sc : Type) : Type := mk_item {
  file_name : string;
  content : string;
  metadata : meta;
  score : option Sc;
  weighted_rrf_score : option Q;
  rerank_score : option Q;
  rerank_position : option Z
}.

Arguments mk_item {Sc}.
Arguments file_name {Sc}.
Arguments content {Sc}.
Arguments metadata {Sc}.
Arguments score {Sc}.
Arguments weighted_rrf_score {Sc}.
Arguments rerank_score {Sc}.
Arguments rerank_position {Sc}.

(** ** RRFReranker *)

Module RRF.

Record RRFReranker : Type := { k : Z }.

(** [RRFReranker.__init__(self, k=60)] *)
Definition RRFReranker_init (k_arg : option Z) : RRFReranker :=
  {| k := match k_arg with Some v => v | None => 60%Z end |}.

Section Fusion.
Context {Sc : Type}.
Let item : Type := result_item Sc.

(** [doc_scores] and [doc_info], two dicts keyed by content. *)
Definition rrf_state : Type := (list (string * Q) * list (string * item))%type.

(** Body of the inner loop, at one [(rank, result)] of [enumerate]. *)
Definition rrf_step (self : RRFReranker) (weight : Q) (st : rrf_state)
  (rank : nat) (result : item) : Py.result rrf_state :=
  let '(doc_scores, doc_info) := st in
  let c := content result in
  let denom := (Z.of_nat rank + 1 + k self)%Z in
  if (denom =? 0)%Z then Raise ZeroDivisionError
  else
    let weighted_rrf_score := (weight * (1 / inject_Z denom))%Q in
    if dict_mem doc_scores c then
      Ok (dict_update doc_scores c (fun s => (s + weighted_rrf_score)%Q),
          doc_info)
    else
      Ok (dict_insert doc_scores c weighted_rrf_score,
          dict_insert doc_info c result).

(** [for rank, result in enumerate(results)] *)
Fixpoint rrf_inner (self : RRFReranker) (weight : Q) (results : list item)
  (rank : nat) (st : rrf_state) : Py.result rrf_state :=
  match results with
  | [] => Ok st
  | r :: rest =>
      st' <- rrf_step self weight st rank r ;;
      rrf_inner self weight rest (S rank) st'
  end.

(** [for results, weight in zip(result_lists, weights)] *)
Fixpoint rrf_outer (self : RRFReranker) (pairs : list (list item * Q))
  (st : rrf_state) : Py.result rrf_state :=
  match pairs with
  | [] => Ok st
  | (results, weight) :: rest =>
      st' <- rrf_inner self weight results 0 st ;;
      rrf_outer self rest st'
  end.

Definition Qltb (x y : Q) : bool := negb (Qle_bool y x).

(** [for content, score in sorted_results[:top_k]] *)
Fixpoint rrf_format (doc_info : list (string * item))
  (entries : list (string * Q)) : Py.result (list item) :=
  match entries with
  | [] => Ok []
  | (c, s) :: rest =>
      match dict_get doc_info c with
      | None => Raise KeyError
      | Some r =>
          out <- rrf_format doc_info rest ;;
          Ok (mk_item (file_name r) (content r) (metadata r) (score r)
                (Some s) (rerank_score r) (rerank_position r) :: out)
      end
  end.

(** [RRFReranker.rerank_with_weights(self, result_lists, weights, top_k)] *)
Definition rerank_with_weights (self : RRFReranker)
  (result_lists : list (list item)) (weights : list Q) (top_k : Z)
  : Py.result (list item) :=
  if negb (List.length result_lists =? List.length weights)%nat then Raise ValueError
  else
    st <- rrf_outer self (combine result_lists weights) ([], []) ;;
    let '(doc_scores, doc_info) := st in
    let sorted_results := sorted_desc Qltb snd doc_scores in
    rrf_format doc_info (slice_to sorted_results top_k).

(** What the fusion algorithm is described to compute: the sum, over
    every list with its weight and every 1-based rank [r] at which the
    content [c] occurs, of [weight * (1 / (r + k))]. *)
Fixpoint rank_sum (kk : Z) (weight : Q) (c : string) (results : list item)
  (r : nat) : Q :=
  match results with
  | [] => 0
  | x :: rest =>
      ((if String.eqb (content x) c
        then weight * (1 / inject_Z (Z.of_nat r + kk))
        else 0)
       + rank_sum kk weight c rest (S r))%Q
  end.

Fixpoint fused_sum (kk : Z) (c : string) (pairs : list (list item * Q)) : Q :=
  match pairs with
  | [] => 0
  | (results, weight) :: rest =>
      (rank_sum kk weight c results 1 + fused_sum kk c rest)%Q
  end.

(** [doc_scores.get(c, 0)] *)
Definition score_of (doc_scores : list (string * Q)) (c : string) : Q :=
  match dict_get doc_scores c with
  | Some s => s
  | None => 0
  end.

(** Loop invariant of the accumulation: both dicts have the same keys,
    each once, and the entry kept for a key has that content. *)
Definition rrf_inv (st : rrf_state) : Prop :=
  map fst (snd st) = map fst (fst st) /\
  NoDup (map fst (fst st)) /\
  Forall (fun p => content (snd p) = fst p) (snd st).

(** The contribution of one entry at 1-based rank [r] to content [c]. *)
Definition contribution (kk : Z) (weight : Q) (c : string) (x : item)
  (r : nat) : Q :=
  if String.eqb (content x) c
  then (weight * (1 / inject_Z (Z.of_nat r + kk)))%Q
  else 0.

(** [c] is the content of some entry of some list. *)
Definition occurs (c : string) (pairs : list (list item * Q)) : Prop :=
  exists results weight x,
    In (results, weight) pairs /\ In x results /\ content x = c.

End Fusion.

(** The worked example of the fusion section. *)
Definition d (name : string) : result_item unit :=
  mk_item "src" name [] None None None None.

Definition example_lists : list (list (result_item unit)) :=
  [[d "d1"; d "d2"]; [d "d2"; d "d3"]].

Definition scored {Sc : Type} (l : list (result_item Sc))
  : list (string * option Q) :=
  map (fun r => (content r, option_map Qred (weighted_rrf_score r))) l.

Definition scored_result {Sc : Type} (m : Py.result (list (result_item Sc)))
  : Py.result (list (string * option Q)) :=
  x <- m ;; Ok (scored x).

End RRF.

(** ** KeywordRetriever (BM25) *)

Module BM25.

(** A corpus document: [{'content': ..., 'source': ...}]; ['source'] may be
    missing. *)
Record document : Type := {
  doc_content : string;
  doc_source : option string
}.

Record KeywordRetriever : Type := {
  documents : list document;
  document_terms : list (list string);
  term_doc_freq : list (string * nat);
  avg_doc_length : R;
  doc_lengths : list nat;
  k1 : R;
  b : R
}.

(** [x / y] *)
Definition pydiv (x y : R) : Py.result R :=
  if Req_dec_T y 0 then Raise ZeroDivisionError else Ok (x / y)%R.

(** [math.log(x)] *)
Definition math_log (x : R) : Py.result R :=
  if Rlt_dec 0 x then Ok (ln x) else Raise ValueError.

Definition Rltb (x y : R) : bool :=
  if Rlt_dec x y then true else false.

(** [d[key] += 1] on a [defaultdict(int)] *)
Definition counter_incr (d : list (string * nat)) (key : string)
  : list (string * nat) :=
  if dict_mem d key then dict_update d key S else dict_insert d key 1%nat.

(** [d[key]] on a [defaultdict(int)] *)
Definition counter_get (d : list (string * nat)) (key : string) : nat :=
  match dict_get d key with
  | Some n => n
  | None => 0%nat
  end.

Section Index.
(** [_preprocess_text]: cleaning, [jieba] segmentation and stop-word
    filtering, taken as the tokenizer capability. *)
Variable preprocess_text : string -> list string.
(** The ['file_name'] and ['metadata'] a hit is reported with (source or
    content preview, and the page number parsed from it). *)
Variable source_preview : document -> string.
Variable page_meta : string -> meta.

(** One round of the loop of [_build_index]. *)
Definition index_step
  (acc : list (list string) * list nat * list (string * nat))
  (doc : document) : list (list string) * list nat * list (string * nat) :=
  let '(dts, dls, tdf) := acc in
  let terms := preprocess_text (doc_content doc) in
  (dts ++ [terms], dls ++ [List.length terms],
   fold_left counter_incr (nodup string_dec terms) tdf).

(** [KeywordRetriever._build_index(self)] *)
Definition build_index (self : KeywordRetriever)
  : Py.result KeywordRetriever :=
  let '(dts, dls, tdf) := fold_left index_step (documents self) ([], [], []) in
  avg <- match dls with
         | [] => Ok 0%R
         | _ => pydiv (INR (list_sum dls)) (INR (List.length dls))
         end ;;
  Ok {| documents := documents self;
        document_terms := dts;
        term_doc_freq := tdf;
        avg_doc_length := avg;
        doc_lengths := dls;
        k1 := k1 self;
        b := b self |}.

(** [KeywordRetriever.__init__(self, documents=None)] *)
Definition KeywordRetriever_init (docs : option (list document))
  : Py.result KeywordRetriever :=
  let documents0 := match docs with Some l => l | None => [] end in
  let self := {| documents := documents0;
                 document_terms := [];
                 term_doc_freq := [];
                 avg_doc_length := 0%R;
                 doc_lengths := [];
                 k1 := (3 / 2)%R;
                 b := (3 / 4)%R |} in
  match documents0 with
  | [] => Ok self
  | _ => build_index self
  end.

(** [KeywordRetriever.add_documents(self, documents)] *)
Definition add_documents (self : KeywordRetriever) (docs : list document)
  : Py.result KeywordRetriever :=
  build_index {| documents := documents self ++ docs;
                 document_terms := document_terms self;
                 term_doc_freq := term_doc_freq self;
                 avg_doc_length := avg_doc_length self;
                 doc_lengths := doc_lengths self;
                 k1 := k1 self;
                 b := b self |}.

(** The loop over the query terms in [_calculate_bm25_score]. *)
Fixpoint bm25_loop (self : KeywordRetriever) (term_freq : list (string * nat))
  (doc_length : nat) (query_terms : list string) (score : R)
  : Py.result R :=
  match query_terms with
  | [] => Ok score
  | term :: rest =>
      if dict_mem term_freq term then
        let df := counter_get (term_doc_freq self) term in
        ratio <- pydiv (INR (List.length (documents self)) - INR df + 1 / 2)
                       (INR df + 1 / 2) ;;
        idf <- math_log ratio ;;
        let tf := counter_get term_freq term in
        rel <- pydiv (INR doc_length) (avg_doc_length self) ;;
        tf_component <-
          pydiv (INR tf * (k1 self + 1))
                (INR tf + k1 self * (1 - b self + b self * rel)) ;;
        bm25_loop self term_freq doc_length rest (score + idf * tf_component)%R
      else bm25_loop self term_freq doc_length rest score
  end.

(** [KeywordRetriever._calculate_bm25_score(self, query_terms, doc_idx)] *)
Definition calculate_bm25_score (self : KeywordRetriever)
  (query_terms : list string) (doc_idx : nat) : Py.result R :=
  match nth_error (document_terms self) doc_idx,
        nth_error (doc_lengths self) doc_idx with
  | Some doc_terms, Some doc_length =>
      bm25_loop self (fold_left counter_incr doc_terms []) doc_length
        query_terms 0%R
  | _, _ => Raise IndexError
  end.

(** [for i in range(len(self.documents))]: score and keep [score > 0]. *)
Fixpoint score_docs (self : KeywordRetriever) (query_terms : list string)
  (idxs : list nat) (doc_scores : list (nat * R))
  : Py.result (list (nat * R)) :=
  match idxs with
  | [] => Ok doc_scores
  | i :: rest =>
      sc <- calculate_bm25_score self query_terms i ;;
      score_docs self query_terms rest
        (if Rltb 0 sc then doc_scores ++ [(i, sc)] else doc_scores)
  end.

(** [for doc_idx, score in doc_scores[:top_k]] *)
Fixpoint format_results (self : KeywordRetriever) (entries : list (nat * R))
  : Py.result (list (result_item R)) :=
  match entries with
  | [] => Ok []
  | (doc_idx, sc) :: rest =>
      match nth_error (documents self) doc_idx with
      | None => Raise IndexError
      | Some doc =>
          out <- format_results self rest ;;
          Ok (mk_item (source_preview doc) (doc_content doc)
                (page_meta (source_preview doc)) (Some sc) None None None
              :: out)
      end
  end.

(** The ranking of [search] before it is formatted:
    [doc_scores[:top_k]] after the sort. *)
Definition ranked (self : KeywordRetriever) (query_terms : list string)
  (top_k : Z) : Py.result (list (nat * R)) :=
  doc_scores <- score_docs self query_terms
                  (seq 0 (List.length (documents self))) [] ;;
  Ok (slice_to (sorted_desc Rltb snd doc_scores) top_k).

(** [KeywordRetriever.search(self, query, top_k)] *)
Definition search (self : KeywordRetriever) (query : string) (top_k : Z)
  : Py.result (list (result_item R)) :=
  match documents self with
  | [] => Ok []
  | _ =>
      match preprocess_text query with
      | [] => Ok []
      | query_terms =>
          entries <- ranked self query_terms top_k ;;
          format_results self entries
      end
  end.

(** *** The quantities of the BM25 formula, read off the corpus *)

Definition terms_of (doc : document) : list string :=
  preprocess_text (doc_content doc).

Definition contains (terms : list string) (t : string) : bool :=
  existsb (String.eqb t) terms.

(** [df(t)]: the number of documents that contain [t]. *)
Definition df (docs : list document) (t : string) : nat :=
  List.length (filter (fun doc => contains (terms_of doc) t) docs).

(** [tf(t, d)]: the number of occurrences of [t] in [d]. *)
Definition tf (terms : list string) (t : string) : nat :=
  count_occ string_dec terms t.

(** [avg_len]: the mean number of terms per document. *)
Definition avg_len (docs : list document) : R :=
  (INR (list_sum (map (fun doc => List.length (terms_of doc)) docs))
   / INR (List.length docs))%R.

Definition idf (docs : list document) (t : string) : R :=
  ln ((INR (List.length docs) - INR (df docs t) + 1 / 2)
      / (INR (df docs t) + 1 / 2)).

Definition tf_term (kk1 bb : R) (docs : list document)
  (terms : list string) (t : string) : R :=
  (INR (tf terms t) * (kk1 + 1)
   / (INR (tf terms t)
      + kk1 * (1 - bb + bb * (INR (List.length terms) / avg_len docs))))%R.

(** [score(d)]: the sum over the query terms present in [d]. *)
Fixpoint bm25_sum (kk1 bb : R) (docs : list document) (terms : list string)
  (query_terms : list string) : R :=
  match query_terms with
  | [] => 0%R
  | t :: rest =>
      ((if contains terms t
        then idf docs t * tf_term kk1 bb docs terms t
        else 0)
       + bm25_sum kk1 bb docs terms rest)%R
  end.

(** The index of a corpus, as the formula's quantities. *)
Definition tdf_of (docs : list document) : list (string * nat) :=
  snd (fold_left index_step docs ([], [], [])).

Definition index_of (docs : list document) : KeywordRetriever :=
  {| documents := docs;
     document_terms := map terms_of docs;
     term_doc_freq := tdf_of docs;
     avg_doc_length := match docs with [] => 0%R | _ => avg_len docs end;
     doc_lengths := map (fun doc => List.length (terms_of doc)) docs;
     k1 := (3 / 2)%R;
     b := (3 / 4)%R |}.

(** The formula's score of the document at position [i], and the
    positions with a positive score, in corpus order. *)
Definition doc_score (docs : list document) (query_terms : list string)
  (i : nat) : R :=
  match nth_error docs i with
  | Some doc => bm25_sum (3 / 2) (3 / 4) docs (terms_of doc) query_terms
  | None => 0%R
  end.

Definition positive_hits (docs : list document) (query_terms : list string)
  (idxs : list nat) : list (nat * R) :=
  filter (fun p => Rltb 0 (snd p))
    (map (fun i => (i, doc_score docs query_terms i)) idxs).

(** Order of the ranking: higher score first, equal scores by position
    in the corpus. *)
Definition ranks_before (p q : nat * R) : Prop :=
  (snd q < snd p)%R \/ (snd p = snd q /\ (fst p < fst q)%nat).

(** A returned record shows the document at a ranked position. *)
Definition shows (docs : list document) (r : result_item R)
  (entry : nat * R) : Prop :=
  exists doc,
    nth_error docs (fst entry) = Some doc /\
    content r = doc_content doc /\
    file_name r = source_preview doc /\
    score r = Some (snd entry).

(** States of a retriever that the class's own methods produce. *)
Inductive reachable : KeywordRetriever -> Prop :=
| reach_init docs self :
    KeywordRetriever_init docs = Ok self -> reachable self
| reach_add self docs self' :
    reachable self -> add_documents self docs = Ok self' -> reachable self'.

End Index.

(** A plain tokenizer for worked examples: the words between ASCII
    spaces. *)
Fixpoint words_from (s : string) (cur : string) : list string :=
  match s with
  | EmptyString =>
      match cur with
      | EmptyString => []
      | _ => [cur]
      end
  | String c rest =>
      if Ascii.eqb c " "%char then
        match cur with
        | EmptyString => words_from rest EmptyString
        | _ => cur :: words_from rest EmptyString
        end
      else words_from rest (cur ++ String c EmptyString)
  end.

Definition words (s : string) : list string := words_from s EmptyString.

Definition plain_doc (text : string) : document :=
  {| doc_content := text; doc_source := None |}.

Definition example_corpus : list document :=
  [plain_doc "value value labour"; plain_doc "price market";
   plain_doc "labour value"].


End BM25.

(** ** VecRetriever *)

Module Vec.

(** The shapes a record of the dense search arrives in: an object with a
    [payload] attribute (and perhaps a [score]), a dict, or anything else. *)
Inductive raw_item : Type :=
| PointItem (payload : list (string * string)) (score_attr : option R)
| DictItem (fields : list (string * string)) (score_field : option R)
    (metadata_field : option meta)
| OtherItem.

(** The wrapped [camel] retriever: [query(query, top_k, similarity_threshold)] *)
Record VecRetriever : Type := {
  vector_retriever : string -> Z -> Q -> Py.result (list raw_item)
}.

Definition get_default (d : list (string * string)) (key default : string)
  : string :=
  match dict_get d key with
  | Some v => v
  | None => default
  end.

(** The two branches that read [content], [source], [score], [metadata]. *)
Definition normalize (item : raw_item)
  : option (string * string * option R * meta) :=
  match item with
  | PointItem payload sc =>
      Some (get_default payload "text" EmptyString,
            get_default payload "source_file" "unknown",
            sc,
            map (fun kv => (fst kv, PyStr (snd kv))) payload)
  | DictItem fields sc md =>
      Some (str_or (get_default fields "text" EmptyString)
                   (get_default fields "content" EmptyString),
            str_or (get_default fields "source_file" EmptyString)
                   (get_default fields "file_name" "unknown"),
            sc,
            match md with Some m => m | None => [] end)
  | OtherItem => None
  end.

Section Adapter.
(** Python's [hash] on strings. *)
Variable hash : string -> Z.

(** One round of [for item in raw_results], on [(results, seen_contents)]. *)
Definition collect_step (acc : list (result_item R) * list Z)
  (item : raw_item) : list (result_item R) * list Z :=
  let '(results, seen_contents) := acc in
  match normalize item with
  | None => acc
  | Some (c, source, sc, md) =>
      if str_truthy c && negb (existsb (Z.eqb (hash c)) seen_contents) then
        (results ++ [mk_item source c md sc None None None],
         hash c :: seen_contents)
      else acc
  end.

Definition collect (raw_results : list raw_item) : list (result_item R) :=
  fst (fold_left collect_step raw_results ([], [])).

(** [VecRetriever.search(self, question, top_k)] *)
Definition search (self : VecRetriever) (question : string) (top_k : Z)
  : Py.result (list (result_item R)) :=
  raw_results <- vector_retriever self question top_k (1 # 2)%Q ;;
  Ok (collect raw_results).
End Adapter.

(** [s.strip()].  A string holds the UTF-8 bytes of Python's [str], and
    white space is what [str.isspace] accepts: U+0009..U+000D,
    U+001C..U+0020, U+0085, U+00A0, U+1680, U+2000..U+200A, U+2028, U+2029,
    U+202F, U+205F and U+3000, recognised by their encodings of one, two
    and three bytes. *)
Definition byte_in (lo hi : nat) (c : ascii) : bool :=
  let n := nat_of_ascii c in ((lo <=? n) && (n <=? hi))%nat.

Definition is_space1 (c : ascii) : bool := byte_in 9 13 c || byte_in 28 32 c.

Definition is_space2 (c1 c2 : ascii) : bool :=
  byte_in 194 194 c1 && (byte_in 133 133 c2 || byte_in 160 160 c2).

Definition is_space3 (c1 c2 c3 : ascii) : bool :=
  (byte_in 225 225 c1 && byte_in 154 154 c2 && byte_in 128 128 c3)
  || (byte_in 226 226 c1 && byte_in 128 128 c2
      && (byte_in 128 138 c3 || byte_in 168 169 c3 || byte_in 175 175 c3))
  || (byte_in 226 226 c1 && byte_in 129 129 c2 && byte_in 159 159 c3)
  || (byte_in 227 227 c1 && byte_in 128 128 c2 && byte_in 128 128 c3).

(** What follows the first code point of [s], when that is white space. *)
Definition space_prefix (s : string) : option string :=
  match s with
  | EmptyString => None
  | String c1 r1 =>
      if is_space1 c1 then Some r1
      else
        match r1 with
        | EmptyString => None
        | String c2 r2 =>
            if is_space2 c1 c2 then Some r2
            else
              match r2 with
              | EmptyString => None
              | String c3 r3 =>
                  if is_space3 c1 c2 c3 then Some r3 else None
              end
        end
  end.

(** [s.lstrip()]: leading white space is dropped, code point by code
    point. *)
Fixpoint lstrip (s : string) : string :=
  match s with
  | EmptyString => EmptyString
  | String c1 r1 =>
      if is_space1 c1 then lstrip r1
      else
        match r1 with
        | EmptyString => s
        | String c2 r2 =>
            if is_space2 c1 c2 then lstrip r2
            else
              match r2 with
              | EmptyString => s
              | String c3 r3 =>
                  if is_space3 c1 c2 c3 then lstrip r3 else s
              end
        end
  end.

(** [s] is white space only (or empty). *)
Definition all_space (s : string) : bool := negb (str_truthy (lstrip s)).

(** [s.rstrip()]: the string up to the point from which only white space
    follows. *)
Fixpoint rstrip (s : string) : string :=
  match s with
  | EmptyString => EmptyString
  | String c rest =>
      if all_space s then EmptyString else String c (rstrip rest)
  end.

Definition strip (s : string) : string := rstrip (lstrip s).

(** A byte that occurs in no encoding of white space. *)
Definition plain_byte (c : ascii) : bool :=
  negb (is_space1 c) && (nat_of_ascii c <? 128)%nat.

(** U+3000 (ideographic space) and U+00A0 (no-break space), for worked
    examples. *)
Definition ideographic_space : string :=
  String (ascii_of_nat 227)
    (String (ascii_of_nat 128) (String (ascii_of_nat 128) EmptyString)).

Definition no_break_space : string :=
  String (ascii_of_nat 194) (String (ascii_of_nat 160) EmptyString).

Definition is_blank (s : string) : bool := negb (str_truthy (strip s)).

(** *** What the adapter is described to do *)

(** The raw records in canonical form, shapes it cannot read left out. *)
Definition normalized (raw_results : list raw_item) : list (result_item R) :=
  flat_map
    (fun item =>
       match normalize item with
       | Some (c, source, sc, md) => [mk_item source c md sc None None None]
       | None => []
       end)
    raw_results.




(** A toy hash for worked examples: the length of the string. *)
Definition length_hash (s : string) : Z := Z.of_nat (String.length s).


(** A dense search that answers with the same text twice, then another. *)
Definition example_raw : list raw_item :=
  [DictItem [("text"%string, "alpha"%string);
             ("source_file"%string, "a.pdf"%string)] None None;
   DictItem [("content"%string, "alpha"%string);
             ("file_name"%string, "b.pdf"%string)] None None;
   PointItem [("text"%string, "be"%string)] None;
   OtherItem].

Definition example_retriever : VecRetriever :=
  {| vector_retriever := fun _ _ _ => Ok example_raw |}.

End Vec.

(** ** PineconeCohereReranker, EnhancedHybridRetriever, RetrievalManager *)

Module Hybrid.
Import RRF BM25 Vec.

(** One entry of the remote answer's [data]: [index] is [None] when it is
    not an [int], [resp_score] when it is not a number. *)
Record resp_item : Type := {
  index : option Z;
  resp_score : option Q
}.

(** [client.inference.rerank(model, query, documents, top_n)]; a document
    is an [(id, text)] pair. *)
Record PineconeClient : Type := {
  inference_rerank :
    string -> string -> list (string * string) -> Z
    -> Py.result (list resp_item)
}.

Record PineconeCohereReranker : Type := {
  _client : PineconeClient;
  _model : string
}.

(** [str(i)] *)
Definition str_of_nat (i : nat) : string :=
  DecimalString.NilZero.string_of_uint (Nat.to_uint i).

Section External.
(** The imported [Pinecone] class, [None] when the import failed. *)
Variable Pinecone : option (string -> Py.result PineconeClient).

(** [PineconeCohereReranker.__init__(self, api_key, model)] *)
Definition PineconeCohereReranker_init (api_key model : string)
  : Py.result PineconeCohereReranker :=
  match Pinecone with
  | None => Raise ImportError
  | Some new_client =>
      if negb (str_truthy (strip api_key)) then Raise ValueError
      else
        c <- new_client api_key ;;
        Ok {| _client := c; _model := model |}
  end.
End External.

Fixpoint build_documents (results : list (result_item R)) (i : nat)
  : list (string * string) :=
  match results with
  | [] => []
  | item :: rest =>
      (str_of_nat i, strip (str_or (content item) EmptyString))
        :: build_documents rest (S i)
  end.

(** [for rank, item in enumerate(resp.data, start=1)] *)
Fixpoint reorder (results : list (result_item R)) (data : list resp_item)
  (rank : Z) : list (result_item R) :=
  match data with
  | [] => []
  | item :: rest =>
      match index item with
      | Some idx =>
          if ((0 <=? idx) && (idx <? Z.of_nat (List.length results)))%Z then
            match nth_error results (Z.to_nat idx) with
            | Some r =>
                mk_item (file_name r) (content r) (metadata r) (score r)
                  (weighted_rrf_score r)
                  (match resp_score item with
                   | Some s => Some s
                   | None => rerank_score r
                   end)
                  (Some rank)
                  :: reorder results rest (rank + 1)
            | None => reorder results rest (rank + 1)
            end
          else reorder results rest (rank + 1)
      | None => reorder results rest (rank + 1)
      end
  end.

(** [PineconeCohereReranker.rerank(self, query, results, top_n=None)] *)
Definition rerank (self : PineconeCohereReranker) (query : string)
  (results : list (result_item R)) (top_n : option Z)
  : Py.result (list (result_item R)) :=
  match results with
  | [] => Ok []
  | _ =>
      let documents := build_documents results 0 in
      let n := Z.of_nat (List.length documents) in
      let k := Z.min (match top_n with
                      | Some t => if (t =? 0)%Z then n else t
                      | None => n
                      end) n in
      data <- inference_rerank (_client self) (_model self) query documents k ;;
      Ok (reorder results data 1)
  end.

(** The remote service returns no more entries than it was asked for. *)
Definition honours_top_n (client : PineconeClient) : Prop :=
  forall model query documents n data,
    (0 <= n)%Z ->
    inference_rerank client model query documents n = Ok data ->
    (Z.of_nat (List.length data) <= n)%Z.

(** A remote service for worked examples: it ranks the documents in the
    order received and returns the first [top_n] of them, unscored. *)
Definition echo_client : PineconeClient :=
  {| inference_rerank :=
       fun _ _ documents n =>
         Ok (map (fun i => {| index := Some (Z.of_nat i); resp_score := None |})
               (seq 0 (Nat.min (Z.to_nat n) (List.length documents)))) |}.

Definition echo_reranker : PineconeCohereReranker :=
  {| _client := echo_client; _model := "cohere-rerank-3.5" |}.

Definition one_hit : result_item R :=
  mk_item "a.pdf" "alpha" [] None (Some (1 # 21)%Q) None None.

(** A [Pinecone] class whose construction fails: the service is
    unreachable. *)
Definition unreachable_Pinecone
  : option (string -> Py.result PineconeClient) :=
  Some (fun _ => Raise (UpstreamError "unreachable")).

Record EnhancedHybridRetriever : Type := {
  vector_retriever : VecRetriever;
  keyword_retriever : KeywordRetriever;
  reranker : RRFReranker;
  vector_weight : Q;
  keyword_weight : Q;
  external_reranker : option PineconeCohereReranker
}.

Definition or_default {A : Type} (x : option A) (dflt : A) : A :=
  match x with
  | Some v => v
  | None => dflt
  end.

(** [EnhancedHybridRetriever.__init__(self, vector_retriever,
    keyword_retriever, rrf_k=60, vector_weight=1.0, keyword_weight=1.0,
    external_reranker=None)] *)
Definition EnhancedHybridRetriever_init (vr : VecRetriever)
  (kr : KeywordRetriever) (rrf_k : option Z) (vw kw : option Q)
  (ext : option PineconeCohereReranker) : EnhancedHybridRetriever :=
  {| vector_retriever := vr;
     keyword_retriever := kr;
     reranker := RRFReranker_init (Some (or_default rrf_k 60%Z));
     vector_weight := or_default vw 1%Q;
     keyword_weight := or_default kw 1%Q;
     external_reranker := ext |}.

(** [RAGConfig], the fields the retrieval side reads, with their defaults. *)
Record RAGConfig : Type := {
  reranker_model : string;
  cfg_vector_weight : Q;
  cfg_keyword_weight : Q;
  rrf_k : Z;
  enable_reranking : bool
}.

Definition RAGConfig_default : RAGConfig :=
  {| reranker_model := "cohere-rerank-3.5";
     cfg_vector_weight := (1 # 2)%Q;
     cfg_keyword_weight := (1 # 2)%Q;
     rrf_k := 20%Z;
     enable_reranking := true |}.

Record RetrievalManager : Type := {
  config : RAGConfig;
  hybrid_retriever : EnhancedHybridRetriever
}.

Section Orchestrator.
Variable hash : string -> Z.
Variable preprocess_text : string -> list string.
Variable source_preview : document -> string.
Variable page_meta : string -> meta.
Variable Pinecone : option (string -> Py.result PineconeClient).

(** The first half of [EnhancedHybridRetriever.search]: both retrievers,
    then weighted RRF. *)
Definition fuse (self : EnhancedHybridRetriever) (query : string)
  (top_k : Z) : Py.result (list (result_item R)) :=
  vector_results <- Vec.search hash (vector_retriever self) query top_k ;;
  keyword_results <-
    BM25.search preprocess_text source_preview page_meta
      (keyword_retriever self) query top_k ;;
  rerank_with_weights (reranker self) [vector_results; keyword_results]
    [vector_weight self; keyword_weight self] top_k.

(** [EnhancedHybridRetriever.search(self, query, top_k)] *)
Definition search (self : EnhancedHybridRetriever) (query : string)
  (top_k : Z) : Py.result (list (result_item R)) :=
  reranked_results <- fuse self query top_k ;;
  match external_reranker self, reranked_results with
  | Some ext, _ :: _ => rerank ext query reranked_results (Some top_k)
  | _, _ => Ok reranked_results
  end.

(** [RetrievalManager._initialize_keyword_retriever(self)]; [load] is the
    outcome of [document_manager.load_documents_from_json()].  The handler
    leaves the retriever as it was: that is what happens when loading
    fails, and [add_documents] itself never raises. *)
Definition initialize_keyword_retriever (kr : KeywordRetriever)
  (load : Py.result (list document)) : Py.result KeywordRetriever :=
  try_except
    (docs <- load ;;
     match docs with
     | [] => Ok kr
     | _ => add_documents preprocess_text kr docs
     end)
    (fun _ => Ok kr).

(** The block of [RetrievalManager.__init__] that creates the external
    reranker; [env_key] is the value of the environment's
    [PINECONE_API_KEY], empty when it is unset. *)
Definition make_external_reranker (cfg : RAGConfig)
  (pinecone_api_key : option string) (env_key : string)
  : Py.result (option PineconeCohereReranker) :=
  if enable_reranking cfg then
    let pinecone_key :=
      strip (str_or (or_default pinecone_api_key EmptyString) env_key) in
    if str_truthy pinecone_key then
      try_except
        (r <- PineconeCohereReranker_init Pinecone pinecone_key
                (reranker_model cfg) ;;
         Ok (Some r))
        (fun _ => Ok None)
    else Ok None
  else Ok None.

(** [RetrievalManager.__init__(self, config, document_manager, qdrant_db,
    pinecone_api_key=None)], given the vector retriever built on
    [qdrant_db]. *)
Definition RetrievalManager_init (cfg : RAGConfig)
  (load : Py.result (list document)) (vr : VecRetriever)
  (pinecone_api_key : option string) (env_key : string)
  : Py.result RetrievalManager :=
  kr0 <- KeywordRetriever_init preprocess_text None ;;
  kr <- initialize_keyword_retriever kr0 load ;;
  ext <- make_external_reranker cfg pinecone_api_key env_key ;;
  Ok {| config := cfg;
        hybrid_retriever :=
          EnhancedHybridRetriever_init vr kr (Some (rrf_k cfg))
            (Some (cfg_vector_weight cfg)) (Some (cfg_keyword_weight cfg))
            ext |}.

(** [RetrievalManager.search(self, query, top_k)] *)
Definition manager_search (self : RetrievalManager) (query : string)
  (top_k : Z) : Py.result (list (result_item R)) :=
  search (hybrid_retriever self) query top_k.
End Orchestrator.

End Hybrid.


(** ** Further notions for the fusion reranker *)

Module RRFMore.
Import RRF.

Section Ranking.
Context {Sc : Type}.

(** The first record of every content not in [seen], in order. *)
Fixpoint first_per_content (l : list (result_item Sc)) (seen : list string)
  : list (result_item Sc) :=
  match l with
  | [] => []
  | r :: rest =>
      if existsb (String.eqb (content r)) seen
      then first_per_content rest seen
      else r :: first_per_content rest (content r :: seen)
  end.

(** [result.copy()] with ['weighted_rrf_score'] set to [s]. *)
Definition with_rrf_score (r : result_item Sc) (s : Q) : result_item Sc :=
  mk_item (file_name r) (content r) (metadata r) (score r) (Some s)
    (rerank_score r) (rerank_position r).

(** Position of [c] in [keys] (the length of [keys] when absent). *)
Fixpoint key_index (keys : list string) (c : string) : nat :=
  match keys with
  | [] => 0
  | k0 :: rest => if String.eqb c k0 then 0 else S (key_index rest c)
  end.

(** Order of the fused ranking: higher score first, equal scores by
    position in [keys]. *)
Definition fused_before (keys : list string) (e1 e2 : string * Q) : Prop :=
  (snd e2 < snd e1)%Q \/
  ((snd e1 == snd e2)%Q /\ (key_index keys (fst e1) < key_index keys (fst e2))%nat).

(** Order of two returned records by the fused score they carry: higher
    score first, equal scores by position of the content in [keys]. *)
Definition reported_before (keys : list string) (r1 r2 : result_item Sc)
  : Prop :=
  exists s1 s2,
    weighted_rrf_score r1 = Some s1 /\
    weighted_rrf_score r2 = Some s2 /\
    fused_before keys (content r1, s1) (content r2, s2).

(** Some list has an entry at the 1-based rank [- kk], where the
    reciprocal rank divides by zero. *)
Definition zero_rank (kk : Z) (lists : list (list (result_item Sc))) : bool :=
  existsb (fun l => (1 <=? - kk)%Z && (- kk <=? Z.of_nat (List.length l))%Z)
    lists.

(** The records of [l] with their 1-based ranks from [r] on, scored
    [weight / (rank + kk)]. *)
Fixpoint rank_scored (kk : Z) (weight : Q) (l : list (result_item Sc))
  (r : nat) : list (result_item Sc) :=
  match l with
  | [] => []
  | x :: rest =>
      with_rrf_score x (weight * (1 / inject_Z (Z.of_nat r + kk)))%Q
        :: rank_scored kk weight rest (S r)
  end.

(** The same as [(content, score)] entries of [doc_scores]. *)
Fixpoint rank_entries (kk : Z) (weight : Q) (l : list (result_item Sc))
  (r : nat) : list (string * Q) :=
  match l with
  | [] => []
  | x :: rest =>
      (content x, (weight * (1 / inject_Z (Z.of_nat r + kk)))%Q)
        :: rank_entries kk weight rest (S r)
  end.

End Ranking.

(** Two lists in which [d1] and [d2] swap ranks, so that their fused
    scores are equal. *)
Definition tied_lists : list (list (result_item unit)) :=
  [[d "d1"; d "d2"; d "d3"]; [d "d2"; d "d1"]].

(** The order a stable descending sort produces from a list ordered by
    [before]: larger key first, and [before] among keys that neither
    precedes the other. *)
Section StableOrder.
Variables (A K : Type) (ltb : K -> K -> bool) (key : A -> K)
  (before : A -> A -> Prop).

Definition stable_before (x y : A) : Prop :=
  ltb (key y) (key x) = true \/
  (ltb (key x) (key y) = false /\ ltb (key y) (key x) = false /\ before x y).
End StableOrder.

End RRFMore.

(** ** Further worked examples for the keyword retriever *)

Module BM25More.
Import BM25.

Definition ranking_corpus : list document :=
  [plain_doc "tax tax"; plain_doc "tax law court"; plain_doc "rent";
   plain_doc "wage"; plain_doc "profit"].

End BM25More.

(** ** Further notions for the external reranker and the orchestrator *)

Module HybridMore.
Import RRF BM25 Vec Hybrid.

(** [dict(results[idx])] with ['rerank_score'] set when the entry has a
    numeric score, and ['rerank_position'] set to [rank]. *)
Definition reranked (r : result_item R) (item : resp_item) (rank : Z)
  : result_item R :=
  mk_item (file_name r) (content r) (metadata r) (score r)
    (weighted_rrf_score r)
    (match resp_score item with
     | Some s => Some s
     | None => rerank_score r
     end)
    (Some rank).

(** The entry names one of [n] results. *)
Definition valid_entry (n : nat) (item : resp_item) : bool :=
  match index item with
  | Some idx => ((0 <=? idx) && (idx <? Z.of_nat n))%Z
  | None => false
  end.

(** Both records have a rerank position, the first the smaller. *)
Definition position_lt (a c : result_item R) : Prop :=
  match rerank_position a, rerank_position c with
  | Some x, Some y => (x < y)%Z
  | _, _ => False
  end.

(** The number of entries the remote service is asked for. *)
Definition requested (top_n : option Z) (n : Z) : Z :=
  Z.min (match top_n with
         | Some t => if (t =? 0)%Z then n else t
         | None => n
         end) n.

End HybridMore.

(** ** DocumentManager.load_documents_from_json *)

Module Loader.
Import BM25 Vec.

(** The JSON values the loader reads: [null], strings and integers. *)
Inductive json : Type :=
| JNull
| JStr (s : string)
| JInt (z : Z).

(** An element of the JSON list: an object, or anything else. *)
Inductive ocr_item : Type :=
| ItemDict (fields : list (string * json))
| ItemOther.

(** [str(v)], as an f-string prints it. *)
Definition py_str (v : json) : string :=
  match v with
  | JNull => "None"
  | JStr s => s
  | JInt z => DecimalString.NilZero.string_of_int (Z.to_int z)
  end.

(** [d.get(key, default)] *)
Definition get_or (d : list (string * json)) (key : string) (default : json)
  : json :=
  match dict_get d key with
  | Some v => v
  | None => default
  end.

(** [(item.get('text') or '').strip()]; [None] when it raises: the item
    has no [get], or the text is a non-zero number, which has no
    [strip]. *)
Definition item_text (item : ocr_item) : option string :=
  match item with
  | ItemOther => None
  | ItemDict fields =>
      match dict_get fields "text" with
      | None => Some (strip EmptyString)
      | Some JNull => Some (strip EmptyString)
      | Some (JStr s) => Some (strip s)
      | Some (JInt z) => if (z =? 0)%Z then Some (strip EmptyString) else None
      end
  end.

(** [f"OCR_page_{page_idx}_{text_type}"] *)
Definition source_of (fields : list (string * json)) : string :=
  ("OCR_page_" ++ py_str (get_or fields "page_idx" (JInt 0)) ++ "_"
   ++ py_str (get_or fields "type" (JStr "text")))%string.

Section Load.
Variable hash : string -> Z.

(** [for item in data], on [(documents, seen_hashes)]; [None] when an
    item raises. *)
Fixpoint load_loop (data : list ocr_item) (documents : list document)
  (seen_hashes : list Z) : option (list document) :=
  match data with
  | [] => Some documents
  | item :: rest =>
      match item_text item with
      | None => None
      | Some text =>
          if negb (str_truthy text) then load_loop rest documents seen_hashes
          else if existsb (Z.eqb (hash text)) seen_hashes
          then load_loop rest documents seen_hashes
          else
            match item with
            | ItemDict fields =>
                load_loop rest
                  (documents
                   ++ [{| doc_content := text;
                          doc_source := Some (source_of fields) |}])
                  (hash text :: seen_hashes)
            | ItemOther => None
            end
      end
  end.

(** [DocumentManager.load_documents_from_json(self, json_file_path)];
    [read] is the parsed file when it could be opened and holds a list,
    [None] otherwise.  Every exception ends in [return []]. *)
Definition load_documents_from_json (read : option (list ocr_item))
  : list document :=
  match read with
  | None => []
  | Some data =>
      match load_loop data [] [] with
      | Some documents => documents
      | None => []
      end
  end.
End Load.

(** The texts of the well-formed items with their sources, blank ones
    left out. *)
Fixpoint candidates (data : list ocr_item) : list document :=
  match data with
  | [] => []
  | item :: rest =>
      match item, item_text item with
      | ItemDict fields, Some text =>
          if str_truthy text
          then {| doc_content := text; doc_source := Some (source_of fields) |}
                 :: candidates rest
          else candidates rest
      | _, _ => candidates rest
      end
  end.

Definition well_formed (data : list ocr_item) : Prop :=
  forall item, In item data -> item_text item <> None.

Definition example_data : list ocr_item :=
  [ItemDict [("text"%string, JStr " value labour "); ("page_idx"%string, JInt 3);
             ("type"%string, JStr "text")];
   ItemDict [("text"%string, JStr "  ")];
   ItemDict [("text"%string, JStr "value labour"); ("page_idx"%string, JInt 4)];
   ItemDict [("text"%string, JStr "price"); ("page_idx"%string, JInt 12)]].

(** A list with texts padded by U+3000 and U+00A0, a text that is white
    space only, and a repeated text. *)
Definition padded_data : list ocr_item :=
  [ItemDict [("text"%string,
              JStr (ideographic_space ++ "value labour" ++ no_break_space));
             ("page_idx"%string, JInt 3); ("type"%string, JStr "text")];
   ItemDict [("text"%string, JStr (ideographic_space ++ no_break_space))];
   ItemDict [("text"%string, JStr "value labour"); ("page_idx"%string, JInt 4)];
   ItemDict [("text"%string, JStr "price"); ("page_idx"%string, JInt 12)];
   ItemDict [("text"%string, JStr "rent"); ("page_idx"%string, JInt 7);
             ("type"%string, JStr "table ")]].

End Loader.

(** ** The source and page a keyword hit is reported with *)

Module Report.
Import BM25 Vec Loader.

Section Formatting.
(** [' '.join(content.split())], cut to 80 characters with ["..."]. *)
Variable content_preview : string -> string.
(** [int(m.group(1))] for the match [m] of
    [re.search(r"OCR_page_(\d+)_", s)], when there is one. *)
Variable find_page : string -> option Z.

(** The ['file_name'] of a hit: the stripped source when it is not blank,
    else the content preview. *)
Definition source_preview_of (doc : document) : string :=
  let source_text :=
    match doc_source doc with
    | Some s => s
    | None => EmptyString
    end in
  if str_truthy (strip source_text) then strip source_text
  else content_preview (doc_content doc).

(** The ['metadata'] of a hit. *)
Definition page_meta_of (source_preview : string) : meta :=
  match find_page source_preview with
  | Some p => [("page_idx"%string, PyInt p)]
  | None => []
  end.
End Formatting.

(** What [re.search] and [int] are taken to do on a string that starts
    with the pattern: the digits are those [str] prints for a
    non-negative page number, and [int] reads them back. *)
Definition finds_leading_page (find_page : string -> option Z) : Prop :=
  forall (p : Z) (rest : string),
    (0 <= p)%Z ->
    find_page ("OCR_page_" ++ py_str (JInt p) ++ "_" ++ rest)%string = Some p.

(** An instance for worked examples: the pattern with ASCII digits. *)
Definition is_digit (c : ascii) : bool :=
  let n := nat_of_ascii c in (48 <=? n) && (n <=? 57).

Fixpoint take_digits (s : string) : string :=
  match s with
  | String c rest => if is_digit c then String c (take_digits rest) else EmptyString
  | EmptyString => EmptyString
  end.

Fixpoint drop (n : nat) (s : string) : string :=
  match n, s with
  | S m, String _ rest => drop m rest
  | _, _ => s
  end.

Definition match_page_here (s : string) : option Z :=
  if String.prefix "OCR_page_" s then
    let digits := take_digits (drop 9 s) in
    match digits with
    | EmptyString => None
    | _ =>
        if String.prefix "_" (drop (String.length digits) (drop 9 s)) then
          match DecimalString.NilZero.uint_of_string digits with
          | Some u => Some (Z.of_uint u)
          | None => None
          end
        else None
    end
  else None.

Fixpoint ascii_find_page (s : string) : option Z :=
  match match_page_here s with
  | Some p => Some p
  | None =>
      match s with
      | EmptyString => None
      | String _ rest => ascii_find_page rest
      end
  end.

End Report.
(** * Properties *)

Unset Implicit Arguments.
Set Default Proof Using "Type".

(** ** Dicts and the stable sort *)

Section DictFacts.
Variable V : Type.
Implicit Types (d : list (string * V)) (c : string).

Lemma dict_get_app d d' c :
  dict_get (d ++ d') c =
  match dict_get d c with
  | Some v => Some v
  | None => dict_get d' c
  end.
Proof.
  induction d as [|[k0 v0] d IH]; simpl; [reflexivity|].
  destruct (String.eqb c k0); [reflexivity | exact IH].
Qed.

Lemma dict_get_none_iff d c :
  dict_get d c = None <-> ~ In c (map fst d).
Proof.
  induction d as [|[k0 v0] d IH]; simpl.
  - split; [intros _ [] | reflexivity].
  - destruct (String.eqb_spec c k0) as [->|Hne].
    + split; [discriminate | intros H; exfalso; apply H; now left].
    + rewrite IH. split.
      * intros H [Heq|Hin]; [congruence | exact (H Hin)].
      * intros H Hin. apply H. now right.
Qed.

Lemma dict_mem_true_iff d c :
  dict_mem d c = true <-> In c (map fst d).
Proof.
  unfold dict_mem. destruct (dict_get d c) eqn:E.
  - split; [intros _ | reflexivity].
    destruct (in_dec string_dec c (map fst d)) as [Hin|Hn]; [exact Hin|].
    apply dict_get_none_iff in Hn. congruence.
  - split; [discriminate|]. intros Hin.
    apply dict_get_none_iff in E. contradiction.
Qed.

Lemma dict_update_keys d c f :
  map fst (dict_update d c f) = map fst d.
Proof.
  induction d as [|[k0 v0] d IH]; simpl; [reflexivity|].
  destruct (String.eqb c k0); simpl; [reflexivity | now rewrite IH].
Qed.

Lemma dict_get_update_same d c f v :
  dict_get d c = Some v -> dict_get (dict_update d c f) c = Some (f v).
Proof.
  induction d as [|[k0 v0] d IH]; simpl; [discriminate|].
  destruct (String.eqb c k0) eqn:E; simpl; rewrite E.
  - intros [= ->]. reflexivity.
  - exact IH.
Qed.

Lemma dict_get_update_other d c c' f :
  c' <> c -> dict_get (dict_update d c f) c' = dict_get d c'.
Proof.
  intros Hne. induction d as [|[k0 v0] d IH]; simpl; [reflexivity|].
  destruct (String.eqb_spec c k0) as [->|Hck]; simpl.
  - destruct (String.eqb_spec c' k0); [contradiction | reflexivity].
  - destruct (String.eqb c' k0); [reflexivity | exact IH].
Qed.

Lemma dict_get_in d c v :
  NoDup (map fst d) -> In (c, v) d -> dict_get d c = Some v.
Proof.
  induction d as [|[k0 v0] d IH]; simpl; [intros _ []|].
  intros Hnd [Heq|Hin].
  - inversion Heq; subst. now rewrite String.eqb_refl.
  - inversion Hnd as [|? ? Hnotin Hnd']; subst.
    destruct (String.eqb_spec c k0) as [->|Hne].
    + exfalso. apply Hnotin. apply in_map_iff. exists (k0, v). auto.
    + now apply IH.
Qed.

Lemma dict_get_some_in d c v :
  dict_get d c = Some v -> In (c, v) d.
Proof.
  induction d as [|[k0 v0] d IH]; simpl; [discriminate|].
  destruct (String.eqb_spec c k0) as [->|Hne].
  - intros [= ->]. now left.
  - intros H. right. now apply IH.
Qed.
End DictFacts.

Section SortFacts.
Variables (A K : Type) (ltb : K -> K -> bool) (key : A -> K).

Lemma insert_desc_perm x l :
  Permutation (insert_desc ltb key x l) (x :: l).
Proof.
  induction l as [|y ys IH]; simpl; [reflexivity|].
  destruct (ltb (key x) (key y)); [|reflexivity].
  rewrite IH. apply perm_swap.
Qed.

Lemma sorted_desc_perm l : Permutation (sorted_desc ltb key l) l.
Proof.
  induction l as [|x xs IH]; simpl; [reflexivity|].
  rewrite insert_desc_perm. now constructor.
Qed.

Lemma sorted_desc_in x l : In x (sorted_desc ltb key l) <-> In x l.
Proof.
  split; apply Permutation_in;
    [apply sorted_desc_perm | symmetry; apply sorted_desc_perm].
Qed.
End SortFacts.

Lemma slice_to_length {A : Type} (l : list A) (top_k : Z) :
  (0 <= top_k)%Z -> (Z.of_nat (List.length (slice_to l top_k)) <= top_k)%Z.
Proof.
  intros H. unfold slice_to.
  destruct (Z.leb_spec 0 top_k) as [_|Hlt]; [|lia].
  pose proof (firstn_le_length (Z.to_nat top_k) l). lia.
Qed.

Lemma firstn_incl {A : Type} (n : nat) (l : list A) x :
  In x (firstn n l) -> In x l.
Proof.
  intros H. rewrite <- (firstn_skipn n l). apply in_or_app. now left.
Qed.

Lemma slice_to_incl {A : Type} (l : list A) (top_k : Z) x :
  In x (slice_to l top_k) -> In x l.
Proof.
  unfold slice_to. destruct (0 <=? top_k)%Z; apply firstn_incl.
Qed.

Lemma slice_to_firstn {A : Type} (l : list A) (top_k : Z) :
  (0 <= top_k)%Z -> slice_to l top_k = firstn (Z.to_nat top_k) l.
Proof.
  intros H. unfold slice_to.
  destruct (Z.leb_spec 0 top_k); [reflexivity | lia].
Qed.

(** ** Weighted reciprocal-rank fusion *)

Import RRF.

Section FusionFacts.
Context {Sc : Type}.
Implicit Types (self : RRFReranker) (st : @rrf_state Sc) (c : string)
  (results : list (result_item Sc)) (pairs : list (list (result_item Sc) * Q)).

Lemma rrf_step_total self weight st rank (x : result_item Sc) :
  (0 <= k self)%Z -> exists st', rrf_step self weight st rank x = Ok st'.
Proof.
  intros Hk. destruct st as [ds di]. unfold rrf_step.
  destruct (Z.eqb_spec (Z.of_nat rank + 1 + k self) 0) as [E|_]; [lia|].
  destruct (dict_mem ds (content x)); eexists; reflexivity.
Qed.

Lemma rrf_step_spec self weight st rank (x : result_item Sc) st' :
  rrf_step self weight st rank x = Ok st' ->
  rrf_inv st ->
  rrf_inv st' /\
  (forall c, score_of (fst st') c ==
             score_of (fst st) c + contribution (k self) weight c x (S rank)) /\
  (forall c, In c (map fst (fst st')) <->
             In c (map fst (fst st)) \/ c = content x).
Proof.
  destruct st as [ds di]. unfold rrf_step, contribution.
  replace (Z.of_nat (S rank) + k self)%Z with (Z.of_nat rank + 1 + k self)%Z
    by lia.
  destruct (Z.of_nat rank + 1 + k self =? 0)%Z; [discriminate|].
  set (w := (weight * (1 / inject_Z (Z.of_nat rank + 1 + k self)))%Q).
  destruct (dict_mem ds (content x)) eqn:M; intros [= <-];
    intros (Hk & Hnd & Hc); simpl in *.
  - apply dict_mem_true_iff in M.
    split; [|split].
    + unfold rrf_inv; simpl. rewrite dict_update_keys. auto.
    + intros c. unfold score_of.
      destruct (String.eqb_spec (content x) c) as [<-|Hne].
      * destruct (dict_get ds (content x)) eqn:G.
        -- erewrite dict_get_update_same by exact G. reflexivity.
        -- apply dict_get_none_iff in G. contradiction.
      * rewrite dict_get_update_other by congruence.
        destruct (dict_get ds c); ring.
    + intros c. rewrite dict_update_keys. split; [auto|].
      intros [H| ->]; assumption.
  - assert (Hn : ~ In (content x) (map fst ds)).
    { intros Hin. apply dict_mem_true_iff in Hin. congruence. }
    unfold dict_insert. split; [|split].
    + unfold rrf_inv; simpl. rewrite !map_app; simpl. split; [|split].
      * now rewrite Hk.
      * apply NoDup_app_remove_l with (l := []). simpl.
        apply Permutation_NoDup with (l := content x :: map fst ds).
        -- apply Permutation_cons_append.
        -- now constructor.
      * apply Forall_app. split; [exact Hc|]. now constructor.
    + intros c. unfold score_of. rewrite dict_get_app. simpl.
      destruct (dict_get ds c) eqn:G.
      * destruct (String.eqb_spec (content x) c) as [<-|Hne]; [|ring].
        apply dict_get_some_in in G. exfalso. apply Hn.
        apply in_map_iff. exists (content x, q). auto.
      * destruct (String.eqb_spec c (content x)) as [->|Hne].
        -- rewrite String.eqb_refl. ring.
        -- destruct (String.eqb_spec (content x) c); [congruence|ring].
    + intros c. rewrite map_app, in_app_iff. simpl. intuition congruence.
Qed.

Lemma rrf_inner_total self weight results rank st :
  (0 <= k self)%Z ->
  exists st', rrf_inner self weight results rank st = Ok st'.
Proof.
  intros Hk. revert rank st.
  induction results as [|x rest IH]; intros rank st; simpl.
  - eexists; reflexivity.
  - destruct (rrf_step_total self weight st rank x Hk) as [st1 ->]. simpl.
    apply IH.
Qed.

Lemma rrf_inner_spec self weight results : forall rank st st',
  rrf_inner self weight results rank st = Ok st' ->
  rrf_inv st ->
  rrf_inv st' /\
  (forall c, score_of (fst st') c ==
             score_of (fst st) c + rank_sum (k self) weight c results (S rank)) /\
  (forall c, In c (map fst (fst st')) <->
             In c (map fst (fst st)) \/ In c (map content results)).
Proof.
  induction results as [|x rest IH]; intros rank st st';
    cbn [rrf_inner rank_sum map].
  - intros [= <-] Hinv. split; [exact Hinv|]. split.
    + intros c. ring.
    + intros c. simpl. tauto.
  - destruct (rrf_step self weight st rank x) as [st1|e] eqn:E;
      cbn [bind]; [|discriminate].
    intros Hrest Hinv.
    destruct (rrf_step_spec _ _ _ _ _ _ E Hinv) as (Hinv1 & Hs1 & Hk1).
    destruct (IH _ _ _ Hrest Hinv1) as (Hinv' & Hs' & Hk').
    split; [exact Hinv'|]. split.
    + intros c. rewrite Hs', Hs1. unfold contribution. ring.
    + intros c. rewrite Hk', Hk1. cbn [In]. intuition congruence.
Qed.

Lemma rrf_outer_total self pairs st :
  (0 <= k self)%Z -> exists st', rrf_outer self pairs st = Ok st'.
Proof.
  intros Hk. revert st.
  induction pairs as [|[results weight] rest IH]; intros st; simpl.
  - eexists; reflexivity.
  - destruct (rrf_inner_total self weight results 0 st Hk) as [st1 ->].
    simpl. apply IH.
Qed.

Lemma rrf_outer_spec self pairs : forall st st',
  rrf_outer self pairs st = Ok st' ->
  rrf_inv st ->
  rrf_inv st' /\
  (forall c, score_of (fst st') c ==
             score_of (fst st) c + fused_sum (k self) c pairs) /\
  (forall c, In c (map fst (fst st')) <->
             In c (map fst (fst st)) \/ occurs c pairs).
Proof.
  induction pairs as [|[results weight] rest IH]; intros st st'; simpl.
  - intros [= <-] Hinv. split; [exact Hinv|]. split.
    + intros c. ring.
    + intros c. split; [auto|].
      intros [H|(l & w & x & [] & _)]. exact H.
  - destruct (rrf_inner self weight results 0 st) as [st1|e] eqn:E; simpl;
      [|discriminate].
    intros Hrest Hinv.
    destruct (rrf_inner_spec _ _ _ _ _ _ E Hinv) as (Hinv1 & Hs1 & Hk1).
    destruct (IH _ _ Hrest Hinv1) as (Hinv' & Hs' & Hk').
    split; [exact Hinv'|]. split.
    + intros c. rewrite Hs', Hs1. ring.
    + intros c. rewrite Hk', Hk1. unfold occurs. split.
      * intros [[H|H]|(l & w & x & Hin & Hx & Hc)].
        -- now left.
        -- right. apply in_map_iff in H. destruct H as (x & Hc & Hx).
           exists results, weight, x. simpl. auto.
        -- right. exists l, w, x. simpl. auto.
      * intros [H|(l & w & x & [Heq|Hin] & Hx & Hc)].
        -- now left; left.
        -- inversion Heq; subst. left; right. now apply in_map.
        -- right. exists l, w, x. auto.
Qed.

Lemma rrf_inv_empty : rrf_inv (([], []) : @rrf_state Sc).
Proof. unfold rrf_inv; simpl. repeat split; constructor. Qed.

Lemma rrf_format_spec (doc_scores : list (string * Q))
  (doc_info : list (string * result_item Sc)) entries :
  rrf_inv (doc_scores, doc_info) ->
  (forall e, In e entries -> In e doc_scores) ->
  exists out,
    rrf_format doc_info entries = Ok out /\
    List.length out = List.length entries /\
    map (fun r => (content r, weighted_rrf_score r)) out =
    map (fun e => (fst e, Some (snd e))) entries.
Proof.
  intros (Hk & Hnd & Hc). simpl in *.
  induction entries as [|[c s] rest IH]; intros Hin; simpl.
  - exists []. auto.
  - destruct IH as (out & -> & Hlen & Hmap).
    { intros e He. apply Hin. now right. }
    assert (Hkey : In c (map fst doc_info)).
    { rewrite Hk. apply in_map_iff. exists (c, s). split; [reflexivity|].
      apply Hin. now left. }
    destruct (dict_get doc_info c) as [r|] eqn:G.
    + simpl. eexists. split; [reflexivity|]. simpl. split; [now rewrite Hlen|].
      f_equal; [|exact Hmap].
      apply dict_get_some_in in G. rewrite Forall_forall in Hc.
      specialize (Hc _ G). simpl in Hc. now rewrite Hc.
    + apply dict_get_none_iff in G. contradiction.
Qed.
End FusionFacts.

Section FusionSums.
Context {Sc : Type}.
Implicit Types (c : string) (results : list (result_item Sc)).

Lemma rank_sum_absent kk weight c results : forall r,
  ~ In c (map content results) ->
  rank_sum kk weight c results r == 0.
Proof.
  induction results as [|x rest IH]; intros r Hn; cbn [rank_sum].
  - reflexivity.
  - cbn [map In] in Hn.
    destruct (String.eqb_spec (content x) c) as [E|_];
      [exfalso; apply Hn; now left|].
    rewrite IH by (intros H; apply Hn; now right). ring.
Qed.

Lemma rank_sum_app kk weight c results1 results2 : forall r,
  rank_sum kk weight c (results1 ++ results2) r ==
  rank_sum kk weight c results1 r
  + rank_sum kk weight c results2 (r + List.length results1).
Proof.
  induction results1 as [|x rest IH]; intros r; cbn [rank_sum app List.length].
  - rewrite Nat.add_0_r. ring.
  - rewrite IH. replace (S r + List.length rest)%nat
      with (r + S (List.length rest))%nat by lia. ring.
Qed.

(** A content that occurs once in a list, at 1-based rank
    [length before + 1], collects exactly that rank's share. *)
Lemma rank_sum_once kk weight c (before : list (result_item Sc))
  (x : result_item Sc) (after : list (result_item Sc)) :
  content x = c ->
  ~ In c (map content before) -> ~ In c (map content after) ->
  rank_sum kk weight c (before ++ x :: after) 1 ==
  weight / inject_Z (Z.of_nat (S (List.length before)) + kk).
Proof.
  intros Hx Hb Ha. rewrite rank_sum_app. cbn [rank_sum].
  rewrite (rank_sum_absent _ _ _ before) by exact Hb.
  rewrite (rank_sum_absent _ _ _ after) by exact Ha.
  rewrite <- Hx, String.eqb_refl. cbn [Nat.add].
  unfold Qdiv. ring.
Qed.
End FusionSums.

Lemma rrf_accumulate {Sc : Type} (self : RRFReranker)
  (pairs : list (list (result_item Sc) * Q)) :
  (0 <= k self)%Z ->
  exists doc_scores doc_info,
    rrf_outer self pairs ([], []) = Ok (doc_scores, doc_info) /\
    rrf_inv (doc_scores, doc_info) /\
    (forall c, occurs c pairs ->
       exists s, dict_get doc_scores c = Some s /\
                 s == fused_sum (k self) c pairs) /\
    (forall c, ~ occurs c pairs -> dict_get doc_scores c = None).
Proof.
  intros Hk.
  destruct (rrf_outer_total self pairs ([], []) Hk) as [[ds di] E].
  destruct (rrf_outer_spec self pairs _ _ E rrf_inv_empty) as (Hinv & Hs & Hkeys).
  exists ds, di. split; [exact E|]. split; [exact Hinv|]. cbn [fst] in *.
  split.
  - intros c Hocc.
    assert (Hin : In c (map fst ds)) by (apply Hkeys; now right).
    destruct (dict_get ds c) as [s|] eqn:G.
    + exists s. split; [reflexivity|].
      specialize (Hs c). unfold score_of in Hs. rewrite G in Hs.
      simpl in Hs. rewrite Hs. ring.
    + apply dict_get_none_iff in G. contradiction.
  - intros c Hn. apply dict_get_none_iff. intros Hin.
    apply Hkeys in Hin. destruct Hin as [[]|Hocc]. exact (Hn Hocc).
Qed.

(** C1.  Weighted RRF: after the accumulation, the score stored for a
    content [c] is the sum, over every list and every 1-based rank [r] at
    which [c] occurs in it, of [weight * (1 / (r + k))], contents that occur
    nowhere have no score, and every returned record carries the score of
    its content.  A content at rank [rank_v] of the vector list and rank
    [rank_k] of the keyword list, once in each, scores
    [vector_weight / (rank_v + k) + keyword_weight / (rank_k + k)].  On
    A = [d1, d2], B = [d2, d3], weights 1 and 1, k = 0 the output is d2, d1,
    d3 with scores 3/2, 1 and 1/2. *)
Theorem rrf_fused_score_is_weighted_rank_sum :
  (forall (Sc : Type) (self : RRFReranker)
          (result_lists : list (list (result_item Sc))) (weights : list Q)
          (top_k : Z),
      List.length result_lists = List.length weights ->
      (0 <= k self)%Z ->
      exists doc_scores doc_info out,
        rrf_outer self (combine result_lists weights) ([], [])
          = Ok (doc_scores, doc_info) /\
        rerank_with_weights self result_lists weights top_k = Ok out /\
        (forall c, occurs c (combine result_lists weights) ->
           exists s, dict_get doc_scores c = Some s /\
                     s == fused_sum (k self) c (combine result_lists weights)) /\
        (forall c, ~ occurs c (combine result_lists weights) ->
           dict_get doc_scores c = None) /\
        (forall r, In r out ->
           exists s, weighted_rrf_score r = Some s /\
                     dict_get doc_scores (content r) = Some s /\
                     s == fused_sum (k self) (content r)
                            (combine result_lists weights))) /\
  (forall (Sc : Type) (self : RRFReranker) (vector_weight keyword_weight : Q)
          (c : string) (v_before v_after k_before k_after : list (result_item Sc))
          (xv xk : result_item Sc),
      (0 <= k self)%Z ->
      content xv = c -> content xk = c ->
      ~ In c (map content v_before) -> ~ In c (map content v_after) ->
      ~ In c (map content k_before) -> ~ In c (map content k_after) ->
      let rank_v := Z.of_nat (S (List.length v_before)) in
      let rank_k := Z.of_nat (S (List.length k_before)) in
      exists doc_scores doc_info s,
        rrf_outer self
          (combine [v_before ++ xv :: v_after; k_before ++ xk :: k_after]
                   [vector_weight; keyword_weight]) ([], [])
          = Ok (doc_scores, doc_info) /\
        dict_get doc_scores c = Some s /\
        s == vector_weight / inject_Z (rank_v + k self)
             + keyword_weight / inject_Z (rank_k + k self)) /\
  scored_result
    (rerank_with_weights (RRFReranker_init (Some 0%Z)) example_lists
       [1; 1] 10)
  = Ok [("d2"%string, Some (3 # 2)); ("d1"%string, Some 1);
        ("d3"%string, Some (1 # 2))].
Proof.
  split; [|split].
  - intros Sc self result_lists weights top_k Hlen Hk.
    destruct (rrf_accumulate self (combine result_lists weights) Hk)
      as (ds & di & E & Hinv & Hocc & Hnone).
    assert (Hsub : forall e,
               In e (slice_to (sorted_desc Qltb snd ds) top_k) -> In e ds).
    { intros e He. apply slice_to_incl in He.
      now apply sorted_desc_in in He. }
    destruct (rrf_format_spec ds di _ Hinv Hsub) as (out & Hfmt & _ & Hmap).
    exists ds, di, out. split; [exact E|]. split.
    { unfold rerank_with_weights. rewrite Hlen, Nat.eqb_refl. cbn [negb].
      rewrite E. cbn [bind]. exact Hfmt. }
    split; [exact Hocc|]. split; [exact Hnone|].
    intros r Hr.
    assert (Hp : In (content r, weighted_rrf_score r)
                   (map (fun e : string * Q => (fst e, Some (snd e)))
                      (slice_to (sorted_desc Qltb snd ds) top_k))).
    { rewrite <- Hmap. apply in_map_iff. exists r. auto. }
    apply in_map_iff in Hp. destruct Hp as ([c s] & Heq & He).
    cbn [fst snd] in Heq. inversion Heq as [[Hc Hs]]. subst c.
    apply Hsub in He.
    destruct Hinv as (_ & Hnd & _). cbn [fst] in Hnd.
    pose proof (dict_get_in _ ds _ _ Hnd He) as G.
    exists s. split; [reflexivity|]. split; [exact G|].
    assert (Ho : occurs (content r) (combine result_lists weights)).
    { destruct (dict_get ds (content r)) eqn:G' ; [|discriminate].
      destruct (in_dec string_dec (content r) (map fst ds)) as [Hin|Hn].
      - destruct (rrf_outer_spec self _ _ _ E rrf_inv_empty) as (_ & _ & Hkeys).
        apply Hkeys in Hin. destruct Hin as [[]|Ho]. exact Ho.
      - apply dict_get_none_iff in Hn. congruence. }
    destruct (Hocc _ Ho) as (s' & G' & Hs'). congruence.
  - intros Sc self vw kw c vb va kb ka xv xk Hk Hxv Hxk Hvb Hva Hkb Hka
           rank_v rank_k.
    set (pairs := combine [vb ++ xv :: va; kb ++ xk :: ka] [vw; kw]).
    destruct (rrf_accumulate self pairs Hk) as (ds & di & E & _ & Hocc & _).
    assert (Ho : occurs c pairs).
    { exists (vb ++ xv :: va), vw, xv. split; [now left|].
      split; [apply in_or_app; right; now left | exact Hxv]. }
    destruct (Hocc c Ho) as (s & G & Hs).
    exists ds, di, s. split; [exact E|]. split; [exact G|].
    rewrite Hs. unfold pairs. cbn [combine fused_sum].
    rewrite (rank_sum_once _ _ _ vb xv va Hxv Hvb Hva).
    rewrite (rank_sum_once _ _ _ kb xk ka Hxk Hkb Hka).
    unfold rank_v, rank_k. ring.
  - vm_compute. reflexivity.
Qed.

(** The worked example, obtained from the general statement. *)
Lemma rrf_fused_score_example :
  List.length example_lists = List.length [1; 1] /\
  (0 <= k (RRFReranker_init (Some 0%Z)))%Z /\
  exists doc_scores doc_info out,
    rrf_outer (RRFReranker_init (Some 0%Z)) (combine example_lists [1; 1])
      ([], []) = Ok (doc_scores, doc_info) /\
    rerank_with_weights (RRFReranker_init (Some 0%Z)) example_lists [1; 1] 3
      = Ok out /\
    (forall c, occurs c (combine example_lists [1; 1]) ->
       exists s, dict_get doc_scores c = Some s /\
                 s == fused_sum 0 c (combine example_lists [1; 1])) /\
    (forall c, ~ occurs c (combine example_lists [1; 1]) ->
       dict_get doc_scores c = None) /\
    (forall r, In r out ->
       exists s, weighted_rrf_score r = Some s /\
                 dict_get doc_scores (content r) = Some s /\
                 s == fused_sum 0 (content r) (combine example_lists [1; 1])).
Proof.
  split; [reflexivity|]. split; [simpl; lia|].
  apply (proj1 rrf_fused_score_is_weighted_rank_sum unit
           (RRFReranker_init (Some 0%Z)) example_lists [1; 1] 3%Z).
  - reflexivity.
  - simpl. lia.
Defined.

(** ** The BM25 index *)

Import BM25.

Lemma counter_get_incr (d : list (string * nat)) (key t : string) :
  counter_get (counter_incr d key) t =
  (counter_get d t + (if String.eqb t key then 1 else 0))%nat.
Proof.
  unfold counter_incr, counter_get.
  destruct (dict_mem d key) eqn:M.
  - unfold dict_mem in M. destruct (dict_get d key) as [v|] eqn:G;
      [|discriminate].
    destruct (String.eqb_spec t key) as [->|Hne].
    + rewrite (dict_get_update_same _ d key S v G), G. lia.
    + rewrite dict_get_update_other by exact Hne.
      destruct (dict_get d t); lia.
  - unfold dict_mem in M. destruct (dict_get d key) eqn:G; [discriminate|].
    unfold dict_insert. rewrite dict_get_app. simpl.
    destruct (String.eqb_spec t key) as [->|Hne].
    + rewrite G. reflexivity.
    + destruct (dict_get d t); lia.
Qed.

Lemma counter_incr_keys (d : list (string * nat)) (key t : string) :
  In t (map fst (counter_incr d key)) <-> In t (map fst d) \/ t = key.
Proof.
  unfold counter_incr. destruct (dict_mem d key) eqn:M.
  - rewrite dict_update_keys. apply dict_mem_true_iff in M.
    split; [auto | intros [H| ->]; assumption].
  - unfold dict_insert. rewrite map_app, in_app_iff. simpl.
    intuition congruence.
Qed.

Lemma counter_fold_get (l : list string) : forall d t,
  counter_get (fold_left counter_incr l d) t =
  (counter_get d t + count_occ string_dec l t)%nat.
Proof.
  induction l as [|x xs IH]; intros d t; simpl; [lia|].
  rewrite IH, counter_get_incr.
  destruct (string_dec x t) as [->|Hne].
  - rewrite String.eqb_refl. lia.
  - destruct (String.eqb_spec t x); [congruence | lia].
Qed.

Lemma counter_fold_keys (l : list string) : forall d t,
  In t (map fst (fold_left counter_incr l d)) <-> In t (map fst d) \/ In t l.
Proof.
  induction l as [|x xs IH]; intros d t; simpl; [tauto|].
  rewrite IH, counter_incr_keys. intuition congruence.
Qed.

Section IndexFacts.
Variable preprocess_text : string -> list string.
Variable source_preview : document -> string.
Variable page_meta : string -> meta.

Local Abbreviation terms_of := (terms_of preprocess_text).
Local Abbreviation df := (df preprocess_text).
Local Abbreviation index_of := (index_of preprocess_text).
Local Abbreviation build_index := (build_index preprocess_text).
Local Abbreviation reachable := (reachable preprocess_text).

Lemma contains_true_iff (terms : list string) (t : string) :
  contains terms t = true <-> In t terms.
Proof.
  unfold contains. rewrite existsb_exists. split.
  - intros (x & Hin & E). apply String.eqb_eq in E. now subst.
  - intros Hin. exists t. split; [exact Hin | apply String.eqb_refl].
Qed.

Lemma term_freq_mem (terms : list string) (t : string) :
  dict_mem (fold_left counter_incr terms []) t = contains terms t.
Proof.
  apply eq_true_iff_eq.
  rewrite dict_mem_true_iff, counter_fold_keys, contains_true_iff.
  simpl. split; [intros [[]|H]; exact H | intros H; right; exact H].
Qed.

Lemma term_freq_get (terms : list string) (t : string) :
  counter_get (fold_left counter_incr terms []) t = tf terms t.
Proof. rewrite counter_fold_get. reflexivity. Qed.

Lemma count_occ_term_set (terms : list string) (t : string) :
  count_occ string_dec (nodup string_dec terms) t =
  if contains terms t then 1%nat else 0%nat.
Proof.
  pose proof (NoDup_nodup string_dec terms) as Hnd.
  rewrite (NoDup_count_occ string_dec) in Hnd. specialize (Hnd t).
  destruct (contains terms t) eqn:C.
  - apply contains_true_iff in C.
    apply (nodup_In string_dec) in C.
    apply (count_occ_In string_dec) in C. lia.
  - destruct (Nat.eq_dec (count_occ string_dec (nodup string_dec terms) t) 0)
      as [E|Hpos]; [exact E|].
    assert (Hin : In t (nodup string_dec terms))
      by (apply (count_occ_In string_dec); lia).
    apply nodup_In in Hin. apply contains_true_iff in Hin. congruence.
Qed.

Lemma index_fold (docs : list document) : forall dts dls tdf,
  let r := fold_left (index_step preprocess_text) docs (dts, dls, tdf) in
  fst (fst r) = dts ++ map terms_of docs /\
  snd (fst r) = dls ++ map (fun doc => List.length (terms_of doc)) docs /\
  forall t, counter_get (snd r) t = (counter_get tdf t + df docs t)%nat.
Proof.
  induction docs as [|doc rest IH]; intros dts dls tdf; cbn zeta.
  - simpl. rewrite !app_nil_r. repeat split. intros t.
    unfold BM25.df. simpl. lia.
  - cbn [fold_left index_step].
    destruct (IH (dts ++ [preprocess_text (doc_content doc)])
                 (dls ++ [List.length (preprocess_text (doc_content doc))])
                 (fold_left counter_incr
                    (nodup string_dec (preprocess_text (doc_content doc)))
                    tdf))
      as (H1 & H2 & H3).
    cbn zeta in H1, H2, H3. rewrite H1, H2. cbn [map].
    rewrite <- !app_assoc. repeat split. intros t.
    rewrite H3, counter_fold_get, count_occ_term_set.
    unfold BM25.df, BM25.terms_of. cbn [filter].
    destruct (contains (preprocess_text (doc_content doc)) t);
      cbn [List.length]; lia.
Qed.

Lemma tdf_of_get (docs : list document) (t : string) :
  counter_get (tdf_of preprocess_text docs) t = df docs t.
Proof.
  unfold tdf_of.
  destruct (index_fold docs [] [] []) as (_ & _ & H). cbn zeta in H.
  rewrite H. reflexivity.
Qed.

Lemma df_le (docs : list document) (t : string) :
  (df docs t <= List.length docs)%nat.
Proof. unfold BM25.df. apply filter_length_le. Qed.

(** Building never raises, and yields the index of the corpus. *)
Lemma build_index_eq (self : KeywordRetriever) :
  build_index self =
  Ok {| documents := documents self;
        document_terms := document_terms (index_of (documents self));
        term_doc_freq := term_doc_freq (index_of (documents self));
        avg_doc_length := avg_doc_length (index_of (documents self));
        doc_lengths := doc_lengths (index_of (documents self));
        k1 := k1 self;
        b := b self |}.
Proof.
  unfold BM25.build_index.
  destruct (index_fold (documents self) [] [] []) as (H1 & H2 & _).
  cbn zeta in H1, H2. unfold BM25.index_of, tdf_of. cbn.
  destruct (fold_left (index_step preprocess_text) (documents self)
              ([], [], [])) as [[dts dls] tdf].
  cbn [fst snd app] in *. subst dts dls.
  destruct (documents self) as [|doc rest] eqn:D.
  - reflexivity.
  - cbn [map]. unfold pydiv.
    destruct (Req_dec_T _ 0) as [E|_].
    + exfalso. revert E. apply not_0_INR. cbn [List.length]. lia.
    + cbn [bind]. unfold avg_len. cbn [map List.length].
      rewrite length_map. reflexivity.
Qed.

Lemma reachable_index (self : KeywordRetriever) :
  reachable self -> self = index_of (documents self).
Proof.
  induction 1 as [docs self Hinit | self docs self' Hreach IH Hadd].
  - unfold KeywordRetriever_init in Hinit.
    destruct docs as [[|doc rest]|].
    + inversion Hinit. reflexivity.
    + rewrite build_index_eq in Hinit. inversion Hinit. reflexivity.
    + inversion Hinit. reflexivity.
  - unfold add_documents in Hadd. rewrite build_index_eq in Hadd.
    cbn [documents k1 b] in Hadd. rewrite IH in Hadd. cbn [k1 b] in Hadd.
    inversion Hadd. reflexivity.
Qed.

Lemma index_of_reachable (docs : list document) : reachable (index_of docs).
Proof.
  apply (reach_init preprocess_text (Some docs)).
  unfold KeywordRetriever_init. destruct docs as [|doc rest].
  - reflexivity.
  - rewrite build_index_eq. reflexivity.
Qed.
End IndexFacts.

(** ** BM25 scoring *)

Lemma pydiv_ok (x y : R) : y <> 0%R -> pydiv x y = Ok (x / y)%R.
Proof.
  intros H. unfold pydiv. destruct (Req_dec_T y 0); [contradiction|reflexivity].
Qed.

Lemma math_log_ok (x : R) : (0 < x)%R -> math_log x = Ok (ln x).
Proof.
  intros H. unfold math_log. destruct (Rlt_dec 0 x); [reflexivity|contradiction].
Qed.

Lemma Rltb_true_iff (x y : R) : Rltb x y = true <-> (x < y)%R.
Proof.
  unfold Rltb. destruct (Rlt_dec x y); split; auto; discriminate.
Qed.

Lemma Rltb_false_iff (x y : R) : Rltb x y = false <-> (y <= x)%R.
Proof.
  unfold Rltb. destruct (Rlt_dec x y); split; auto; try discriminate; lra.
Qed.

Lemma list_sum_ge_in (x : nat) (l : list nat) :
  In x l -> (x <= list_sum l)%nat.
Proof.
  induction l as [|y ys IH]; simpl; [intros []|].
  intros [->|H]; [lia|]. specialize (IH H). lia.
Qed.

Section ScoreFacts.
Variable preprocess_text : string -> list string.
Variable source_preview : document -> string.
Variable page_meta : string -> meta.

Local Abbreviation terms_of := (terms_of preprocess_text).
Local Abbreviation df := (df preprocess_text).
Local Abbreviation idf := (idf preprocess_text).
Local Abbreviation avg_len := (avg_len preprocess_text).
Local Abbreviation tf_term := (tf_term preprocess_text).
Local Abbreviation bm25_sum := (bm25_sum preprocess_text).
Local Abbreviation index_of := (index_of preprocess_text).
Local Abbreviation reachable := (reachable preprocess_text).

Lemma avg_len_pos (docs : list document) (doc : document) :
  In doc docs -> terms_of doc <> [] -> (0 < avg_len docs)%R.
Proof.
  intros Hin Hne. unfold BM25.avg_len.
  assert (Hlen : (1 <= List.length docs)%nat).
  { destruct docs; [destruct Hin | simpl; lia]. }
  assert (Hsum : (1 <= list_sum
                          (map (fun d => List.length (terms_of d)) docs))%nat).
  { apply Nat.le_trans with (List.length (terms_of doc)).
    - destruct (terms_of doc); [congruence | simpl; lia].
    - apply list_sum_ge_in.
      apply (in_map (fun d => List.length (terms_of d))) in Hin. exact Hin. }
  apply Rdiv_lt_0_compat; apply lt_0_INR; lia.
Qed.

Lemma avg_len_nonneg (docs : list document) : (0 <= avg_len docs)%R.
Proof.
  unfold BM25.avg_len. destruct docs as [|doc rest].
  - simpl. unfold Rdiv. rewrite Rmult_0_l. lra.
  - set (s := list_sum _). set (n := List.length _).
    assert (0 <= INR s)%R by apply pos_INR.
    assert (0 < INR n)%R by (apply lt_0_INR; subst n; simpl; lia).
    unfold Rdiv. apply Rmult_le_pos; [assumption|].
    apply Rlt_le, Rinv_0_lt_compat. assumption.
Qed.

Lemma idf_arg_pos (docs : list document) (t : string) :
  (0 < (INR (List.length docs) - INR (df docs t) + 1 / 2)
       / (INR (df docs t) + 1 / 2))%R.
Proof.
  pose proof (df_le preprocess_text docs t) as Hle.
  apply le_INR in Hle. pose proof (pos_INR (df docs t)) as Hpos.
  apply Rdiv_lt_0_compat; lra.
Qed.

Lemma tf_term_den_pos (n : nat) (rel : R) :
  (0 <= rel)%R -> (1 <= n)%nat ->
  (0 < INR n + 3 / 2 * (1 - 3 / 4 + 3 / 4 * rel))%R.
Proof.
  intros Hrel Hn. apply le_INR in Hn. simpl in Hn. nra.
Qed.

Lemma contains_tf_pos (terms : list string) (t : string) :
  contains terms t = true -> (1 <= tf terms t)%nat.
Proof.
  intros C. apply contains_true_iff in C.
  apply (count_occ_In string_dec) in C. unfold tf. lia.
Qed.

Lemma rel_len_nonneg (docs : list document) (n : nat) :
  (0 <= INR n / avg_len docs)%R.
Proof.
  pose proof (avg_len_nonneg docs) as Ha. pose proof (pos_INR n) as Hn.
  destruct (Req_dec_T (avg_len docs) 0) as [E|Hne].
  - rewrite E. unfold Rdiv. rewrite Rinv_0, Rmult_0_r. lra.
  - unfold Rdiv. apply Rmult_le_pos; [assumption|].
    apply Rlt_le, Rinv_0_lt_compat. lra.
Qed.

Lemma index_avg (docs : list document) (doc : document) :
  In doc docs -> avg_doc_length (index_of docs) = avg_len docs.
Proof. destruct docs; [intros [] | reflexivity]. Qed.

(** The scoring loop on the index of a corpus: it never raises and adds
    the formula's terms to the running score. *)
Lemma bm25_loop_spec (docs : list document) (doc : document) :
  In doc docs ->
  forall query_terms acc,
    bm25_loop (index_of docs) (fold_left counter_incr (terms_of doc) [])
      (List.length (terms_of doc)) query_terms acc
    = Ok (acc + bm25_sum (3 / 2) (3 / 4) docs (terms_of doc) query_terms)%R.
Proof.
  intros Hin. induction query_terms as [|t rest IH]; intros acc;
    cbn [bm25_loop BM25.bm25_sum].
  - f_equal. ring.
  - rewrite term_freq_mem.
    destruct (contains (terms_of doc) t) eqn:C.
    + rewrite (index_avg docs doc Hin).
      cbn [BM25.index_of term_doc_freq documents k1 b].
      rewrite tdf_of_get, term_freq_get.
      pose proof (idf_arg_pos docs t) as Harg.
      assert (Hdf : (INR (df docs t) + 1 / 2 <> 0)%R).
      { pose proof (pos_INR (df docs t)). lra. }
      rewrite (pydiv_ok _ _ Hdf). cbn [bind].
      rewrite (math_log_ok _ Harg). cbn [bind].
      assert (Hne : terms_of doc <> []).
      { apply contains_true_iff in C. intros E. rewrite E in C. exact C. }
      pose proof (avg_len_pos docs doc Hin Hne) as Havg.
      assert (Havg0 : avg_len docs <> 0%R) by lra.
      rewrite (pydiv_ok _ _ Havg0). cbn [bind].
      pose proof (tf_term_den_pos (tf (terms_of doc) t)
                    (INR (List.length (terms_of doc)) / avg_len docs)
                    (rel_len_nonneg _ _) (contains_tf_pos _ _ C)) as Hden.
      rewrite pydiv_ok by lra. cbn [bind].
      rewrite IH. f_equal. unfold BM25.idf, BM25.tf_term. ring.
    + rewrite IH. f_equal. ring.
Qed.

Lemma score_on_index (docs : list document) (query_terms : list string)
  (i : nat) (doc : document) :
  nth_error docs i = Some doc ->
  calculate_bm25_score (index_of docs) query_terms i
  = Ok (bm25_sum (3 / 2) (3 / 4) docs (terms_of doc) query_terms).
Proof.
  intros Hnth. unfold calculate_bm25_score.
  cbn [BM25.index_of document_terms doc_lengths].
  rewrite !nth_error_map, Hnth. cbn [option_map].
  rewrite (bm25_loop_spec docs doc (nth_error_In _ _ Hnth)).
  f_equal. ring.
Qed.

Lemma bm25_sum_app (docs : list document) (terms q1 q2 : list string) :
  bm25_sum (3 / 2) (3 / 4) docs terms (q1 ++ q2)
  = (bm25_sum (3 / 2) (3 / 4) docs terms q1
     + bm25_sum (3 / 2) (3 / 4) docs terms q2)%R.
Proof.
  induction q1 as [|t rest IH]; cbn [app BM25.bm25_sum].
  - ring.
  - rewrite IH. ring.
Qed.

Lemma bm25_sum_absent (docs : list document) (terms q : list string) :
  (forall t, In t q -> ~ In t terms) ->
  bm25_sum (3 / 2) (3 / 4) docs terms q = 0%R.
Proof.
  induction q as [|t rest IH]; intros H; cbn [BM25.bm25_sum]; [reflexivity|].
  destruct (contains terms t) eqn:C.
  - apply contains_true_iff in C. exfalso. apply (H t); [now left|exact C].
  - rewrite IH by (intros u Hu; apply H; now right). ring.
Qed.
End ScoreFacts.

(** ** Keyword search *)

Lemma insert_desc_ranked (x : nat * R) (l : list (nat * R)) :
  StronglySorted ranks_before l ->
  Forall (fun y => (fst x < fst y)%nat) l ->
  StronglySorted ranks_before (insert_desc Rltb snd x l).
Proof.
  induction l as [|y ys IH]; intros Hs Hx; cbn [insert_desc].
  - repeat constructor.
  - inversion Hs as [|? ? Hys Hy]; subst.
    inversion Hx as [|? ? Hxy Hxys]; subst.
    destruct (Rltb (snd x) (snd y)) eqn:C.
    + apply Rltb_true_iff in C. constructor; [now apply IH|].
      rewrite Forall_forall in *. intros z Hz.
      apply (Permutation_in _ (insert_desc_perm _ _ Rltb snd x ys)) in Hz.
      destruct Hz as [<-|Hz]; [now left | now apply Hy].
    + apply Rltb_false_iff in C. constructor; [exact Hs|].
      rewrite Forall_forall in *. intros z [<-|Hz].
      * unfold ranks_before. destruct (Rle_lt_or_eq_dec _ _ C); [now left|].
        right. split; [now symmetry | exact Hxy].
      * assert (Hyz : (snd z <= snd y)%R).
        { destruct (Hy z Hz) as [H|[H _]]; lra. }
        unfold ranks_before.
        destruct (Rle_lt_or_eq_dec (snd z) (snd x)) as [H|H]; [lra|now left|].
        right. split; [now symmetry | now apply Hxys].
Qed.

Lemma sorted_desc_ranked (l : list (nat * R)) :
  StronglySorted (fun p q => (fst p < fst q)%nat) l ->
  StronglySorted ranks_before (sorted_desc Rltb snd l).
Proof.
  induction 1 as [|x xs Hxs IH Hx]; cbn [sorted_desc]; [constructor|].
  apply insert_desc_ranked; [exact IH|].
  rewrite Forall_forall in *. intros y Hy.
  apply sorted_desc_in in Hy. now apply Hx.
Qed.

Section SearchFacts.
Variable preprocess_text : string -> list string.
Variable source_preview : document -> string.
Variable page_meta : string -> meta.

Local Abbreviation terms_of := (terms_of preprocess_text).
Local Abbreviation bm25_sum := (bm25_sum preprocess_text).
Local Abbreviation index_of := (index_of preprocess_text).
Local Abbreviation reachable := (reachable preprocess_text).
Local Abbreviation doc_score := (doc_score preprocess_text).
Local Abbreviation positive_hits := (positive_hits preprocess_text).
Local Abbreviation search :=
  (BM25.search preprocess_text source_preview page_meta).
Local Abbreviation format_results :=
  (format_results source_preview page_meta).
Local Abbreviation shows := (shows source_preview).

Lemma score_in_range (docs : list document) (q : list string) (i : nat) :
  (i < List.length docs)%nat ->
  calculate_bm25_score (index_of docs) q i = Ok (doc_score docs q i).
Proof.
  intros Hi. unfold BM25.doc_score.
  destruct (nth_error docs i) as [doc|] eqn:E.
  - now apply score_on_index.
  - apply nth_error_None in E. lia.
Qed.

Lemma score_docs_spec (docs : list document) (q : list string)
  (idxs : list nat) : forall acc,
  Forall (fun i => (i < List.length docs)%nat) idxs ->
  score_docs (index_of docs) q idxs acc
  = Ok (acc ++ positive_hits docs q idxs).
Proof.
  induction idxs as [|i rest IH]; intros acc Hall; cbn [score_docs].
  - unfold BM25.positive_hits. simpl. now rewrite app_nil_r.
  - inversion Hall as [|? ? Hi Hrest]; subst.
    rewrite (score_in_range docs q i Hi). cbn [bind].
    rewrite (IH _ Hrest). unfold BM25.positive_hits. cbn [map filter snd].
    destruct (Rltb 0 (doc_score docs q i)).
    + now rewrite <- app_assoc.
    + reflexivity.
Qed.

Lemma seq_in_range (n : nat) :
  Forall (fun i => (i < n)%nat) (seq 0 n).
Proof. apply Forall_forall. intros i Hi. apply in_seq in Hi. lia. Qed.

Lemma ranked_spec (docs : list document) (q : list string) (top_k : Z) :
  ranked (index_of docs) q top_k
  = Ok (slice_to
          (sorted_desc Rltb snd
             (positive_hits docs q (seq 0 (List.length docs)))) top_k).
Proof.
  unfold ranked. cbn [BM25.index_of documents].
  rewrite (score_docs_spec docs q _ [] (seq_in_range _)). reflexivity.
Qed.

Lemma positive_hits_in (docs : list document) (q : list string)
  (idxs : list nat) (i : nat) (s : R) :
  In (i, s) (positive_hits docs q idxs) <->
  In i idxs /\ s = doc_score docs q i /\ (0 < s)%R.
Proof.
  unfold BM25.positive_hits. rewrite filter_In, in_map_iff. cbn [snd].
  rewrite Rltb_true_iff. split.
  - intros ((j & E & Hj) & Hpos). inversion E; subst. auto.
  - intros (Hi & -> & Hpos). split; [|exact Hpos]. now exists i.
Qed.

Lemma positive_hits_increasing (docs : list document) (q : list string)
  (idxs : list nat) :
  StronglySorted lt idxs ->
  StronglySorted (fun p r => (fst p < fst r)%nat) (positive_hits docs q idxs).
Proof.
  induction 1 as [|i rest Hrest IH Hi]; unfold BM25.positive_hits;
    cbn [map filter snd]; [constructor|].
  fold (positive_hits docs q rest).
  destruct (Rltb 0 (doc_score docs q i)); [|exact IH].
  constructor; [exact IH|].
  rewrite Forall_forall in *. intros [j s] Hj.
  apply positive_hits_in in Hj. cbn [fst]. apply Hi. tauto.
Qed.

Lemma seq_increasing (n : nat) : forall a, StronglySorted lt (seq a n).
Proof.
  induction n as [|n IH]; intros a; cbn [seq]; constructor; [apply IH|].
  apply Forall_forall. intros j Hj. apply in_seq in Hj. lia.
Qed.

Lemma format_results_spec (self : KeywordRetriever)
  (entries : list (nat * R)) :
  Forall (fun e => (fst e < List.length (documents self))%nat) entries ->
  exists out,
    format_results self entries = Ok out /\
    Forall2 (shows (documents self)) out entries.
Proof.
  induction entries as [|[i s] rest IH]; intros Hall;
    cbn [BM25.format_results].
  - exists []. split; [reflexivity | constructor].
  - inversion Hall as [|? ? Hi Hrest]; subst. cbn [fst] in Hi.
    destruct (IH Hrest) as (out & -> & Hout).
    destruct (nth_error (documents self) i) as [doc|] eqn:E.
    + cbn [bind]. eexists. split; [reflexivity|].
      constructor; [|exact Hout].
      exists doc. cbn. auto.
    + apply nth_error_None in E. lia.
Qed.
End SearchFacts.

Section SearchTheorems.
Variable preprocess_text : string -> list string.
Variable source_preview : document -> string.
Variable page_meta : string -> meta.

Local Abbreviation terms_of := (terms_of preprocess_text).
Local Abbreviation index_of := (index_of preprocess_text).
Local Abbreviation positive_hits := (positive_hits preprocess_text).
Local Abbreviation doc_score := (doc_score preprocess_text).
Local Abbreviation search :=
  (BM25.search preprocess_text source_preview page_meta).
Local Abbreviation shows := (shows source_preview).

Lemma positive_hits_no_terms (docs : list document) (idxs : list nat) :
  positive_hits docs [] idxs = [].
Proof.
  destruct (positive_hits docs [] idxs) as [|[i s] rest] eqn:E;
    [reflexivity|].
  assert (Hin : In (i, s) (positive_hits docs [] idxs))
    by (rewrite E; now left).
  apply positive_hits_in in Hin. destruct Hin as (_ & Hs & Hpos).
  unfold BM25.doc_score in Hs.
  destruct (nth_error docs i); cbn [BM25.bm25_sum] in Hs; lra.
Qed.

Lemma slice_to_nil (A : Type) (top_k : Z) : slice_to (@nil A) top_k = [].
Proof. unfold slice_to. destruct (0 <=? top_k)%Z; apply firstn_nil. Qed.

(** [search] on the index of a corpus: it returns, and shows the sliced
    ranking of the positions with a positive score. *)
Lemma search_spec (docs : list document) (query : string) (top_k : Z) :
  exists out,
    search (index_of docs) query top_k = Ok out /\
    Forall2 (shows docs) out
      (slice_to
         (sorted_desc Rltb snd
            (positive_hits docs (preprocess_text query)
               (seq 0 (List.length docs)))) top_k).
Proof.
  unfold BM25.search. cbn [BM25.index_of documents].
  destruct docs as [|d0 ds] eqn:D.
  - exists []. split; [reflexivity|]. cbn. rewrite slice_to_nil. constructor.
  - rewrite <- D. destruct (preprocess_text query) as [|t q] eqn:Q.
    + exists []. split; [reflexivity|].
      rewrite positive_hits_no_terms. cbn [sorted_desc].
      rewrite slice_to_nil. constructor.
    + rewrite ranked_spec. cbn [bind].
      destruct (format_results_spec source_preview page_meta (index_of docs)
                  (slice_to
                     (sorted_desc Rltb snd
                        (positive_hits docs (t :: q)
                           (seq 0 (List.length docs)))) top_k))
        as (out & Hout & Hshow).
      { apply Forall_forall. intros [i s] Hi. cbn [fst].
        apply slice_to_incl in Hi. apply sorted_desc_in in Hi.
        apply positive_hits_in in Hi. destruct Hi as (Hi & _).
        apply in_seq in Hi. cbn [BM25.index_of documents]. lia. }
      exists out. split; [exact Hout | exact Hshow].
Qed.
End SearchTheorems.

Lemma reachable_is_index (preprocess_text : string -> list string)
  (self : KeywordRetriever) :
  reachable preprocess_text self ->
  exists docs, self = index_of preprocess_text docs.
Proof. intros H. exists (documents self). now apply reachable_index. Qed.

(** C2.  On an indexed corpus the BM25 score of a document is the sum, over
    the query terms present in it, of
    [ln((N - df + 0.5) / (df + 0.5)) * tf * (k1 + 1)
       / (tf + k1 * (1 - b + b * len / avg_len))]
    with [k1 = 1.5] and [b = 0.75]; the computation never raises, and a
    query term that the document lacks changes nothing: it adds exactly
    zero. *)
Theorem bm25_score_formula :
  forall (preprocess_text : string -> list string) (self : KeywordRetriever),
    reachable preprocess_text self ->
    k1 self = (3 / 2)%R /\
    b self = (3 / 4)%R /\
    forall (query_terms : list string) (i : nat) (doc : document),
      nth_error (documents self) i = Some doc ->
      calculate_bm25_score self query_terms i
      = Ok (bm25_sum preprocess_text (k1 self) (b self) (documents self)
              (terms_of preprocess_text doc) query_terms) /\
      (forall t, ~ In t (terms_of preprocess_text doc) ->
         bm25_sum preprocess_text (k1 self) (b self) (documents self)
           (terms_of preprocess_text doc) [t] = 0%R) /\
      (forall before t after,
         query_terms = before ++ t :: after ->
         ~ In t (terms_of preprocess_text doc) ->
         calculate_bm25_score self query_terms i
         = calculate_bm25_score self (before ++ after) i).
Proof.
  intros pre self Hreach.
  destruct (reachable_is_index pre self Hreach) as (docs & ->).
  cbn [BM25.index_of k1 b documents]. repeat split.
  - now apply score_on_index.
  - intros t Ht. apply bm25_sum_absent. intros u [<-|[]]. exact Ht.
  - intros before t after -> Ht.
    rewrite !(score_on_index pre docs _ i doc H).
    f_equal. rewrite !bm25_sum_app.
    replace (t :: after) with ([t] ++ after) by reflexivity.
    rewrite bm25_sum_app.
    rewrite (bm25_sum_absent pre docs _ [t]); [ring|].
    intros u [<-|[]]. exact Ht.
Qed.

Lemma bm25_score_formula_example :
  reachable words (index_of words example_corpus) /\
  k1 (index_of words example_corpus) = (3 / 2)%R /\
  b (index_of words example_corpus) = (3 / 4)%R /\
  forall (query_terms : list string) (i : nat) (doc : document),
    nth_error (documents (index_of words example_corpus)) i = Some doc ->
    calculate_bm25_score (index_of words example_corpus) query_terms i
    = Ok (bm25_sum words (k1 (index_of words example_corpus))
            (b (index_of words example_corpus))
            (documents (index_of words example_corpus))
            (terms_of words doc) query_terms) /\
    (forall t, ~ In t (terms_of words doc) ->
       bm25_sum words (k1 (index_of words example_corpus))
         (b (index_of words example_corpus))
         (documents (index_of words example_corpus))
         (terms_of words doc) [t] = 0%R) /\
    (forall before t after,
       query_terms = before ++ t :: after ->
       ~ In t (terms_of words doc) ->
       calculate_bm25_score (index_of words example_corpus) query_terms i
       = calculate_bm25_score (index_of words example_corpus)
           (before ++ after) i).
Proof.
  split; [apply index_of_reachable|].
  apply (bm25_score_formula words (index_of words example_corpus)).
  apply index_of_reachable.
Defined.


Section NegativeScores.
Variable preprocess_text : string -> list string.

Local Abbreviation terms_of := (terms_of preprocess_text).
Local Abbreviation df := (df preprocess_text).
Local Abbreviation idf := (idf preprocess_text).
Local Abbreviation tf_term := (tf_term preprocess_text).
Local Abbreviation bm25_sum := (bm25_sum preprocess_text).

Lemma idf_negative (docs : list document) (t : string) :
  (List.length docs < 2 * df docs t)%nat -> (idf docs t < 0)%R.
Proof.
  intros H. unfold BM25.idf. rewrite <- ln_1.
  pose proof (idf_arg_pos preprocess_text docs t) as Hpos.
  apply ln_increasing; [exact Hpos|].
  apply lt_INR in H. rewrite mult_INR in H. simpl in H.
  pose proof (pos_INR (df docs t)) as Hdf.
  apply (Rmult_lt_reg_r (INR (df docs t) + 1 / 2)); [lra|].
  unfold Rdiv at 1. rewrite Rmult_assoc, Rinv_l by lra. lra.
Qed.

Lemma tf_term_positive (docs : list document) (terms : list string)
  (t : string) :
  contains terms t = true -> (0 < tf_term (3 / 2) (3 / 4) docs terms t)%R.
Proof.
  intros C. unfold BM25.tf_term.
  pose proof (contains_tf_pos terms t C) as Htf.
  pose proof (tf_term_den_pos (tf terms t)
                (INR (List.length terms) / avg_len preprocess_text docs)
                (rel_len_nonneg preprocess_text docs _) Htf) as Hden.
  apply le_INR in Htf. simpl in Htf.
  apply Rdiv_lt_0_compat; [nra | exact Hden].
Qed.

Lemma bm25_sum_nonpos (docs : list document) (terms q : list string) :
  (forall t, In t q -> In t terms ->
             (List.length docs < 2 * df docs t)%nat) ->
  (bm25_sum (3 / 2) (3 / 4) docs terms q <= 0)%R.
Proof.
  induction q as [|t rest IH]; intros H; cbn [BM25.bm25_sum]; [lra|].
  assert (Hrest : (bm25_sum (3 / 2) (3 / 4) docs terms rest <= 0)%R).
  { apply IH. intros u Hu. apply H. now right. }
  destruct (contains terms t) eqn:C; [|lra].
  pose proof (tf_term_positive docs terms t C) as Htf.
  assert (Hidf : (idf docs t < 0)%R).
  { apply idf_negative. apply H; [now left|]. now apply contains_true_iff. }
  nra.
Qed.

Lemma bm25_sum_negative (docs : list document) (terms q : list string) :
  (exists t, In t q /\ In t terms) ->
  (forall t, In t q -> In t terms ->
             (List.length docs < 2 * df docs t)%nat) ->
  (bm25_sum (3 / 2) (3 / 4) docs terms q < 0)%R.
Proof.
  induction q as [|t rest IH]; intros (u & Hu & Hterm) H;
    [destruct Hu|]. cbn [BM25.bm25_sum].
  destruct (contains terms t) eqn:C.
  - pose proof (tf_term_positive docs terms t C) as Htf.
    assert (Hidf : (idf docs t < 0)%R).
    { apply idf_negative. apply H; [now left|]. now apply contains_true_iff. }
    assert (Hrest : (bm25_sum (3 / 2) (3 / 4) docs terms rest <= 0)%R).
    { apply bm25_sum_nonpos. intros v Hv. apply H. now right. }
    nra.
  - destruct Hu as [->|Hu].
    + apply contains_true_iff in Hterm. congruence.
    + assert (Hrest : (bm25_sum (3 / 2) (3 / 4) docs terms rest < 0)%R).
      { apply IH; [now exists u|]. intros v Hv. apply H. now right. }
      lra.
Qed.
End NegativeScores.

(** C10.  On an indexed corpus, a document that contains query terms, all
    of them occurring in more than half of the documents ([N < 2 * df]),
    has a strictly negative BM25 score (the logarithm is not floored at
    zero) and is absent from the ranking that keyword search returns,
    whatever [top_k]. *)
Theorem common_terms_score_negative_and_excluded :
  forall (preprocess_text : string -> list string)
         (source_preview : document -> string) (page_meta : string -> meta)
         (self : KeywordRetriever) (query : string) (i : nat) (doc : document),
    reachable preprocess_text self ->
    nth_error (documents self) i = Some doc ->
    (exists t, In t (preprocess_text query) /\
               In t (terms_of preprocess_text doc)) ->
    (forall t, In t (preprocess_text query) ->
               In t (terms_of preprocess_text doc) ->
               (List.length (documents self)
                < 2 * df preprocess_text (documents self) t)%nat) ->
    (1 <= List.length (documents self))%nat /\
    (0 < avg_doc_length self)%R /\
    exists s,
      calculate_bm25_score self (preprocess_text query) i = Ok s /\
      (s < 0)%R /\
      forall top_k,
      exists entries out,
        ranked self (preprocess_text query) top_k = Ok entries /\
        BM25.search preprocess_text source_preview page_meta self query top_k
        = Ok out /\
        Forall2 (shows source_preview (documents self)) out entries /\
        forall s', ~ In (i, s') entries.
Proof.
  intros pre sp pm self query i doc Hreach Hnth Hex Hcommon.
  destruct (reachable_is_index pre self Hreach) as (docs & ->).
  cbn [BM25.index_of documents] in *.
  pose proof (nth_error_In _ _ Hnth) as Hdoc.
  assert (Hne : terms_of pre doc <> []).
  { destruct Hex as (t & _ & Ht). intros E. rewrite E in Ht. exact Ht. }
  split; [destruct docs; [destruct Hdoc | simpl; lia]|].
  split.
  { fold (index_of pre docs). rewrite (index_avg pre docs doc Hdoc).
    exact (avg_len_pos pre docs doc Hdoc Hne). }
  fold (index_of pre docs).
  exists (bm25_sum pre (3 / 2) (3 / 4) docs (terms_of pre doc) (pre query)).
  split; [now apply score_on_index|].
  assert (Hneg : (bm25_sum pre (3 / 2) (3 / 4) docs (terms_of pre doc)
                    (pre query) < 0)%R)
    by (now apply bm25_sum_negative).
  split; [exact Hneg|].
  intros top_k.
  destruct (search_spec pre sp pm docs query top_k) as (out & Hout & Hshow).
  eexists. exists out. split; [apply ranked_spec|].
  split; [exact Hout|]. split; [exact Hshow|].
  intros s' Hin. apply slice_to_incl in Hin. apply sorted_desc_in in Hin.
  apply positive_hits_in in Hin. destruct Hin as (_ & Hs & Hpos).
  unfold doc_score in Hs. rewrite Hnth in Hs. lra.
Qed.

Lemma common_terms_score_negative_example :
  reachable words (index_of words example_corpus) /\
  nth_error (documents (index_of words example_corpus)) 0
  = Some (plain_doc "value value labour") /\
  exists s,
    calculate_bm25_score (index_of words example_corpus) (words "value") 0
    = Ok s /\
    (s < 0)%R /\
    forall top_k,
    exists entries out,
      ranked (index_of words example_corpus) (words "value") top_k
      = Ok entries /\
      BM25.search words doc_content (fun _ => [])
        (index_of words example_corpus) "value" top_k = Ok out /\
      Forall2 (shows doc_content (documents (index_of words example_corpus)))
        out entries /\
      forall s', ~ In (0%nat, s') entries.
Proof.
  split; [apply index_of_reachable|]. split; [reflexivity|].
  apply (common_terms_score_negative_and_excluded words doc_content
           (fun _ => []) (index_of words example_corpus) "value" 0
           (plain_doc "value value labour")).
  - apply index_of_reachable.
  - reflexivity.
  - exists "value"%string. split; vm_compute; auto.
  - intros t Hq _. vm_compute in Hq. destruct Hq as [<-|[]].
    vm_compute. lia.
Defined.

(** C7.  Keyword search on an empty corpus, or with a query that tokenizes
    to nothing, returns the empty list.  Indexing never raises: building
    the index, constructing a retriever and adding documents always
    succeed, the average length of an empty corpus being set to 0 without
    dividing.  Scoring and searching on an indexed corpus never raise
    either; where the average length is 0 no document has a term, so the
    division by it is never reached and every score is 0. *)
Theorem keyword_search_edge_cases_without_zero_division :
  forall (preprocess_text : string -> list string)
         (source_preview : document -> string) (page_meta : string -> meta),
    (forall self query top_k,
        documents self = [] ->
        BM25.search preprocess_text source_preview page_meta self query top_k
        = Ok []) /\
    (forall self query top_k,
        preprocess_text query = [] ->
        BM25.search preprocess_text source_preview page_meta self query top_k
        = Ok []) /\
    (forall self, exists self',
        build_index preprocess_text self = Ok self' /\
        (documents self = [] -> avg_doc_length self' = 0%R)) /\
    (forall docs, exists self,
        KeywordRetriever_init preprocess_text docs = Ok self) /\
    (forall self docs, exists self',
        add_documents preprocess_text self docs = Ok self') /\
    (forall self,
        reachable preprocess_text self ->
        (forall query_terms i,
            (i < List.length (documents self))%nat ->
            exists s, calculate_bm25_score self query_terms i = Ok s) /\
        (avg_doc_length self = 0%R ->
         forall query_terms i,
            (i < List.length (documents self))%nat ->
            calculate_bm25_score self query_terms i = Ok 0%R) /\
        (forall query top_k, exists out,
            BM25.search preprocess_text source_preview page_meta self query
              top_k = Ok out)).
Proof.
  intros pre sp pm. repeat apply conj.
  - intros self query top_k E. unfold BM25.search. now rewrite E.
  - intros self query top_k E. unfold BM25.search. rewrite E.
    now destruct (documents self).
  - intros self. eexists. split; [apply build_index_eq|].
    intros E. cbn [avg_doc_length]. now rewrite E.
  - intros docs. unfold KeywordRetriever_init.
    destruct docs as [[|doc rest]|]; try (eexists; reflexivity).
    rewrite build_index_eq. eexists; reflexivity.
  - intros self docs. unfold add_documents. rewrite build_index_eq.
    eexists; reflexivity.
  - intros self Hreach.
    destruct (reachable_is_index pre self Hreach) as (docs & ->).
    cbn [BM25.index_of documents]. fold (index_of pre docs).
    repeat apply conj.
    + intros q i Hi. eexists. now apply score_in_range.
    + intros Havg q i Hi. rewrite (score_in_range pre docs q i Hi).
      f_equal. unfold doc_score.
      destruct (nth_error docs i) as [doc|] eqn:E; [|reflexivity].
      apply bm25_sum_absent. intros t _ Ht.
      pose proof (nth_error_In _ _ E) as Hdoc.
      assert (Hne : terms_of pre doc <> []).
      { intros E'. rewrite E' in Ht. exact Ht. }
      pose proof (avg_len_pos pre docs doc Hdoc Hne) as Hpos.
      rewrite (index_avg pre docs doc Hdoc) in Havg. lra.
    + intros query top_k.
      destruct (search_spec pre sp pm docs query top_k) as (out & Hout & _).
      now exists out.
Qed.

Lemma keyword_search_edge_cases_example :
  BM25.search words doc_content (fun _ => []) (index_of words [])
    "value" 5 = Ok [] /\
  BM25.search words doc_content (fun _ => []) (index_of words example_corpus)
    "  " 5 = Ok [] /\
  exists out,
    BM25.search words doc_content (fun _ => [])
      (index_of words [plain_doc " "]) "value" 5 = Ok out.
Proof.
  pose proof (keyword_search_edge_cases_without_zero_division words doc_content
                (fun _ => [])) as (Hempty & Hquery & _ & _ & _ & Hreach).
  split; [apply Hempty; reflexivity|].
  split; [apply Hquery; reflexivity|].
  destruct (Hreach (index_of words [plain_doc " "])
              (index_of_reachable words _)) as (_ & _ & Hsearch).
  apply Hsearch.
Defined.

(** ** The vector adapter *)

Import Vec.

Section AdapterFacts.
Variable hash : string -> Z.




(** Facts that hold for every hash. *)
Lemma collect_fold_any (raw_results : list raw_item) :
  forall (results : list (result_item R)) (seen : list Z),
    let out := fst (fold_left (collect_step hash) raw_results (results, seen)) in
    (List.length out <= List.length results + List.length raw_results)%nat /\
    (Forall (fun r => str_truthy (content r) = true) results ->
     Forall (fun r => str_truthy (content r) = true) out).
Proof.
  induction raw_results as [|item rest IH]; intros results seen;
    cbn [fold_left fst List.length].
  - split; [lia | auto].
  - unfold collect_step at 2 4.
    destruct (normalize item) as [[[[c source] sc] md]|].
    + destruct (str_truthy c && negb (existsb (Z.eqb (hash c)) seen)) eqn:T.
      * destruct (IH (results ++ [mk_item source c md sc None None None])
                     (hash c :: seen)) as (Hlen & Hne).
        rewrite length_app in Hlen. cbn [List.length] in Hlen.
        split; [lia|]. intros Hall. apply Hne. apply Forall_app.
        split; [exact Hall|]. constructor; [|constructor]. cbn.
        now apply andb_true_iff in T.
      * destruct (IH results seen) as (Hlen & Hne). split; [lia | exact Hne].
    + destruct (IH results seen) as (Hlen & Hne). split; [lia | exact Hne].
Qed.
End AdapterFacts.





(** ** The orchestrator *)

Import Hybrid.

(** C8.  A call of the fusion with a number of lists other than the number
    of weights fails with [ValueError], the code's configuration error,
    whatever the lists hold: the check comes before any scoring, so no
    error of the scoring itself can be raised instead. *)
Theorem rerank_with_weights_length_mismatch :
  forall (Sc : Type) (self : RRFReranker)
         (result_lists : list (list (result_item Sc))) (weights : list Q)
         (top_k : Z),
    List.length result_lists <> List.length weights ->
    rerank_with_weights self result_lists weights top_k = Raise ValueError.
Proof.
  intros Sc self lists weights top_k Hne. unfold rerank_with_weights.
  apply Nat.eqb_neq in Hne. now rewrite Hne.
Qed.

(** With [k = -1] the first rank divides by zero, but a missing weight is
    reported first. *)
Lemma rerank_with_weights_length_mismatch_example :
  List.length example_lists <> List.length [1%Q] /\
  rerank_with_weights (RRFReranker_init (Some (-1)%Z)) example_lists
    [1%Q] 10 = Raise ValueError /\
  rerank_with_weights (RRFReranker_init (Some (-1)%Z)) example_lists
    [1%Q; 1%Q] 10 = Raise ZeroDivisionError.
Proof.
  split; [simpl; lia|]. split.
  - apply (rerank_with_weights_length_mismatch unit
             (RRFReranker_init (Some (-1)%Z)) example_lists [1%Q] 10%Z).
    simpl. lia.
  - reflexivity.
Defined.

Section ManagerFacts.
Variable preprocess_text : string -> list string.
Variable Pinecone : option (string -> Py.result PineconeClient).

Lemma add_documents_total (self : KeywordRetriever) (docs : list document) :
  exists self', add_documents preprocess_text self docs = Ok self'.
Proof.
  unfold add_documents. rewrite build_index_eq. eexists; reflexivity.
Qed.

Lemma initialize_keyword_retriever_total (kr : KeywordRetriever)
  (load : Py.result (list document)) :
  exists kr', initialize_keyword_retriever preprocess_text kr load = Ok kr'.
Proof.
  unfold initialize_keyword_retriever.
  destruct load as [[|doc rest]|e]; cbn [bind try_except].
  - eexists; reflexivity.
  - destruct (add_documents_total kr (doc :: rest)) as [kr' ->].
    eexists; reflexivity.
  - eexists; reflexivity.
Qed.

Lemma make_external_reranker_total (cfg : RAGConfig)
  (pinecone_api_key : option string) (env_key : string) :
  exists ext,
    make_external_reranker Pinecone cfg pinecone_api_key env_key = Ok ext /\
    forall e,
      PineconeCohereReranker_init Pinecone
        (strip (str_or (or_default pinecone_api_key EmptyString) env_key))
        (reranker_model cfg) = Raise e ->
      ext = None.
Proof.
  unfold make_external_reranker.
  destruct (enable_reranking cfg); [|exists None; auto].
  destruct (str_truthy _); [|exists None; auto].
  destruct (PineconeCohereReranker_init Pinecone _ _) as [r|e];
    cbn [bind try_except].
  - exists (Some r). split; [reflexivity | discriminate].
  - exists None. auto.
Qed.

Lemma RetrievalManager_init_total (cfg : RAGConfig)
  (load : Py.result (list document)) (vr : VecRetriever)
  (pinecone_api_key : option string) (env_key : string) :
  exists kr ext,
    RetrievalManager_init preprocess_text Pinecone cfg load vr
      pinecone_api_key env_key
    = Ok {| config := cfg;
            hybrid_retriever :=
              EnhancedHybridRetriever_init vr kr (Some (rrf_k cfg))
                (Some (cfg_vector_weight cfg))
                (Some (cfg_keyword_weight cfg)) ext |} /\
    make_external_reranker Pinecone cfg pinecone_api_key env_key = Ok ext.
Proof.
  unfold RetrievalManager_init. cbn [KeywordRetriever_init bind].
  destruct (initialize_keyword_retriever_total
              {| documents := []; document_terms := []; term_doc_freq := [];
                 avg_doc_length := 0; doc_lengths := [];
                 k1 := 3 / 2; b := 3 / 4 |} load) as [kr ->].
  destruct (make_external_reranker_total cfg pinecone_api_key env_key)
    as (ext & Hext & _).
  exists kr, ext. split; [|exact Hext]. rewrite Hext. reflexivity.
Qed.
End ManagerFacts.

(** C3.  Constructing the retrieval manager never raises.  Whenever the
    construction of the external reranker fails, whatever the error (no
    [Pinecone] class, a blank key, an error of the client's constructor),
    the manager holds no external reranker, and its search is the fusion
    alone: both retrievers followed by weighted RRF, returned as is. *)
Theorem reranker_construction_failure_is_isolated :
  forall (hash : string -> Z) (preprocess_text : string -> list string)
         (source_preview : document -> string) (page_meta : string -> meta)
         (Pinecone : option (string -> Py.result PineconeClient))
         (cfg : RAGConfig) (load : Py.result (list document))
         (vr : VecRetriever) (pinecone_api_key : option string)
         (env_key : string),
  exists mgr,
    RetrievalManager_init preprocess_text Pinecone cfg load vr
      pinecone_api_key env_key = Ok mgr /\
    forall e,
      PineconeCohereReranker_init Pinecone
        (strip (str_or (or_default pinecone_api_key EmptyString) env_key))
        (reranker_model cfg) = Raise e ->
      external_reranker (hybrid_retriever mgr) = None /\
      forall query top_k,
        manager_search hash preprocess_text source_preview page_meta mgr
          query top_k
        = fuse hash preprocess_text source_preview page_meta
            (hybrid_retriever mgr) query top_k /\
        fuse hash preprocess_text source_preview page_meta
          (hybrid_retriever mgr) query top_k
        = (vector_results <- Vec.search hash vr query top_k ;;
           keyword_results <-
             BM25.search preprocess_text source_preview page_meta
               (keyword_retriever (hybrid_retriever mgr)) query top_k ;;
           rerank_with_weights (RRFReranker_init (Some (rrf_k cfg)))
             [vector_results; keyword_results]
             [cfg_vector_weight cfg; cfg_keyword_weight cfg] top_k).
Proof.
  intros hash pre sp pm Pinecone cfg load vr key env_key.
  destruct (RetrievalManager_init_total pre Pinecone cfg load vr key env_key)
    as (kr & ext & Hinit & Hext).
  eexists. split; [exact Hinit|].
  intros e Hfail.
  destruct (make_external_reranker_total Pinecone cfg key env_key)
    as (ext' & Hext' & Hnone).
  assert (ext = None).
  { rewrite Hext in Hext'. inversion Hext'. subst. exact (Hnone e Hfail). }
  subst ext. cbn [hybrid_retriever EnhancedHybridRetriever_init
                  external_reranker].
  split; [reflexivity|].
  intros query top_k. split.
  - unfold manager_search, Hybrid.search.
    cbn [hybrid_retriever EnhancedHybridRetriever_init external_reranker].
    destruct (fuse hash pre sp pm _ query top_k); reflexivity.
  - reflexivity.
Qed.

Lemma reranker_construction_failure_example :
  PineconeCohereReranker_init unreachable_Pinecone
    (strip (str_or (or_default (Some "key"%string) EmptyString) EmptyString))
    (reranker_model RAGConfig_default)
  = Raise (UpstreamError "unreachable") /\
  exists mgr,
    RetrievalManager_init words unreachable_Pinecone RAGConfig_default
      (Ok example_corpus) example_retriever (Some "key"%string) EmptyString
    = Ok mgr /\
    external_reranker (hybrid_retriever mgr) = None /\
    forall query top_k,
      manager_search length_hash words doc_content (fun _ => []) mgr query
        top_k
      = fuse length_hash words doc_content (fun _ => [])
          (hybrid_retriever mgr) query top_k.
Proof.
  split; [reflexivity|].
  destruct (reranker_construction_failure_is_isolated length_hash words
              doc_content (fun _ => []) unreachable_Pinecone RAGConfig_default
              (Ok example_corpus) example_retriever (Some "key"%string)
              EmptyString) as (mgr & Hinit & Hfail).
  exists mgr. split; [exact Hinit|].
  destruct (Hfail (UpstreamError "unreachable") eq_refl) as (Hnone & Hsearch).
  split; [exact Hnone|]. intros query top_k. apply Hsearch.
Defined.

(** ** Result sizes *)

Lemma rrf_format_length {Sc : Type} (doc_info : list (string * result_item Sc))
  (entries : list (string * Q)) :
  forall out,
    rrf_format doc_info entries = Ok out ->
    List.length out = List.length entries.
Proof.
  induction entries as [|[c s] rest IH]; intros out; cbn [rrf_format].
  - intros [= <-]. reflexivity.
  - destruct (dict_get doc_info c) as [r|]; [|discriminate].
    destruct (rrf_format doc_info rest) as [out'|e]; cbn [bind];
      [|discriminate].
    intros [= <-]. cbn [List.length]. now rewrite (IH out' eq_refl).
Qed.

Lemma rerank_with_weights_length {Sc : Type} (self : RRFReranker)
  (result_lists : list (list (result_item Sc))) (weights : list Q)
  (top_k : Z) (out : list (result_item Sc)) :
  (0 <= top_k)%Z ->
  rerank_with_weights self result_lists weights top_k = Ok out ->
  (Z.of_nat (List.length out) <= top_k)%Z.
Proof.
  intros Hk. unfold rerank_with_weights.
  destruct (negb _); [discriminate|].
  destruct (rrf_outer self _ _) as [[ds di]|e]; cbn [bind]; [|discriminate].
  intros Hfmt. rewrite (rrf_format_length _ _ _ Hfmt).
  now apply slice_to_length.
Qed.

Lemma format_results_length (source_preview : document -> string)
  (page_meta : string -> meta) (self : KeywordRetriever)
  (entries : list (nat * R)) :
  forall out,
    format_results source_preview page_meta self entries = Ok out ->
    List.length out = List.length entries.
Proof.
  induction entries as [|[i s] rest IH]; intros out; cbn [format_results].
  - intros [= <-]. reflexivity.
  - destruct (nth_error (documents self) i) as [doc|]; [|discriminate].
    destruct (format_results source_preview page_meta self rest)
      as [out'|e]; cbn [bind]; [|discriminate].
    intros [= <-]. cbn [List.length]. now rewrite (IH out' eq_refl).
Qed.

Lemma keyword_search_length (preprocess_text : string -> list string)
  (source_preview : document -> string) (page_meta : string -> meta)
  (self : KeywordRetriever) (query : string) (top_k : Z)
  (out : list (result_item R)) :
  (0 <= top_k)%Z ->
  BM25.search preprocess_text source_preview page_meta self query top_k
  = Ok out ->
  (Z.of_nat (List.length out) <= top_k)%Z.
Proof.
  intros Hk. unfold BM25.search.
  destruct (documents self); [intros [= <-]; simpl; lia|].
  destruct (preprocess_text query) as [|t q]; [intros [= <-]; simpl; lia|].
  unfold ranked.
  destruct (score_docs self _ _ _) as [doc_scores|e]; cbn [bind];
    [|discriminate].
  intros Hfmt. rewrite (format_results_length _ _ _ _ _ Hfmt).
  now apply slice_to_length.
Qed.

Lemma reorder_length (results : list (result_item R)) (data : list resp_item) :
  forall rank,
    (List.length (reorder results data rank) <= List.length data)%nat.
Proof.
  induction data as [|item rest IH]; intros rank; cbn [reorder List.length];
    [lia|].
  destruct (index item) as [idx|]; [|specialize (IH (rank + 1)%Z); lia].
  destruct ((0 <=? idx)%Z && (idx <? Z.of_nat (List.length results))%Z);
    [|specialize (IH (rank + 1)%Z); lia].
  destruct (nth_error results (Z.to_nat idx));
    cbn [List.length]; specialize (IH (rank + 1)%Z); lia.
Qed.

Lemma build_documents_length (results : list (result_item R)) :
  forall i, List.length (build_documents results i) = List.length results.
Proof.
  induction results as [|x rest IH]; intros i; cbn [build_documents List.length];
    [reflexivity|]. now rewrite IH.
Qed.

Lemma external_rerank_length (self : PineconeCohereReranker) (query : string)
  (results : list (result_item R)) (top_n : Z) (out : list (result_item R)) :
  honours_top_n (_client self) ->
  (1 <= top_n)%Z ->
  rerank self query results (Some top_n) = Ok out ->
  (Z.of_nat (List.length out) <= top_n)%Z.
Proof.
  intros Hhon Hn. unfold rerank.
  destruct results as [|x rest] eqn:D; [intros [= <-]; simpl; lia|].
  rewrite <- D. destruct (Z.eqb_spec top_n 0) as [E|_]; [lia|].
  destruct (inference_rerank _ _ _ _ _) as [data|e] eqn:Hresp; cbn [bind];
    [|discriminate].
  intros [= <-].
  pose proof (reorder_length results data 1) as Hlen.
  apply Hhon in Hresp.
  - lia.
  - rewrite build_documents_length. subst results. cbn [List.length]. lia.
Qed.

Lemma echo_client_honours_top_n : honours_top_n echo_client.
Proof.
  intros model query documents n data Hn. cbn [echo_client inference_rerank].
  intros [= <-]. rewrite length_map, length_seq. lia.
Qed.

(** C6, as the code has it.  Keyword search and the fusion cut their output
    to [top_k], for every [top_k >= 0].  The vector adapter and the
    external reranker do no cutting of their own: the adapter returns at
    most as many records as the dense search supplied, and the external
    reranker, asked for [top_n >= 1], at most [top_n] when the remote
    service returns no more entries than requested.  With such a service
    the orchestrator's result has at most [top_k] records. *)
Theorem stage_result_sizes :
  forall (hash : string -> Z) (preprocess_text : string -> list string)
         (source_preview : document -> string) (page_meta : string -> meta),
    (forall self query top_k out,
        (0 <= top_k)%Z ->
        BM25.search preprocess_text source_preview page_meta self query top_k
        = Ok out ->
        (Z.of_nat (List.length out) <= top_k)%Z) /\
    (forall (Sc : Type) self (result_lists : list (list (result_item Sc)))
            weights top_k out,
        (0 <= top_k)%Z ->
        rerank_with_weights self result_lists weights top_k = Ok out ->
        (Z.of_nat (List.length out) <= top_k)%Z) /\
    (forall self question top_k raw_results,
        Vec.vector_retriever self question top_k (1 # 2) = Ok raw_results ->
        exists out,
          Vec.search hash self question top_k = Ok out /\
          (List.length out <= List.length raw_results)%nat) /\
    (forall ext query results top_n out,
        honours_top_n (_client ext) ->
        (1 <= top_n)%Z ->
        rerank ext query results (Some top_n) = Ok out ->
        (Z.of_nat (List.length out) <= top_n)%Z) /\
    (forall self query top_k out,
        (0 <= top_k)%Z ->
        (forall ext, external_reranker self = Some ext ->
                     honours_top_n (_client ext)) ->
        Hybrid.search hash preprocess_text source_preview page_meta self
          query top_k = Ok out ->
        (Z.of_nat (List.length out) <= top_k)%Z).
Proof.
  intros hash pre sp pm. repeat apply conj.
  - intros self query top_k out. apply keyword_search_length.
  - intros Sc self lists weights top_k out. apply rerank_with_weights_length.
  - intros self question top_k raw Hraw. exists (collect hash raw).
    split; [unfold Vec.search; now rewrite Hraw|].
    destruct (collect_fold_any hash raw [] []) as (Hlen & _).
    cbn zeta in Hlen. cbn [List.length] in Hlen. exact Hlen.
  - intros ext query results top_n out. apply external_rerank_length.
  - intros self query top_k out Hk Hhon. unfold Hybrid.search.
    destruct (fuse hash pre sp pm self query top_k) as [fused|e] eqn:F;
      cbn [bind]; [|discriminate].
    assert (Hfused : (Z.of_nat (List.length fused) <= top_k)%Z).
    { unfold fuse in F.
      destruct (Vec.search hash _ query top_k) as [v|]; cbn [bind] in F;
        [|discriminate].
      destruct (BM25.search pre sp pm _ query top_k) as [w|]; cbn [bind] in F;
        [|discriminate].
      exact (rerank_with_weights_length _ _ _ _ _ Hk F). }
    destruct (external_reranker self) as [ext|] eqn:X.
    + destruct fused as [|x rest] eqn:D.
      * intros [= <-]. exact Hfused.
      * rewrite <- D in *. intros Hr.
        apply (external_rerank_length ext query fused top_k out);
          [now apply Hhon | | exact Hr].
        subst fused. cbn [List.length] in Hfused. lia.
    + intros [= <-]. exact Hfused.
Qed.

Lemma stage_result_sizes_example :
  (0 <= 2)%Z /\
  exists out,
    rerank_with_weights (RRFReranker_init (Some 0%Z)) example_lists
      [1%Q; 1%Q] 2 = Ok out /\
    (Z.of_nat (List.length out) <= 2)%Z.
Proof.
  split; [lia|]. eexists. split; [vm_compute; reflexivity|].
  refine (proj1 (proj2 (stage_result_sizes length_hash words doc_content
                          (fun _ => [])))
            unit (RRFReranker_init (Some 0%Z)) example_lists [1%Q; 1%Q] 2%Z
            _ _ _).
  - lia.
  - vm_compute. reflexivity.
Defined.

(** C6 fails as stated.  Given two distinct records by the dense search,
    the vector adapter returns both at [top_k = 1]; and the external
    reranker called with [top_n = 0] on one fused result asks the service
    for one entry and returns one record. *)
Lemma stage_output_can_exceed_top_k :
  (Vec.search length_hash example_retriever "q" 1
   = Ok [mk_item "a.pdf" "alpha" [] None None None None;
         mk_item "unknown" "be" [("text"%string, PyStr "be")]
           None None None None] /\
   (1 < Z.of_nat 2)%Z) /\
  (honours_top_n (_client echo_reranker) /\
   rerank echo_reranker "q" [one_hit] (Some 0%Z)
   = Ok [mk_item "a.pdf" "alpha" [] None (Some (1 # 21)%Q) None (Some 1%Z)] /\
   (0 < Z.of_nat 1)%Z).
Proof.
  split.
  - split; [reflexivity | lia].
  - split; [exact echo_client_honours_top_n|].
    split; [reflexivity | lia].
Qed.

(** C9, as the code has it.  The configuration's [rrf_k] defaults to 20
    and the retrieval manager hands the configured value to the fusion, so
    a system built from the default configuration fuses with [k = 20]; the
    constructors of the reranker and of the hybrid retriever, called
    without a value, take 60. *)
Theorem rrf_k_defaults :
  rrf_k RAGConfig_default = 20%Z /\
  (forall (preprocess_text : string -> list string)
          (Pinecone : option (string -> Py.result PineconeClient))
          (cfg : RAGConfig) (load : Py.result (list document))
          (vr : VecRetriever) (pinecone_api_key : option string)
          (env_key : string),
      exists mgr,
        RetrievalManager_init preprocess_text Pinecone cfg load vr
          pinecone_api_key env_key = Ok mgr /\
        k (reranker (hybrid_retriever mgr)) = rrf_k cfg) /\
  (forall (preprocess_text : string -> list string)
          (Pinecone : option (string -> Py.result PineconeClient))
          (load : Py.result (list document))
          (vr : VecRetriever) (pinecone_api_key : option string)
          (env_key : string),
      exists mgr,
        RetrievalManager_init preprocess_text Pinecone RAGConfig_default load
          vr pinecone_api_key env_key = Ok mgr /\
        k (reranker (hybrid_retriever mgr)) = 20%Z) /\
  k (RRFReranker_init None) = 60%Z /\
  (forall vr kr vw kw ext,
      k (reranker (EnhancedHybridRetriever_init vr kr None vw kw ext)) = 60%Z).
Proof.
  repeat apply conj.
  - reflexivity.
  - intros pre Pinecone cfg load vr key env_key.
    destruct (RetrievalManager_init_total pre Pinecone cfg load vr key env_key)
      as (kr & ext & Hinit & _).
    eexists. split; [exact Hinit | reflexivity].
  - intros pre Pinecone load vr key env_key.
    destruct (RetrievalManager_init_total pre Pinecone RAGConfig_default load
                vr key env_key) as (kr & ext & Hinit & _).
    eexists. split; [exact Hinit | reflexivity].
  - reflexivity.
  - reflexivity.
Qed.

(** C9 fails as stated: a reranker built without [k] fuses with [k = 60],
    so the only entry of one list of weight 1 scores 1/61, not 1/21. *)
Lemma rrf_default_k_is_60 :
  k (RRFReranker_init None) = 60%Z /\
  scored_result
    (rerank_with_weights (RRFReranker_init None) [[d "d1"]] [1%Q] 10)
  = Ok [("d1"%string, Some (1 # 61)%Q)].
Proof. split; reflexivity. Qed.

(** * Further properties *)

Import RRFMore.

Lemma existsb_eqb_in (c : string) (l : list string) :
  existsb (String.eqb c) l = true <-> In c l.
Proof.
  rewrite existsb_exists. split.
  - intros (x & Hx & E). apply String.eqb_eq in E. now subst.
  - intros H. exists c. split; [exact H | apply String.eqb_refl].
Qed.

Lemma StronglySorted_impl_in {A : Type} (R R' : A -> A -> Prop) (l : list A) :
  (forall a b, In a l -> In b l -> R a b -> R' a b) ->
  StronglySorted R l -> StronglySorted R' l.
Proof.
  intros Himp Hs. induction Hs as [|x xs Hxs IH Hx]; [constructor|].
  constructor.
  - apply IH. intros a b Ha Hb. apply Himp; now right.
  - rewrite Forall_forall in *. intros y Hy.
    apply Himp; [now left | now right | now apply Hx].
Qed.

Lemma StronglySorted_map {A B : Type} (f : A -> B) (R : B -> B -> Prop)
  (l : list A) :
  StronglySorted R (map f l) <-> StronglySorted (fun a b => R (f a) (f b)) l.
Proof.
  induction l as [|x xs IH]; cbn [map].
  - split; constructor.
  - split; intros H; inversion H as [|? ? Hs Hf]; subst; constructor.
    + now apply IH.
    + rewrite Forall_forall in *. intros y Hy. apply Hf. now apply in_map.
    + now apply IH.
    + rewrite Forall_forall in *. intros y Hy.
      apply in_map_iff in Hy. destruct Hy as (a & <- & Ha). now apply Hf.
Qed.

Lemma StronglySorted_firstn {A : Type} (R : A -> A -> Prop) (n : nat)
  (l : list A) :
  StronglySorted R l -> StronglySorted R (firstn n l).
Proof.
  revert l. induction n as [|n IH]; intros l Hs; [constructor|].
  destruct l as [|x xs]; [constructor|]. cbn [firstn].
  inversion Hs as [|? ? Hxs Hx]; subst. constructor; [now apply IH|].
  rewrite Forall_forall in *. intros y Hy. apply Hx.
  now apply firstn_incl in Hy.
Qed.

Section StableSortFacts.
Variables (A K : Type) (ltb : K -> K -> bool) (key : A -> K)
  (before : A -> A -> Prop).
Hypothesis ltb_asym : forall a b, ltb a b = true -> ltb b a = false.
Hypothesis ltb_negtrans :
  forall a b c, ltb a b = false -> ltb b c = false -> ltb a c = false.

Lemma insert_desc_stable (x : A) (l : list A) :
  StronglySorted (stable_before ltb key before) l ->
  Forall (before x) l ->
  StronglySorted (stable_before ltb key before) (insert_desc ltb key x l).
Proof using ltb_asym ltb_negtrans.
  induction l as [|y ys IH]; intros Hs Hx; cbn [insert_desc].
  - repeat constructor.
  - inversion Hs as [|? ? Hys Hy]; subst.
    inversion Hx as [|? ? Hxy Hxys]; subst.
    destruct (ltb (key x) (key y)) eqn:C.
    + constructor; [now apply IH|].
      rewrite Forall_forall in *. intros z Hz.
      apply (Permutation_in _ (insert_desc_perm _ _ ltb key x ys)) in Hz.
      destruct Hz as [<-|Hz]; [now left | now apply Hy].
    + constructor; [exact Hs|].
      rewrite Forall_forall in *. intros z [<-|Hz].
      * destruct (ltb (key y) (key x)) eqn:D; [now left|].
        right. auto.
      * assert (Hyz : ltb (key y) (key z) = false).
        { destruct (Hy z Hz) as [H|(H & _)]; [now apply ltb_asym | exact H]. }
        pose proof (ltb_negtrans _ _ _ C Hyz) as Hxz.
        destruct (ltb (key z) (key x)) eqn:D; [now left|].
        right. split; [exact Hxz|]. split; [exact D|]. now apply Hxys.
Qed.

Lemma sorted_desc_stable (l : list A) :
  StronglySorted before l ->
  StronglySorted (stable_before ltb key before) (sorted_desc ltb key l).
Proof using ltb_asym ltb_negtrans.
  induction 1 as [|x xs Hxs IH Hx]; cbn [sorted_desc]; [constructor|].
  apply insert_desc_stable; [exact IH|].
  rewrite Forall_forall in *. intros y Hy.
  apply sorted_desc_in in Hy. now apply Hx.
Qed.

(** A list already in non-increasing key order is left as it is. *)
Lemma sorted_desc_fixed (l : list A) :
  StronglySorted (fun x y => ltb (key x) (key y) = false) l ->
  sorted_desc ltb key l = l.
Proof using Type.
  induction 1 as [|x xs Hxs IH Hx]; cbn [sorted_desc]; [reflexivity|].
  rewrite IH. destruct xs as [|y ys]; [reflexivity|]. cbn [insert_desc].
  inversion Hx as [|? ? Hxy _]; subst. now rewrite Hxy.
Qed.
End StableSortFacts.

Lemma Qltb_true_iff (x y : Q) : Qltb x y = true <-> (x < y)%Q.
Proof.
  unfold Qltb. rewrite negb_true_iff. split.
  - intros H. apply Qnot_le_lt. intros Hle.
    apply Qle_bool_iff in Hle. congruence.
  - intros H. destruct (Qle_bool y x) eqn:E; [|reflexivity].
    apply Qle_bool_iff in E. exfalso. exact (Qlt_not_le _ _ H E).
Qed.

Lemma Qltb_false_iff (x y : Q) : Qltb x y = false <-> (y <= x)%Q.
Proof.
  unfold Qltb. rewrite negb_false_iff. apply Qle_bool_iff.
Qed.

Lemma Qltb_asym (a b : Q) : Qltb a b = true -> Qltb b a = false.
Proof.
  rewrite Qltb_true_iff, Qltb_false_iff. apply Qlt_le_weak.
Qed.

Lemma Qltb_negtrans (a b c : Q) :
  Qltb a b = false -> Qltb b c = false -> Qltb a c = false.
Proof.
  rewrite !Qltb_false_iff. intros H1 H2. now apply Qle_trans with b.
Qed.

Lemma key_index_sorted (keys : list string) :
  NoDup keys ->
  StronglySorted (fun a b => (key_index keys a < key_index keys b)%nat) keys.
Proof.
  induction 1 as [|k0 rest Hnotin Hnd IH]; [constructor|].
  constructor.
  - apply (StronglySorted_impl_in
             (fun a b => (key_index rest a < key_index rest b)%nat)); [|exact IH].
    intros a b Ha Hb Hlt. cbn [key_index].
    destruct (String.eqb_spec a k0) as [->|_]; [contradiction|].
    destruct (String.eqb_spec b k0) as [->|_]; [contradiction|]. lia.
  - apply Forall_forall. intros b Hb. cbn [key_index].
    rewrite String.eqb_refl.
    destruct (String.eqb_spec b k0) as [->|_]; [contradiction|]. lia.
Qed.

Section RankingFacts.
Context {Sc : Type}.
Implicit Types (l : list (result_item Sc)) (seen : list string).

Lemma first_per_content_ext l : forall seen seen',
  (forall c, In c seen <-> In c seen') ->
  first_per_content l seen = first_per_content l seen'.
Proof.
  induction l as [|r rest IH]; intros seen seen' Heq; cbn [first_per_content];
    [reflexivity|].
  assert (E : existsb (String.eqb (content r)) seen
              = existsb (String.eqb (content r)) seen').
  { apply eq_true_iff_eq. rewrite !existsb_eqb_in. apply Heq. }
  rewrite E. destruct (existsb _ seen').
  - now apply IH.
  - f_equal. apply IH. intros c. cbn [In]. rewrite Heq. reflexivity.
Qed.

Lemma first_per_content_app l1 l2 : forall seen,
  first_per_content (l1 ++ l2) seen
  = first_per_content l1 seen
    ++ first_per_content l2 (seen ++ map content (first_per_content l1 seen)).
Proof.
  induction l1 as [|r rest IH]; intros seen; cbn [app first_per_content].
  - cbn. now rewrite app_nil_r.
  - destruct (existsb (String.eqb (content r)) seen).
    + apply IH.
    + cbn [app map]. f_equal. rewrite IH. f_equal.
      apply first_per_content_ext. intros c.
      cbn [In app map]. rewrite ?in_app_iff. cbn [In]. tauto.
Qed.

Lemma first_per_content_spec l : forall seen,
  NoDup (map content (first_per_content l seen)) /\
  (forall r, In r (first_per_content l seen) ->
     ~ In (content r) seen /\
     exists before after,
       l = before ++ r :: after /\ ~ In (content r) (map content before)) /\
  (forall r, In r l -> ~ In (content r) seen ->
     In (content r) (map content (first_per_content l seen))).
Proof.
  induction l as [|x rest IH]; intros seen; cbn [first_per_content].
  - cbn. split; [constructor|]. split; intros r [].
  - destruct (existsb (String.eqb (content x)) seen) eqn:S.
    + destruct (IH seen) as (Hnd & Hfirst & Hall).
      apply existsb_eqb_in in S.
      split; [exact Hnd|]. split.
      * intros r Hr. destruct (Hfirst r Hr) as (Hns & before & after & -> & Hb).
        split; [exact Hns|]. exists (x :: before), after.
        split; [reflexivity|]. cbn [map In]. intros [E|Hin]; [|exact (Hb Hin)].
        apply Hns. now rewrite <- E.
      * intros r [<-|Hr] Hns; [contradiction|]. now apply Hall.
    + destruct (IH (content x :: seen)) as (Hnd & Hfirst & Hall).
      assert (Hx : ~ In (content x) seen).
      { intros Hin. apply existsb_eqb_in in Hin. congruence. }
      cbn [map]. split; [|split].
      * constructor; [|exact Hnd]. intros Hin. apply in_map_iff in Hin.
        destruct Hin as (r & E & Hr). destruct (Hfirst r Hr) as (Hns & _).
        apply Hns. left. now symmetry.
      * intros r [<-|Hr].
        -- split; [exact Hx|]. exists [], rest. split; [reflexivity|].
           intros [].
        -- destruct (Hfirst r Hr) as (Hns & before & after & -> & Hb).
           split; [intros Hin; apply Hns; now right|].
           exists (x :: before), after. split; [reflexivity|].
           cbn [map In]. intros [E|Hin]; [|exact (Hb Hin)].
           apply Hns. now left.
      * intros r [<-|Hr] Hns; [now left|].
        destruct (string_dec (content x) (content r)) as [E|Hne].
        -- left. exact E.
        -- right. apply Hall; [exact Hr|]. intros [E|Hin]; auto.
Qed.
End RankingFacts.

Lemma Forall2_In_l {A B : Type} (R : A -> B -> Prop) (l : list A)
  (l' : list B) (a : A) :
  Forall2 R l l' -> In a l -> exists b, In b l' /\ R a b.
Proof.
  induction 1 as [|x y xs ys Hxy _ IH]; intros Hin; [destruct Hin|].
  destruct Hin as [<-|Hin].
  - exists y. split; [now left | exact Hxy].
  - destruct (IH Hin) as (b & Hb & Hab). exists b. split; [now right|exact Hab].
Qed.

Lemma NoDup_firstn {A : Type} (n : nat) (l : list A) :
  NoDup l -> NoDup (firstn n l).
Proof.
  intros H. rewrite <- (firstn_skipn n l) in H.
  now apply NoDup_app_remove_r in H.
Qed.

Section FusionInfo.
Context {Sc : Type}.
Implicit Types (self : RRFReranker) (results : list (result_item Sc))
  (pairs : list (list (result_item Sc) * Q))
  (ds : list (string * Q)) (di : list (string * result_item Sc)).

Lemma rrf_step_info self weight ds di rank (x : result_item Sc) ds' di' :
  rrf_step self weight (ds, di) rank x = Ok (ds', di') ->
  di' = di ++ map (fun r => (content r, r))
                (first_per_content [x] (map fst ds)) /\
  map fst ds' = map fst ds ++ map content (first_per_content [x] (map fst ds)).
Proof.
  unfold rrf_step. destruct (Z.eqb _ 0); [discriminate|].
  cbn [first_per_content].
  assert (E : dict_mem ds (content x)
              = existsb (String.eqb (content x)) (map fst ds)).
  { apply eq_true_iff_eq. now rewrite dict_mem_true_iff, existsb_eqb_in. }
  rewrite E. destruct (existsb _ _); intros [= <- <-]; cbn [map].
  - rewrite dict_update_keys, !app_nil_r. auto.
  - unfold dict_insert. rewrite map_app. auto.
Qed.

Lemma rrf_inner_info self weight results : forall rank ds di ds' di',
  rrf_inner self weight results rank (ds, di) = Ok (ds', di') ->
  di' = di ++ map (fun r => (content r, r))
                (first_per_content results (map fst ds)) /\
  map fst ds' = map fst ds
                ++ map content (first_per_content results (map fst ds)).
Proof.
  induction results as [|x rest IH]; intros rank ds di ds' di';
    cbn [rrf_inner].
  - intros [= <- <-]. cbn. now rewrite !app_nil_r.
  - destruct (rrf_step self weight (ds, di) rank x) as [[ds1 di1]|e] eqn:E;
      cbn [bind]; [|discriminate].
    intros Hrest. destruct (rrf_step_info _ _ _ _ _ _ _ _ E) as (Hdi1 & Hds1).
    destruct (IH _ _ _ _ _ Hrest) as (Hdi' & Hds').
    change (x :: rest) with ([x] ++ rest). rewrite first_per_content_app.
    rewrite Hdi', Hds', Hdi1, Hds1, !map_app, <- !app_assoc. auto.
Qed.

Lemma rrf_outer_info self pairs : forall ds di ds' di',
  rrf_outer self pairs (ds, di) = Ok (ds', di') ->
  di' = di ++ map (fun r => (content r, r))
                (first_per_content (flat_map fst pairs) (map fst ds)) /\
  map fst ds' = map fst ds
                ++ map content
                     (first_per_content (flat_map fst pairs) (map fst ds)).
Proof.
  induction pairs as [|[results weight] rest IH]; intros ds di ds' di';
    cbn [rrf_outer flat_map fst].
  - intros [= <- <-]. cbn. now rewrite !app_nil_r.
  - destruct (rrf_inner self weight results 0 (ds, di)) as [[ds1 di1]|e] eqn:E;
      cbn [bind]; [|discriminate].
    intros Hrest. destruct (rrf_inner_info _ _ _ _ _ _ _ _ E) as (Hdi1 & Hds1).
    destruct (IH _ _ _ _ Hrest) as (Hdi' & Hds').
    rewrite first_per_content_app.
    rewrite Hdi', Hds', Hdi1, Hds1, !map_app, <- !app_assoc. auto.
Qed.

Lemma flat_map_fst_combine (lists : list (list (result_item Sc)))
  (weights : list Q) :
  List.length lists = List.length weights ->
  flat_map fst (combine lists weights) = List.concat lists.
Proof.
  revert weights. induction lists as [|l rest IH]; intros [|w ws] H;
    try discriminate; [reflexivity|].
  cbn [combine flat_map fst List.concat]. f_equal. apply IH.
  now inversion H.
Qed.

Lemma dict_get_pairs (firsts : list (result_item Sc)) (c : string)
  (r : result_item Sc) :
  dict_get (map (fun x => (content x, x)) firsts) c = Some r ->
  In r firsts /\ content r = c.
Proof.
  intros G. apply dict_get_some_in in G. apply in_map_iff in G.
  destruct G as (x & E & Hx). inversion E; subst. auto.
Qed.

(** The formatting loop, record by record. *)
Lemma rrf_format_records di (entries : list (string * Q)) : forall out,
  rrf_format di entries = Ok out ->
  Forall2 (fun r e => exists r0, dict_get di (fst e) = Some r0 /\
                                 r = with_rrf_score r0 (snd e))
    out entries.
Proof.
  induction entries as [|[c s] rest IH]; intros out; cbn [rrf_format].
  - intros [= <-]. constructor.
  - destruct (dict_get di c) as [r0|] eqn:G; [|discriminate].
    destruct (rrf_format di rest) as [out'|e]; cbn [bind]; [|discriminate].
    intros [= <-]. constructor; [|now apply IH].
    exists r0. cbn [fst snd]. auto.
Qed.

(** What a successful call computed, in one place. *)
Lemma rerank_with_weights_inv self (lists : list (list (result_item Sc)))
  (weights : list Q) (top_k : Z) (out : list (result_item Sc)) :
  rerank_with_weights self lists weights top_k = Ok out ->
  exists ds,
    List.length lists = List.length weights /\
    rrf_outer self (combine lists weights) ([], [])
    = Ok (ds, map (fun r => (content r, r))
                (first_per_content (List.concat lists) [])) /\
    map fst ds = map content (first_per_content (List.concat lists) []) /\
    NoDup (map fst ds) /\
    (forall c, score_of ds c
               == fused_sum (k self) c (combine lists weights)) /\
    rrf_format (map (fun r => (content r, r))
                  (first_per_content (List.concat lists) []))
      (slice_to (sorted_desc Qltb snd ds) top_k) = Ok out.
Proof.
  unfold rerank_with_weights.
  destruct (Nat.eqb_spec (List.length lists) (List.length weights))
    as [Hlen|]; [|discriminate]. cbn [negb].
  destruct (rrf_outer self _ _) as [[ds di]|e] eqn:E; cbn [bind];
    [|discriminate].
  intros Hfmt.
  destruct (rrf_outer_info _ _ _ _ _ _ E) as (Hdi & Hds).
  destruct (rrf_outer_spec _ _ _ _ E rrf_inv_empty) as ((_ & Hnd & _) & Hs & _).
  cbn [app map fst] in *. rewrite (flat_map_fst_combine _ _ Hlen) in *.
  subst di. exists ds. split; [exact Hlen|]. split; [reflexivity|].
  split; [exact Hds|]. split; [exact Hnd|]. split; [|exact Hfmt].
  intros c. rewrite (Hs c). unfold score_of. cbn. ring.
Qed.
End FusionInfo.

(** X1.  The fusion never returns a content twice, and the record returned
    for a content is the first record of that content met when the lists
    are read one after the other, each from its first rank: all its fields
    are that record's, apart from the fused score that is set. *)
Theorem rrf_output_first_records :
  forall (Sc : Type) (self : RRFReranker)
         (result_lists : list (list (result_item Sc))) (weights : list Q)
         (top_k : Z) (out : list (result_item Sc)),
    rerank_with_weights self result_lists weights top_k = Ok out ->
    NoDup (map content out) /\
    forall r, In r out ->
      exists r0 s before after,
        r = with_rrf_score r0 s /\
        List.concat result_lists = before ++ r0 :: after /\
        ~ In (content r0) (map content before).
Proof.
  intros Sc self lists weights top_k out Hout.
  destruct (rerank_with_weights_inv _ _ _ _ _ Hout)
    as (ds & Hlen & _ & Hkeys & Hnd & _ & Hfmt).
  pose proof (rrf_format_records _ _ _ Hfmt) as Hrec.
  destruct (first_per_content_spec (List.concat lists) []) as (_ & Hfirst & _).
  assert (Hcontent : map content out
                     = map fst (slice_to (sorted_desc Qltb snd ds) top_k)).
  { clear Hfmt Hout. induction Hrec as [|r e out' es (r0 & G & ->) _ IH];
      [reflexivity|].
    cbn [map]. rewrite IH. f_equal.
    apply dict_get_pairs in G. destruct G as (_ & G). exact G. }
  split.
  - rewrite Hcontent.
    assert (Hs : NoDup (map fst (sorted_desc Qltb snd ds))).
    { apply (Permutation_NoDup (l := map fst ds)); [|exact Hnd].
      apply Permutation_map. symmetry. apply sorted_desc_perm. }
    unfold slice_to.
    destruct (0 <=? top_k)%Z; rewrite <- firstn_map; now apply NoDup_firstn.
  - intros r Hr.
    destruct (Forall2_In_l _ _ _ r Hrec Hr) as (e & _ & r0 & G & ->).
    apply dict_get_pairs in G. destruct G as (Hr0 & _).
    destruct (Hfirst r0 Hr0) as (_ & before & after & Hsplit & Hb).
    exists r0, (snd e), before, after. auto.
Qed.

Lemma rrf_output_first_records_example :
  exists out,
    rerank_with_weights (RRFReranker_init (Some 0%Z)) example_lists
      [1%Q; 1%Q] 3 = Ok out /\
    NoDup (map content out) /\
    forall r, In r out ->
      exists r0 s before after,
        r = with_rrf_score r0 s /\
        List.concat example_lists = before ++ r0 :: after /\
        ~ In (content r0) (map content before).
Proof.
  eexists. split; [vm_compute; reflexivity|].
  apply (rrf_output_first_records unit (RRFReranker_init (Some 0%Z))
           example_lists [1%Q; 1%Q] 3%Z).
  vm_compute. reflexivity.
Defined.

Lemma rrf_format_firstn {Sc : Type} (di : list (string * result_item Sc))
  (n : nat) : forall (entries : list (string * Q)) out,
  rrf_format di entries = Ok out ->
  rrf_format di (firstn n entries) = Ok (firstn n out).
Proof.
  induction n as [|n IH]; intros entries out H; [reflexivity|].
  destruct entries as [|[c s] rest]; cbn [rrf_format firstn] in *.
  - inversion H. reflexivity.
  - destruct (dict_get di c) as [r0|]; [|discriminate].
    destruct (rrf_format di rest) as [out'|e] eqn:E; cbn [bind] in H;
      [|discriminate].
    inversion H; subst out. rewrite (IH rest out' E). reflexivity.
Qed.

Lemma Forall2_sorted {A B : Type} (P : A -> B -> Prop)
  (before : A -> A -> Prop) (before' : B -> B -> Prop)
  (l : list A) (l' : list B) :
  (forall a b a' b', P a a' -> P b b' -> before' a' b' -> before a b) ->
  Forall2 P l l' -> StronglySorted before' l' -> StronglySorted before l.
Proof.
  intros Himp H. induction H as [|a a' l l' Ha Hl IH]; intros Hs;
    [constructor|].
  apply StronglySorted_inv in Hs. destruct Hs as (Hs & Hall).
  constructor; [now apply IH|].
  rewrite Forall_forall in *. intros b Hb.
  destruct (Forall2_In_l _ _ _ _ Hl Hb) as (b' & Hb' & Hbb').
  exact (Himp a b a' b' Ha Hbb' (Hall b' Hb')).
Qed.

(** X2.  The records the fusion returns are in the order of the fused
    scores they carry, higher scores first and records of equal score in
    the order in which their contents first appear in the lists; there
    are [min(top_k, number of distinct contents)] of them; and asking for
    fewer results gives a prefix of the same list. *)
Theorem rrf_output_sorted_and_prefix_consistent :
  forall (Sc : Type) (self : RRFReranker)
         (result_lists : list (list (result_item Sc))) (weights : list Q)
         (top_k top_k' : Z) (out' : list (result_item Sc)),
    (0 <= top_k <= top_k')%Z ->
    rerank_with_weights self result_lists weights top_k' = Ok out' ->
    let keys := map content (first_per_content (List.concat result_lists) []) in
    rerank_with_weights self result_lists weights top_k
    = Ok (firstn (Z.to_nat top_k) out') /\
    List.length out' = Nat.min (Z.to_nat top_k') (List.length keys) /\
    StronglySorted (reported_before keys) out'.
Proof.
  intros Sc self lists weights top_k top_k' out' Hk Hout keys.
  destruct (rerank_with_weights_inv _ _ _ _ _ Hout)
    as (ds & Hlen & Houter & Hkeys & Hnd & _ & Hfmt).
  fold keys in Hkeys.
  rewrite slice_to_firstn in Hfmt by lia.
  split; [|split].
  - unfold rerank_with_weights. rewrite Hlen, Nat.eqb_refl. cbn [negb].
    rewrite Houter. cbn [bind]. rewrite slice_to_firstn by lia.
    rewrite <- (rrf_format_firstn _ (Z.to_nat top_k) _ _ Hfmt).
    rewrite firstn_firstn. f_equal. f_equal. lia.
  - rewrite (rrf_format_length _ _ _ Hfmt), length_firstn.
    rewrite (Permutation_length (sorted_desc_perm _ _ Qltb snd ds)).
    rewrite <- Hkeys, length_map. reflexivity.
  - pose proof (rrf_format_records _ _ _ Hfmt) as Hrec.
    apply (Forall2_sorted _ (reported_before keys) (fused_before keys)
             _ _) with (2 := Hrec).
    + intros r1 r2 e1 e2 (x1 & G1 & ->) (x2 & G2 & ->) Hb.
      apply dict_get_pairs in G1, G2.
      destruct G1 as (_ & G1), G2 as (_ & G2).
      exists (snd e1), (snd e2). cbn. rewrite G1, G2.
      split; [reflexivity|]. split; [reflexivity|].
      destruct e1, e2. exact Hb.
    + apply StronglySorted_firstn.
      apply (StronglySorted_impl_in
               (stable_before Qltb snd
                  (fun e1 e2 : string * Q =>
                     (key_index keys (fst e1) < key_index keys (fst e2))%nat))).
      * intros a b _ _ [H|(H1 & H2 & H3)].
        -- left. now apply Qltb_true_iff.
        -- right. split; [|exact H3].
           apply Qltb_false_iff in H1, H2. now apply Qle_antisym.
      * apply sorted_desc_stable; [exact Qltb_asym | exact Qltb_negtrans|].
        apply (StronglySorted_map fst
                 (fun a b => (key_index keys a < key_index keys b)%nat)).
        rewrite Hkeys. apply key_index_sorted. now rewrite <- Hkeys.
Qed.

Lemma rrf_output_sorted_and_prefix_consistent_example :
  (0 <= 1 <= 3)%Z /\
  exists out',
    rerank_with_weights (RRFReranker_init (Some 0%Z)) tied_lists
      [1%Q; 1%Q] 3 = Ok out' /\
    scored out'
    = [("d1"%string, Some (3 # 2)); ("d2"%string, Some (3 # 2));
       ("d3"%string, Some (1 # 3))] /\
    rerank_with_weights (RRFReranker_init (Some 0%Z)) tied_lists
      [1%Q; 1%Q] 1 = Ok (firstn (Z.to_nat 1) out') /\
    List.length out'
    = Nat.min (Z.to_nat 3)
        (List.length
           (map content (first_per_content (List.concat tied_lists) []))) /\
    StronglySorted
      (reported_before
         (map content (first_per_content (List.concat tied_lists) [])))
      out'.
Proof.
  split; [lia|]. eexists. split; [vm_compute; reflexivity|].
  split; [reflexivity|].
  apply (rrf_output_sorted_and_prefix_consistent unit
           (RRFReranker_init (Some 0%Z)) tied_lists [1%Q; 1%Q] 1%Z 3%Z).
  - lia.
  - vm_compute. reflexivity.
Defined.




(** *** The errors of the fusion *)

Section FusionErrors.
Context {Sc : Type}.
Implicit Types (self : RRFReranker) (results : list (result_item Sc))
  (st : @rrf_state Sc).

Lemma rrf_step_outcome self weight st rank (x : result_item Sc) :
  if (Z.of_nat rank + 1 + k self =? 0)%Z
  then rrf_step self weight st rank x = Raise ZeroDivisionError
  else exists st', rrf_step self weight st rank x = Ok st'.
Proof.
  unfold rrf_step. destruct st as [ds di].
  destruct (Z.of_nat rank + 1 + k self =? 0)%Z; [reflexivity|].
  destruct (dict_mem ds (content x)); eexists; reflexivity.
Qed.

Lemma rrf_inner_outcome self weight results : forall rank st,
  if ((Z.of_nat rank + 1 <=? - k self)
      && (- k self <=? Z.of_nat rank + Z.of_nat (List.length results)))%Z
  then rrf_inner self weight results rank st = Raise ZeroDivisionError
  else exists st', rrf_inner self weight results rank st = Ok st'.
Proof.
  induction results as [|x rest IH]; intros rank st;
    cbn [rrf_inner List.length].
  - destruct (Z.leb_spec (Z.of_nat rank + 1) (- k self));
      destruct (Z.leb_spec (- k self) (Z.of_nat rank + Z.of_nat 0));
      cbn [andb]; try lia; eexists; reflexivity.
  - pose proof (rrf_step_outcome self weight st rank x) as Hstep.
    destruct (Z.eqb_spec (Z.of_nat rank + 1 + k self) 0) as [E|E].
    + rewrite Hstep. cbn [bind].
      destruct (Z.leb_spec (Z.of_nat rank + 1) (- k self));
        destruct (Z.leb_spec (- k self)
                    (Z.of_nat rank + Z.of_nat (S (List.length rest))));
        cbn [andb]; try lia; reflexivity.
    + destruct Hstep as (s & ->). cbn [bind].
      specialize (IH (S rank) s).
      destruct (Z.leb_spec (Z.of_nat rank + 1) (- k self));
        destruct (Z.leb_spec (- k self)
                    (Z.of_nat rank + Z.of_nat (S (List.length rest))));
        destruct (Z.leb_spec (Z.of_nat (S rank) + 1) (- k self));
        destruct (Z.leb_spec (- k self)
                    (Z.of_nat (S rank) + Z.of_nat (List.length rest)));
        cbn [andb] in *; try lia; exact IH.
Qed.

Lemma rrf_outer_outcome self (pairs : list (list (result_item Sc) * Q)) :
  forall st,
    if zero_rank (k self) (map fst pairs)
    then rrf_outer self pairs st = Raise ZeroDivisionError
    else exists st', rrf_outer self pairs st = Ok st'.
Proof.
  induction pairs as [|[results weight] rest IH]; intros st;
    cbn [rrf_outer map fst zero_rank existsb].
  - eexists; reflexivity.
  - pose proof (rrf_inner_outcome self weight results 0 st) as Hin.
    cbn [Z.of_nat Z.add] in Hin.
    destruct ((1 <=? - k self)%Z
              && (- k self <=? Z.of_nat (List.length results))%Z);
      cbn [orb].
    + now rewrite Hin.
    + destruct Hin as (st1 & ->). cbn [bind]. apply IH.
Qed.

Lemma map_fst_combine (lists : list (list (result_item Sc)))
  (weights : list Q) :
  List.length lists = List.length weights ->
  map fst (combine lists weights) = lists.
Proof.
  revert weights. induction lists as [|l rest IH]; intros [|w ws] H;
    try discriminate; [reflexivity|].
  cbn [combine map fst]. f_equal. apply IH. now inversion H.
Qed.
End FusionErrors.

(** X4.  Given as many weights as lists, the fusion fails in exactly one
    case: [k] is negative and some list is long enough to have an entry at
    the 1-based rank [- k], whose reciprocal rank divides by zero; the
    error is then [ZeroDivisionError].  In every other case it returns a
    result. *)
Theorem rrf_raises_only_at_zero_rank :
  forall (Sc : Type) (self : RRFReranker)
         (result_lists : list (list (result_item Sc))) (weights : list Q)
         (top_k : Z),
    List.length result_lists = List.length weights ->
    (zero_rank (k self) result_lists = true ->
     rerank_with_weights self result_lists weights top_k
     = Raise ZeroDivisionError) /\
    (zero_rank (k self) result_lists = false ->
     exists out, rerank_with_weights self result_lists weights top_k = Ok out).
Proof.
  intros Sc self lists weights top_k Hlen.
  pose proof (rrf_outer_outcome self (combine lists weights) ([], [])) as Hout.
  rewrite (map_fst_combine _ _ Hlen) in Hout.
  unfold rerank_with_weights. rewrite Hlen, Nat.eqb_refl. cbn [negb].
  split; intros Hz; rewrite Hz in Hout.
  - now rewrite Hout.
  - destruct Hout as ([ds di] & E). rewrite E. cbn [bind].
    destruct (rrf_outer_spec _ _ _ _ E rrf_inv_empty) as (Hinv & _).
    destruct (rrf_format_spec ds di (slice_to (sorted_desc Qltb snd ds) top_k)
                Hinv) as (out & Hfmt & _).
    { intros e He. apply slice_to_incl in He. now apply sorted_desc_in in He. }
    now exists out.
Qed.

Lemma rrf_raises_only_at_zero_rank_example :
  List.length example_lists = List.length [1%Q; 1%Q] /\
  rerank_with_weights (RRFReranker_init (Some (-2)%Z)) example_lists
    [1%Q; 1%Q] 10 = Raise ZeroDivisionError /\
  exists out,
    rerank_with_weights (RRFReranker_init (Some (-3)%Z)) example_lists
      [1%Q; 1%Q] 10 = Ok out.
Proof.
  split; [reflexivity|]. split.
  - apply (rrf_raises_only_at_zero_rank unit (RRFReranker_init (Some (-2)%Z))
             example_lists [1%Q; 1%Q] 10%Z); reflexivity.
  - apply (rrf_raises_only_at_zero_rank unit (RRFReranker_init (Some (-3)%Z))
             example_lists [1%Q; 1%Q] 10%Z); reflexivity.
Defined.

(** *** One list alone *)

Lemma recip_le (a c : Z) :
  (0 < a)%Z -> (a <= c)%Z -> 1 / inject_Z c <= 1 / inject_Z a.
Proof.
  intros Ha Hc. destruct a as [|p|p]; try lia. destruct c as [|q|q]; try lia.
  unfold Qle, Qdiv, Qmult, Qinv, inject_Z. simpl. lia.
Qed.

Section SingleList.
Context {Sc : Type}.
Implicit Types (self : RRFReranker) (l : list (result_item Sc)).

Lemma rrf_inner_distinct self weight l : forall rank ds di,
  (0 <= k self)%Z ->
  NoDup (map content l) ->
  (forall x, In x l -> ~ In (content x) (map fst ds)) ->
  rrf_inner self weight l rank (ds, di)
  = Ok (ds ++ rank_entries (k self) weight l (S rank),
        di ++ map (fun x => (content x, x)) l).
Proof.
  induction l as [|x rest IH]; intros rank ds di Hk Hnd Hfresh;
    cbn [rrf_inner rank_entries map].
  - now rewrite !app_nil_r.
  - unfold rrf_step.
    destruct (Z.eqb_spec (Z.of_nat rank + 1 + k self) 0) as [E|_]; [lia|].
    assert (M : dict_mem ds (content x) = false).
    { apply not_true_is_false. intros M. apply dict_mem_true_iff in M.
      apply (Hfresh x); [now left | exact M]. }
    rewrite M. cbn [bind]. unfold dict_insert.
    inversion Hnd as [|? ? Hx Hrest]; subst.
    rewrite IH; [| exact Hk | exact Hrest |].
    + replace (Z.of_nat (S rank) + k self)%Z
        with (Z.of_nat rank + 1 + k self)%Z by lia.
      now rewrite <- !app_assoc.
    + intros y Hy. rewrite map_app, in_app_iff. cbn [map fst In].
      intros [H|[H|[]]].
      * apply (Hfresh y); [now right | exact H].
      * apply Hx. rewrite H. now apply in_map.
Qed.

Lemma rank_entries_sorted self weight l : forall r,
  (0 <= k self)%Z -> 0 <= weight -> (1 <= r)%nat ->
  StronglySorted (fun x y : string * Q => Qltb (snd x) (snd y) = false)
    (rank_entries (k self) weight l r).
Proof.
  induction l as [|x rest IH]; intros r Hk Hw Hr; cbn [rank_entries];
    [constructor|].
  constructor; [apply IH; [exact Hk | exact Hw | lia]|].
  assert (Hall : forall r', (r <= r')%nat ->
            Forall (fun y : string * Q =>
                      snd y <= weight * (1 / inject_Z (Z.of_nat r + k self)))
              (rank_entries (k self) weight rest r')).
  { clear IH. induction rest as [|y ys IHys]; intros r' Hr';
      cbn [rank_entries]; constructor.
    - cbn [snd]. rewrite !(Qmult_comm weight).
      apply Qmult_le_compat_r; [|exact Hw]. apply recip_le; lia.
    - apply IHys. lia. }
  specialize (Hall (S r) (Nat.le_succ_diag_r r)).
  rewrite Forall_forall in *. intros y Hy. cbn [snd].
  apply Qltb_false_iff. now apply Hall.
Qed.

Lemma rrf_format_ranked self weight (di : list (string * result_item Sc)) l :
  forall r,
    (forall x, In x l -> dict_get di (content x) = Some x) ->
    rrf_format di (rank_entries (k self) weight l r)
    = Ok (rank_scored (k self) weight l r).
Proof.
  induction l as [|x rest IH]; intros r Hget;
    cbn [rank_entries rank_scored rrf_format]; [reflexivity|].
  rewrite (Hget x (or_introl eq_refl)).
  rewrite IH by (intros y Hy; apply Hget; now right). reflexivity.
Qed.

Lemma rank_entries_firstn self weight l : forall n r,
  firstn n (rank_entries (k self) weight l r)
  = rank_entries (k self) weight (firstn n l) r.
Proof.
  induction l as [|x rest IH]; intros [|n] r; cbn [firstn rank_entries];
    try reflexivity. now rewrite IH.
Qed.

Lemma rank_scored_firstn self weight l : forall n r,
  firstn n (rank_scored (k self) weight l r)
  = rank_scored (k self) weight (firstn n l) r.
Proof.
  induction l as [|x rest IH]; intros [|n] r; cbn [firstn rank_scored];
    try reflexivity. now rewrite IH.
Qed.

Lemma dict_get_distinct l (x : result_item Sc) :
  NoDup (map content l) -> In x l ->
  dict_get (map (fun y => (content y, y)) l) (content x) = Some x.
Proof.
  intros Hnd Hin. apply dict_get_in.
  - rewrite map_map. cbn [fst]. exact Hnd.
  - apply in_map_iff. now exists x.
Qed.

(** The fusion of a list of distinct contents alone. *)
Lemma rrf_alone self weight l (top_k : Z) :
  (0 <= k self)%Z -> 0 <= weight -> (0 <= top_k)%Z ->
  NoDup (map content l) ->
  rrf_format (map (fun y => (content y, y)) l)
    (slice_to (sorted_desc Qltb snd (rank_entries (k self) weight l 1)) top_k)
  = Ok (firstn (Z.to_nat top_k) (rank_scored (k self) weight l 1)).
Proof.
  intros Hk Hw Htop Hnd.
  rewrite (sorted_desc_fixed _ _ Qltb snd _
             (rank_entries_sorted self weight l 1 Hk Hw (Nat.le_refl 1))).
  rewrite slice_to_firstn by exact Htop.
  rewrite rank_entries_firstn, rank_scored_firstn.
  apply rrf_format_ranked. intros x Hx.
  apply dict_get_distinct; [exact Hnd|]. now apply firstn_incl in Hx.
Qed.
End SingleList.

(** X5.  When one of the two lists is empty, the fusion returns the other
    list as it is ranked: provided its contents are distinct, its weight
    is not negative and [k >= 0], the output is its first [top_k] records
    in their order, the record at 1-based rank [r] scored
    [weight * (1 / (r + k))]. *)
Theorem rrf_with_one_empty_list :
  forall (Sc : Type) (self : RRFReranker) (l : list (result_item Sc))
         (weight other_weight : Q) (top_k : Z),
    (0 <= k self)%Z -> 0 <= weight -> (0 <= top_k)%Z ->
    NoDup (map content l) ->
    rerank_with_weights self [l; []] [weight; other_weight] top_k
    = Ok (firstn (Z.to_nat top_k) (rank_scored (k self) weight l 1)) /\
    rerank_with_weights self [[]; l] [other_weight; weight] top_k
    = Ok (firstn (Z.to_nat top_k) (rank_scored (k self) weight l 1)).
Proof.
  intros Sc self l weight other top_k Hk Hw Htop Hnd.
  assert (E : rrf_inner self weight l 0 ([], [])
              = Ok (rank_entries (k self) weight l 1,
                    map (fun x => (content x, x)) l)).
  { rewrite (rrf_inner_distinct self weight l 0 [] [] Hk Hnd); [reflexivity|].
    intros x _ []. }
  unfold rerank_with_weights.
  cbn [List.length Nat.eqb negb combine rrf_outer rrf_inner bind].
  rewrite E. cbn [bind].
  split; now apply rrf_alone.
Qed.

Lemma rrf_with_one_empty_list_example :
  (0 <= k (RRFReranker_init (Some 0%Z)))%Z /\ 0 <= 1 # 2 /\ (0 <= 1)%Z /\
  NoDup (map content [d "d1"; d "d2"]) /\
  rerank_with_weights (RRFReranker_init (Some 0%Z)) [[d "d1"; d "d2"]; []]
    [1 # 2; 1 # 2] 1
  = Ok (firstn (Z.to_nat 1) (rank_scored 0 (1 # 2) [d "d1"; d "d2"] 1)).
Proof.
  assert (Hnd : NoDup (map content [d "d1"; d "d2"])).
  { cbn. constructor.
    - intros [H|[]]. discriminate.
    - constructor; [intros [] | constructor]. }
  split; [simpl; lia|]. split; [discriminate|]. split; [lia|].
  split; [exact Hnd|].
  apply (rrf_with_one_empty_list unit (RRFReranker_init (Some 0%Z))
           [d "d1"; d "d2"] (1 # 2) (1 # 2) 1%Z); auto.
  - simpl. lia.
  - discriminate.
  - lia.
Defined.

(** ** Further properties of the BM25 index *)

Lemma counter_incr_nodup (d : list (string * nat)) (key : string) :
  NoDup (map fst d) -> NoDup (map fst (counter_incr d key)).
Proof.
  intros Hnd. unfold counter_incr. destruct (dict_mem d key) eqn:M.
  - now rewrite dict_update_keys.
  - unfold dict_insert. rewrite map_app. cbn [map fst].
    apply (Permutation_NoDup (l := key :: map fst d)).
    + apply Permutation_cons_append.
    + constructor; [|exact Hnd]. intros Hin.
      apply dict_mem_true_iff in Hin. congruence.
Qed.

Lemma counter_fold_nodup (l : list string) : forall d,
  NoDup (map fst d) -> NoDup (map fst (fold_left counter_incr l d)).
Proof.
  induction l as [|x xs IH]; intros d Hnd; cbn [fold_left]; [exact Hnd|].
  apply IH. now apply counter_incr_nodup.
Qed.

Lemma counter_get_in (d : list (string * nat)) (t : string) (n : nat) :
  NoDup (map fst d) -> In (t, n) d -> counter_get d t = n.
Proof.
  intros Hnd Hin. unfold counter_get. now rewrite (dict_get_in _ d t n Hnd Hin).
Qed.

Section IndexInvariants.
Variable preprocess_text : string -> list string.

Local Abbreviation terms_of := (terms_of preprocess_text).
Local Abbreviation df := (df preprocess_text).
Local Abbreviation index_of := (index_of preprocess_text).

Lemma index_fold_keys (docs : list document) : forall dts dls tdf,
  NoDup (map fst tdf) ->
  let r := fold_left (index_step preprocess_text) docs (dts, dls, tdf) in
  NoDup (map fst (snd r)) /\
  forall t, In t (map fst (snd r)) <->
            In t (map fst tdf) \/ exists doc, In doc docs /\ In t (terms_of doc).
Proof.
  induction docs as [|doc rest IH]; intros dts dls tdf Hnd; cbn zeta.
  - cbn. split; [exact Hnd|]. intros t. split; [auto|].
    intros [H|(doc & [] & _)]. exact H.
  - cbn [fold_left index_step].
    destruct (IH (dts ++ [preprocess_text (doc_content doc)])
                 (dls ++ [List.length (preprocess_text (doc_content doc))])
                 (fold_left counter_incr
                    (nodup string_dec (preprocess_text (doc_content doc))) tdf)
                 (counter_fold_nodup _ _ Hnd)) as (Hnd' & Hkeys).
    cbn zeta in Hnd', Hkeys. split; [exact Hnd'|].
    intros t. rewrite Hkeys, counter_fold_keys, nodup_In.
    unfold BM25.terms_of. split.
    + intros [[H|H]|(d0 & Hd0 & Ht)].
      * now left.
      * right. exists doc. split; [now left | exact H].
      * right. exists d0. split; [now right | exact Ht].
    + intros [H|(d0 & [<-|Hd0] & Ht)].
      * now left; left.
      * left; right. exact Ht.
      * right. exists d0. auto.
Qed.

Lemma df_pos (docs : list document) (doc : document) (t : string) :
  In doc docs -> In t (terms_of doc) -> (1 <= df docs t)%nat.
Proof.
  intros Hdoc Ht. unfold BM25.df.
  assert (Hin : In doc (filter (fun d0 => contains (terms_of d0) t) docs)).
  { apply filter_In. split; [exact Hdoc|]. now apply contains_true_iff. }
  destruct (filter _ docs); [destruct Hin | simpl; lia].
Qed.

Lemma df_zero (docs : list document) (t : string) :
  (forall doc, In doc docs -> ~ In t (terms_of doc)) -> df docs t = 0%nat.
Proof.
  intros H. unfold BM25.df.
  destruct (filter _ docs) as [|d0 l] eqn:E; [reflexivity|].
  assert (Hin : In d0 (filter (fun d1 => contains (terms_of d1) t) docs))
    by (rewrite E; now left).
  apply filter_In in Hin. destruct Hin as (Hd0 & C).
  apply contains_true_iff in C. exfalso. exact (H d0 Hd0 C).
Qed.
End IndexInvariants.

(** X6.  The index a retriever holds is consistent with its corpus:
    the token lists and the lengths are kept per document, in corpus
    order; the document-frequency table has one entry per term that
    occurs in the corpus, holding the number of documents with that term
    (between 1 and the corpus size); and the average length times the
    number of documents is the total number of tokens. *)
Theorem keyword_index_is_consistent :
  forall (preprocess_text : string -> list string) (self : KeywordRetriever),
    reachable preprocess_text self ->
    List.length (document_terms self) = List.length (documents self) /\
    List.length (doc_lengths self) = List.length (documents self) /\
    (forall i doc,
        nth_error (documents self) i = Some doc ->
        nth_error (document_terms self) i
        = Some (preprocess_text (doc_content doc)) /\
        nth_error (doc_lengths self) i
        = Some (List.length (preprocess_text (doc_content doc)))) /\
    NoDup (map fst (term_doc_freq self)) /\
    (forall t n,
        In (t, n) (term_doc_freq self) ->
        n = df preprocess_text (documents self) t /\
        (1 <= n <= List.length (documents self))%nat) /\
    (forall t doc,
        In doc (documents self) ->
        In t (preprocess_text (doc_content doc)) ->
        exists n, In (t, n) (term_doc_freq self)) /\
    (avg_doc_length self * INR (List.length (documents self))
     = INR (list_sum (doc_lengths self)))%R.
Proof.
  intros pre self Hreach.
  destruct (reachable_is_index pre self Hreach) as (docs & ->).
  cbn [BM25.index_of documents document_terms doc_lengths term_doc_freq
       avg_doc_length].
  destruct (index_fold_keys pre docs [] [] [] (NoDup_nil _)) as (Hnd & Hkeys).
  cbn zeta in Hnd, Hkeys. fold (tdf_of pre docs) in Hnd, Hkeys.
  repeat apply conj.
  - apply length_map.
  - apply length_map.
  - intros i doc Hnth. rewrite !nth_error_map, Hnth. cbn. auto.
  - exact Hnd.
  - intros t n Hin.
    pose proof (counter_get_in _ t n Hnd Hin) as Hget.
    rewrite tdf_of_get in Hget. subst n. split; [reflexivity|].
    split; [|apply df_le].
    assert (Hk : In t (map fst (tdf_of pre docs))).
    { apply in_map_iff. exists (t, df pre docs t). auto. }
    apply Hkeys in Hk. destruct Hk as [[]|(doc & Hdoc & Ht)].
    exact (df_pos pre docs doc t Hdoc Ht).
  - intros t doc Hdoc Ht.
    assert (Hk : In t (map fst (tdf_of pre docs))).
    { apply Hkeys. right. now exists doc. }
    apply in_map_iff in Hk. destruct Hk as ([t' n] & E & Hin).
    cbn in E. subst t'. now exists n.
  - destruct docs as [|doc rest]; [cbn; ring|].
    unfold avg_len. set (s := INR (list_sum _)). set (n := INR _).
    assert (n <> 0)%R by (apply not_0_INR; cbn; lia).
    field. assumption.
Qed.

Lemma keyword_index_is_consistent_example :
  reachable words (index_of words example_corpus) /\
  nth_error (document_terms (index_of words example_corpus)) 2
  = Some ["labour"; "value"]%string /\
  (avg_doc_length (index_of words example_corpus) * INR 3 = INR 7)%R.
Proof.
  split; [apply index_of_reachable|].
  destruct (keyword_index_is_consistent words (index_of words example_corpus)
              (index_of_reachable words example_corpus))
    as (_ & _ & Hnth & _ & _ & _ & Havg).
  split.
  - exact (proj1 (Hnth 2%nat (plain_doc "labour value") eq_refl)).
  - exact Havg.
Defined.

(** X7.  Adding documents in two steps gives the same retriever as adding
    them all at once, and constructing a retriever on a corpus and then
    adding documents the same as constructing it on the whole: the index
    depends on the accumulated corpus only. *)
Theorem add_documents_accumulates :
  forall (preprocess_text : string -> list string),
    (forall self docs1 docs2,
        (self1 <- add_documents preprocess_text self docs1 ;;
         add_documents preprocess_text self1 docs2)
        = add_documents preprocess_text self (docs1 ++ docs2)) /\
    (forall docs docs',
        (self <- KeywordRetriever_init preprocess_text (Some docs) ;;
         add_documents preprocess_text self docs')
        = KeywordRetriever_init preprocess_text (Some (docs ++ docs'))) /\
    (forall self docs self',
        add_documents preprocess_text self docs = Ok self' ->
        documents self' = documents self ++ docs /\
        k1 self' = k1 self /\ b self' = b self).
Proof.
  intros pre. repeat apply conj.
  - intros self docs1 docs2. unfold add_documents.
    rewrite !build_index_eq. cbn [bind documents k1 b].
    rewrite build_index_eq. cbn [documents k1 b].
    now rewrite <- app_assoc.
  - intros docs docs'. unfold KeywordRetriever_init.
    destruct docs as [|d1 ds].
    + cbn [app bind]. unfold add_documents. cbn [documents app].
      rewrite build_index_eq. cbn [documents k1 b].
      destruct docs' as [|d0 rest]; [reflexivity|].
      rewrite build_index_eq. reflexivity.
    + cbn [app]. rewrite !build_index_eq. cbn [bind documents k1 b].
      unfold add_documents. rewrite build_index_eq. reflexivity.
  - intros self docs self'. unfold add_documents. rewrite build_index_eq.
    intros [= <-]. cbn. auto.
Qed.

Lemma add_documents_accumulates_example :
  exists self',
    add_documents words (index_of words example_corpus)
      [plain_doc "market value"] = Ok self' /\
    documents self'
    = documents (index_of words example_corpus) ++ [plain_doc "market value"] /\
    k1 self' = k1 (index_of words example_corpus) /\
    b self' = b (index_of words example_corpus).
Proof.
  destruct (add_documents_total words (index_of words example_corpus)
              [plain_doc "market value"]) as (self' & Hadd).
  exists self'. split; [exact Hadd|].
  exact (proj2 (proj2 (add_documents_accumulates words)) _ _ _ Hadd).
Defined.

(** ** Further properties of BM25 scoring *)

Lemma Rdiv_lt_cross (a c x y : R) :
  (0 < x)%R -> (0 < y)%R -> (a * y < c * x)%R -> (a / x < c / y)%R.
Proof.
  intros Hx Hy H.
  apply (Rmult_lt_reg_r (x * y)); [nra|].
  replace (a / x * (x * y))%R with (a * y)%R by (field; lra).
  replace (c / y * (x * y))%R with (c * x)%R by (field; lra).
  exact H.
Qed.

Section ScoreOrder.
Variable preprocess_text : string -> list string.

Local Abbreviation terms_of := (terms_of preprocess_text).
Local Abbreviation df := (df preprocess_text).
Local Abbreviation idf := (idf preprocess_text).
Local Abbreviation tf_term := (tf_term preprocess_text).
Local Abbreviation bm25_sum := (bm25_sum preprocess_text).
Local Abbreviation avg_len := (avg_len preprocess_text).

Lemma idf_positive (docs : list document) (t : string) :
  (2 * df docs t < List.length docs)%nat -> (0 < idf docs t)%R.
Proof.
  intros H. unfold BM25.idf. rewrite <- ln_1.
  apply lt_INR in H. rewrite mult_INR in H. simpl in H.
  pose proof (pos_INR (df docs t)) as Hdf.
  apply ln_increasing; [lra|].
  apply (Rmult_lt_reg_r (INR (df docs t) + 1 / 2)); [lra|].
  unfold Rdiv at 2. rewrite Rmult_assoc, Rinv_l by lra. lra.
Qed.

Lemma idf_nonpositive (docs : list document) (t : string) :
  (List.length docs <= 2 * df docs t)%nat -> (idf docs t <= 0)%R.
Proof.
  intros H. unfold BM25.idf.
  apply le_INR in H. rewrite mult_INR in H. simpl in H.
  pose proof (pos_INR (df docs t)) as Hdf.
  pose proof (idf_arg_pos preprocess_text docs t) as Hpos.
  set (x := ((INR (List.length docs) - INR (df docs t) + 1 / 2)
             / (INR (df docs t) + 1 / 2))%R) in *.
  assert (Hx : (x <= 1)%R).
  { subst x. apply (Rmult_le_reg_r (INR (df docs t) + 1 / 2)); [lra|].
    unfold Rdiv at 1. rewrite Rmult_assoc, Rinv_l by lra. lra. }
  destruct (Rle_lt_or_eq_dec _ _ Hx) as [Hlt | Heq]; [|rewrite Heq, ln_1; lra].
  rewrite <- ln_1. apply Rlt_le. now apply ln_increasing.
Qed.

Lemma bm25_sum_positive (docs : list document) (terms q : list string) :
  (exists t, In t q /\ In t terms) ->
  (forall t, In t q -> In t terms ->
             (2 * df docs t < List.length docs)%nat) ->
  (0 < bm25_sum (3 / 2) (3 / 4) docs terms q)%R.
Proof.
  assert (Hnn : forall q',
             (forall t, In t q' -> In t terms ->
                        (2 * df docs t < List.length docs)%nat) ->
             (0 <= bm25_sum (3 / 2) (3 / 4) docs terms q')%R).
  { induction q' as [|t rest IH]; intros H; cbn [BM25.bm25_sum]; [lra|].
    assert (Hrest : (0 <= bm25_sum (3 / 2) (3 / 4) docs terms rest)%R)
      by (apply IH; intros u Hu; apply H; now right).
    destruct (contains terms t) eqn:C; [|lra].
    pose proof (tf_term_positive preprocess_text docs terms t C) as Htf.
    assert (Hidf : (0 < idf docs t)%R).
    { apply idf_positive. apply H; [now left|]. now apply contains_true_iff. }
    nra. }
  induction q as [|t rest IH]; intros (u & Hu & Hterm) H; [destruct Hu|].
  cbn [BM25.bm25_sum].
  assert (Hrest : (0 <= bm25_sum (3 / 2) (3 / 4) docs terms rest)%R)
    by (apply Hnn; intros v Hv; apply H; now right).
  destruct (contains terms t) eqn:C.
  - pose proof (tf_term_positive preprocess_text docs terms t C) as Htf.
    assert (Hidf : (0 < idf docs t)%R).
    { apply idf_positive. apply H; [now left|]. now apply contains_true_iff. }
    nra.
  - destruct Hu as [->|Hu].
    + apply contains_true_iff in Hterm. congruence.
    + assert ((0 < bm25_sum (3 / 2) (3 / 4) docs terms rest)%R).
      { apply IH; [now exists u|]. intros v Hv. apply H. now right. }
      lra.
Qed.

Lemma bm25_sum_nonpositive (docs : list document) (terms q : list string) :
  (forall t, In t q -> In t terms ->
             (List.length docs <= 2 * df docs t)%nat) ->
  (bm25_sum (3 / 2) (3 / 4) docs terms q <= 0)%R.
Proof.
  induction q as [|t rest IH]; intros H; cbn [BM25.bm25_sum]; [lra|].
  assert (Hrest : (bm25_sum (3 / 2) (3 / 4) docs terms rest <= 0)%R)
    by (apply IH; intros u Hu; apply H; now right).
  destruct (contains terms t) eqn:C; [|lra].
  pose proof (tf_term_positive preprocess_text docs terms t C) as Htf.
  assert (Hidf : (idf docs t <= 0)%R).
  { apply idf_nonpositive. apply H; [now left|]. now apply contains_true_iff. }
  nra.
Qed.

(** The term-frequency factor grows with the count and shrinks with the
    length of the document. *)
Lemma tf_term_order (docs : list document) (terms terms' : list string)
  (t : string) :
  (0 < avg_len docs)%R ->
  (1 <= tf terms' t)%nat ->
  (tf terms' t <= tf terms t)%nat ->
  (List.length terms <= List.length terms')%nat ->
  (tf terms' t < tf terms t)%nat \/
  (List.length terms < List.length terms')%nat ->
  (tf_term (3 / 2) (3 / 4) docs terms' t
   < tf_term (3 / 2) (3 / 4) docs terms t)%R.
Proof.
  intros Havg Hpos Htf Hlen Hstrict. unfold BM25.tf_term.
  set (a := avg_len docs) in *.
  set (x := INR (tf terms t)). set (y := INR (tf terms' t)).
  set (L := INR (List.length terms)). set (L' := INR (List.length terms')).
  assert (Hy : (1 <= y)%R) by (subst y; apply (le_INR 1); exact Hpos).
  assert (Hxy : (y <= x)%R) by (subst x y; apply le_INR; exact Htf).
  assert (HL : (0 <= L)%R) by (subst L; apply pos_INR).
  assert (HLL : (L <= L')%R) by (subst L L'; apply le_INR; exact Hlen).
  assert (Hs : (y < x)%R \/ (L < L')%R).
  { destruct Hstrict as [H|H]; [left; subst x y | right; subst L L'];
      now apply lt_INR. }
  assert (Hia : (0 < / a)%R) by now apply Rinv_0_lt_compat.
  unfold Rdiv. set (ia := (/ a)%R) in *.
  assert (Hrel : (L * ia <= L' * ia)%R) by nra.
  assert (Hrel0 : (0 <= L * ia)%R) by nra.
  assert (Hrs : (y < x)%R \/ (L * ia < L' * ia)%R).
  { destruct Hs as [H|H]; [now left | right; nra]. }
  fold (Rdiv (y * (3 / 2 + 1))
          (y + 3 / 2 * (1 - 3 / 4 + 3 / 4 * (L' * ia)))).
  fold (Rdiv (x * (3 / 2 + 1))
          (x + 3 / 2 * (1 - 3 / 4 + 3 / 4 * (L * ia)))).
  apply Rdiv_lt_cross; [nra | nra |].
  set (u := (L * ia)%R) in *. set (v := (L' * ia)%R) in *.
  destruct Hrs as [H|H]; nra.
Qed.
End ScoreOrder.

Lemma positive_hits_length (preprocess_text : string -> list string)
  (docs : list document) (q : list string) (idxs : list nat) :
  (List.length (positive_hits preprocess_text docs q idxs)
   <= List.length idxs)%nat.
Proof.
  unfold positive_hits.
  eapply Nat.le_trans; [apply filter_length_le|]. now rewrite length_map.
Qed.

(** *** A worked ranking *)

(** Two lists sorted by a strict order and holding the same elements are
    equal. *)
Lemma sorted_unique {A : Type} (before : A -> A -> Prop) :
  (forall x, ~ before x x) ->
  (forall x y, before x y -> before y x -> False) ->
  forall l l' : list A,
    StronglySorted before l -> StronglySorted before l' ->
    (forall x, In x l <-> In x l') -> l = l'.
Proof.
  intros Hirr Hasym. induction l as [|a t IH]; intros l' Hl Hl' Heq.
  - destruct l' as [|a' t']; [reflexivity|].
    destruct (proj2 (Heq a') (or_introl eq_refl)).
  - destruct l' as [|a' t'];
      [destruct (proj1 (Heq a) (or_introl eq_refl))|].
    apply StronglySorted_inv in Hl. destruct Hl as (Ht & Ha).
    apply StronglySorted_inv in Hl'. destruct Hl' as (Ht' & Ha').
    rewrite Forall_forall in Ha, Ha'.
    assert (E : a = a').
    { destruct (proj1 (Heq a) (or_introl eq_refl)) as [E|Hin]; [now symmetry|].
      destruct (proj2 (Heq a') (or_introl eq_refl)) as [E|Hin']; [exact E|].
      exfalso. exact (Hasym a a' (Ha a' Hin') (Ha' a Hin)). }
    subst a'. f_equal. apply IH; [exact Ht | exact Ht'|].
    intros x. split; intros Hx.
    + destruct (proj1 (Heq x) (or_intror Hx)) as [E|Hin]; [|exact Hin].
      subst x. exfalso. exact (Hirr a (Ha a Hx)).
    + destruct (proj2 (Heq x) (or_intror Hx)) as [E|Hin]; [|exact Hin].
      subst x. exfalso. exact (Hirr a (Ha' a Hx)).
Qed.

Lemma ranks_before_irrefl (p : nat * R) : ~ ranks_before p p.
Proof. unfold ranks_before. intros [H|(_ & H)]; [lra | lia]. Qed.

Lemma ranks_before_asym (p q : nat * R) :
  ranks_before p q -> ranks_before q p -> False.
Proof. unfold ranks_before. intros [H|(E & H)] [H'|(E' & H')]; lra || lia. Qed.



(** X8.  A document that contains query terms, each of them occurring in
    fewer than half of the documents, has a strictly positive score, and
    keyword search returns it whenever [top_k] is at least the size of
    the corpus. *)
Theorem rare_terms_score_positive_and_returned :
  forall (preprocess_text : string -> list string)
         (source_preview : document -> string) (page_meta : string -> meta)
         (self : KeywordRetriever) (query : string) (i : nat) (doc : document),
    reachable preprocess_text self ->
    nth_error (documents self) i = Some doc ->
    (exists t, In t (preprocess_text query) /\
               In t (terms_of preprocess_text doc)) ->
    (forall t, In t (preprocess_text query) ->
               In t (terms_of preprocess_text doc) ->
               (2 * df preprocess_text (documents self) t
                < List.length (documents self))%nat) ->
    exists s,
      calculate_bm25_score self (preprocess_text query) i = Ok s /\
      (0 < s)%R /\
      forall top_k,
        (Z.of_nat (List.length (documents self)) <= top_k)%Z ->
        exists entries out,
          ranked self (preprocess_text query) top_k = Ok entries /\
          BM25.search preprocess_text source_preview page_meta self query top_k
          = Ok out /\
          Forall2 (shows source_preview (documents self)) out entries /\
          In (i, s) entries.
Proof.
  intros pre sp pm self query i doc Hreach Hnth Hex Hrare.
  destruct (reachable_is_index pre self Hreach) as (docs & ->).
  cbn [BM25.index_of documents] in *. fold (index_of pre docs).
  exists (bm25_sum pre (3 / 2) (3 / 4) docs (terms_of pre doc) (pre query)).
  split; [now apply score_on_index|].
  assert (Hpos : (0 < bm25_sum pre (3 / 2) (3 / 4) docs (terms_of pre doc)
                        (pre query))%R)
    by (now apply bm25_sum_positive).
  split; [exact Hpos|].
  intros top_k Htop.
  destruct (search_spec pre sp pm docs query top_k) as (out & Hout & Hshow).
  eexists. exists out. split; [apply ranked_spec|].
  split; [exact Hout|]. split; [exact Hshow|].
  rewrite slice_to_firstn by lia.
  rewrite firstn_all2.
  - apply sorted_desc_in. apply positive_hits_in.
    split; [|split; [|exact Hpos]].
    + apply in_seq.
      assert (i < List.length docs)%nat
        by (apply nth_error_Some; congruence). lia.
    + unfold doc_score. now rewrite Hnth.
  - rewrite (Permutation_length (sorted_desc_perm _ _ Rltb snd _)).
    pose proof (positive_hits_length pre docs (pre query)
                  (seq 0 (List.length docs))) as Hlen.
    rewrite length_seq in Hlen. lia.
Qed.

(** X9.  On a corpus of at most two documents keyword search returns
    nothing, whatever the query: a term that occurs at all occurs in at
    least half of the documents, so no score is positive. *)
Theorem keyword_search_small_corpus_is_empty :
  forall (preprocess_text : string -> list string)
         (source_preview : document -> string) (page_meta : string -> meta)
         (self : KeywordRetriever) (query : string) (top_k : Z),
    reachable preprocess_text self ->
    (List.length (documents self) <= 2)%nat ->
    BM25.search preprocess_text source_preview page_meta self query top_k
    = Ok [].
Proof.
  intros pre sp pm self query top_k Hreach Hsmall.
  destruct (reachable_is_index pre self Hreach) as (docs & ->).
  cbn [BM25.index_of documents] in *. fold (index_of pre docs).
  destruct (search_spec pre sp pm docs query top_k) as (out & Hout & Hshow).
  assert (Hnone : positive_hits pre docs (pre query) (seq 0 (List.length docs))
                  = []).
  { destruct (positive_hits pre docs (pre query) (seq 0 (List.length docs)))
      as [|[i s] rest] eqn:E; [reflexivity|].
    assert (Hin : In (i, s) (positive_hits pre docs (pre query)
                               (seq 0 (List.length docs))))
      by (rewrite E; now left).
    apply positive_hits_in in Hin. destruct Hin as (_ & Hs & Hpos).
    unfold doc_score in Hs.
    destruct (nth_error docs i) as [doc|] eqn:Hnth; [|lra].
    assert (Hle : (bm25_sum pre (3 / 2) (3 / 4) docs (terms_of pre doc)
                     (pre query) <= 0)%R).
    { apply bm25_sum_nonpositive. intros t _ Ht.
      pose proof (df_pos pre docs doc t (nth_error_In _ _ Hnth) Ht). lia. }
    lra. }
  rewrite Hnone in Hshow. cbn [sorted_desc] in Hshow.
  rewrite slice_to_nil in Hshow. inversion Hshow; subst. exact Hout.
Qed.

Lemma keyword_search_small_corpus_example :
  reachable words
    (index_of words [plain_doc "value labour"; plain_doc "price"]) /\
  BM25.search words doc_content (fun _ => [])
    (index_of words [plain_doc "value labour"; plain_doc "price"])
    "value" 5 = Ok [].
Proof.
  split; [apply index_of_reachable|].
  apply (keyword_search_small_corpus_is_empty words doc_content (fun _ => [])).
  - apply index_of_reachable.
  - simpl. lia.
Defined.

(** X10.  For a query of one term that occurs in fewer than half of the
    documents, of two documents containing it the one with at least as
    many occurrences and at most as many tokens, one of the two strictly,
    scores strictly higher; both scores are positive. *)
Theorem bm25_prefers_more_occurrences_and_shorter_documents :
  forall (preprocess_text : string -> list string) (self : KeywordRetriever)
         (t : string) (i j : nat) (doc_i doc_j : document),
    reachable preprocess_text self ->
    nth_error (documents self) i = Some doc_i ->
    nth_error (documents self) j = Some doc_j ->
    In t (terms_of preprocess_text doc_j) ->
    (2 * df preprocess_text (documents self) t
     < List.length (documents self))%nat ->
    (tf (terms_of preprocess_text doc_j) t
     <= tf (terms_of preprocess_text doc_i) t)%nat ->
    (List.length (terms_of preprocess_text doc_i)
     <= List.length (terms_of preprocess_text doc_j))%nat ->
    (tf (terms_of preprocess_text doc_j) t
     < tf (terms_of preprocess_text doc_i) t)%nat \/
    (List.length (terms_of preprocess_text doc_i)
     < List.length (terms_of preprocess_text doc_j))%nat ->
    exists s_i s_j,
      calculate_bm25_score self [t] i = Ok s_i /\
      calculate_bm25_score self [t] j = Ok s_j /\
      (0 < s_j < s_i)%R.
Proof.
  intros pre self t i j di dj Hreach Hi Hj Htj Hrare Htf Hlen Hstrict.
  destruct (reachable_is_index pre self Hreach) as (docs & ->).
  cbn [BM25.index_of documents] in *. fold (index_of pre docs).
  rewrite (score_on_index pre docs [t] i di Hi).
  rewrite (score_on_index pre docs [t] j dj Hj).
  do 2 eexists. split; [reflexivity|]. split; [reflexivity|].
  cbn [bm25_sum].
  assert (Cj : contains (terms_of pre dj) t = true)
    by (now apply contains_true_iff).
  pose proof (contains_tf_pos _ _ Cj) as Hposj.
  assert (Ci : contains (terms_of pre di) t = true).
  { apply contains_true_iff. apply (count_occ_In string_dec).
    unfold tf in *. lia. }
  rewrite Ci, Cj.
  pose proof (idf_positive pre docs t Hrare) as Hidf.
  pose proof (tf_term_positive pre docs _ t Cj) as Htj0.
  assert (Havg : (0 < avg_len pre docs)%R).
  { apply (avg_len_pos pre docs dj (nth_error_In _ _ Hj)).
    intros E. rewrite E in Htj. exact Htj. }
  pose proof (tf_term_order pre docs (terms_of pre di) (terms_of pre dj) t
                Havg Hposj Htf Hlen Hstrict) as Hord.
  nra.
Qed.

Import BM25More.

Lemma rare_terms_score_positive_example :
  reachable words (index_of words example_corpus) /\
  nth_error (documents (index_of words example_corpus)) 1
  = Some (plain_doc "price market") /\
  exists s,
    calculate_bm25_score (index_of words example_corpus) (words "price") 1
    = Ok s /\
    (0 < s)%R /\
    forall top_k,
      (Z.of_nat (List.length (documents (index_of words example_corpus)))
       <= top_k)%Z ->
      exists entries out,
        ranked (index_of words example_corpus) (words "price") top_k
        = Ok entries /\
        BM25.search words doc_content (fun _ => [])
          (index_of words example_corpus) "price" top_k = Ok out /\
        Forall2 (shows doc_content (documents (index_of words example_corpus)))
          out entries /\
        In (1%nat, s) entries.
Proof.
  split; [apply index_of_reachable|]. split; [reflexivity|].
  apply (rare_terms_score_positive_and_returned words doc_content
           (fun _ => []) (index_of words example_corpus) "price" 1
           (plain_doc "price market")).
  - apply index_of_reachable.
  - reflexivity.
  - exists "price"%string. split; vm_compute; auto.
  - intros t Hq _. vm_compute in Hq. destruct Hq as [<-|[]].
    vm_compute. lia.
Defined.

Lemma bm25_prefers_more_occurrences_example :
  reachable words (index_of words ranking_corpus) /\
  exists s_i s_j,
    calculate_bm25_score (index_of words ranking_corpus) ["tax"%string] 0
    = Ok s_i /\
    calculate_bm25_score (index_of words ranking_corpus) ["tax"%string] 1
    = Ok s_j /\
    (0 < s_j < s_i)%R.
Proof.
  split; [apply index_of_reachable|].
  apply (bm25_prefers_more_occurrences_and_shorter_documents words
           (index_of words ranking_corpus) "tax" 0 1 (plain_doc "tax tax")
           (plain_doc "tax law court")).
  - apply index_of_reachable.
  - reflexivity.
  - reflexivity.
  - vm_compute. auto.
  - vm_compute. lia.
  - vm_compute. lia.
  - vm_compute. lia.
  - left. vm_compute. lia.
Defined.

(** ** Further properties of the vector adapter *)

Section AdapterAnyHash.
Variable hash : string -> Z.

Lemma collect_fold_hashes (raw_results : list raw_item) :
  forall (results : list (result_item R)) (seen : list Z),
    seen = rev (map (fun r => hash (content r)) results) ->
    NoDup seen ->
    let out := fst (fold_left (collect_step hash) raw_results (results, seen)) in
    NoDup (map (fun r => hash (content r)) out) /\
    (exists added,
        out = results ++ added /\
        forall r, In r added ->
                  In r (normalized raw_results) /\ content r <> EmptyString) /\
    (forall r, In r (normalized raw_results) -> content r <> EmptyString ->
               In (hash (content r)) (map (fun r' => hash (content r')) out)).
Proof.
  induction raw_results as [|item rest IH]; intros results seen Hseen Hnd;
    cbn zeta; cbn [fold_left].
  - cbn [fst]. split; [|split].
    + apply NoDup_rev in Hnd. rewrite Hseen, rev_involutive in Hnd. exact Hnd.
    + exists []. split; [now rewrite app_nil_r | intros r []].
    + intros r [].
  - unfold normalized. cbn [flat_map]. fold (normalized rest).
    unfold collect_step at 2 4 6.
    destruct (normalize item) as [[[[c source] sc] md]|].
    + destruct (str_truthy c) eqn:T; cbn [andb].
      * destruct (existsb (Z.eqb (hash c)) seen) eqn:S; cbn [negb].
        -- destruct (IH results seen Hseen Hnd) as (H1 & (added & H2 & H3) & H4).
           cbn zeta in *. split; [exact H1|]. split.
           ++ exists added. split; [exact H2|]. intros r Hr.
              destruct (H3 r Hr) as (Ha & Hb). split; [|exact Hb].
              apply in_or_app. now right.
           ++ intros r Hr Hne. apply in_app_or in Hr.
              destruct Hr as [[<-|[]]|Hr]; [|now apply H4].
              cbn [content]. apply existsb_exists in S.
              destruct S as (h & Hh & E). apply Z.eqb_eq in E. subst h.
              rewrite Hseen in Hh. apply in_rev in Hh.
              apply in_map_iff in Hh. destruct Hh as (r0 & E0 & Hr0).
              rewrite <- E0. apply in_map_iff. exists r0. split; [reflexivity|].
              rewrite H2. apply in_or_app. now left.
        -- destruct (IH (results ++ [mk_item source c md sc None None None])
                        (hash c :: seen)) as (H1 & (added & H2 & H3) & H4).
           { rewrite map_app, rev_app_distr. cbn. now rewrite Hseen. }
           { constructor; [|exact Hnd]. intros Hin.
             apply not_true_iff_false in S. apply S.
             apply existsb_exists. exists (hash c).
             split; [exact Hin | apply Z.eqb_refl]. }
           cbn zeta in *. split; [exact H1|]. split.
           ++ exists (mk_item source c md sc None None None :: added).
              split; [now rewrite H2, <- app_assoc|].
              intros r [<-|Hr].
              ** split; [apply in_or_app; left; now left|]. cbn [content].
                 intros E. rewrite E in T. discriminate.
              ** destruct (H3 r Hr) as (Ha & Hb). split; [|exact Hb].
                 apply in_or_app. now right.
           ++ intros r Hr Hne. apply in_app_or in Hr.
              destruct Hr as [[<-|[]]|Hr]; [|now apply H4].
              cbn [content]. apply in_map_iff.
              exists (mk_item source c md sc None None None).
              split; [reflexivity|]. rewrite H2.
              apply in_or_app. left. apply in_or_app. right. now left.
      * destruct (IH results seen Hseen Hnd) as (H1 & (added & H2 & H3) & H4).
        cbn zeta in *. split; [exact H1|]. split.
        -- exists added. split; [exact H2|]. intros r Hr.
           destruct (H3 r Hr) as (Ha & Hb). split; [|exact Hb].
           apply in_or_app. now right.
        -- intros r Hr Hne. apply in_app_or in Hr.
           destruct Hr as [[<-|[]]|Hr]; [|now apply H4].
           cbn [content] in Hne. destruct c; [congruence | discriminate].
    + cbn [app]. apply IH; assumption.
Qed.
End AdapterAnyHash.

(** X11.  Whatever the hash function, the vector adapter returns no two
    records whose contents have the same hash, hence no content twice;
    every record it returns is one of the records received, in canonical
    form and of non-empty content; and every non-empty content received
    is represented in the result by a record of the same hash. *)
Theorem vector_adapter_distinct_for_any_hash :
  forall (hash : string -> Z) (self : VecRetriever) (question : string)
         (top_k : Z) (raw_results : list raw_item),
    Vec.vector_retriever self question top_k (1 # 2) = Ok raw_results ->
    exists out,
      Vec.search hash self question top_k = Ok out /\
      NoDup (map (fun r => hash (content r)) out) /\
      NoDup (map content out) /\
      (forall r, In r out ->
                 In r (normalized raw_results) /\ content r <> EmptyString) /\
      (forall r, In r (normalized raw_results) -> content r <> EmptyString ->
                 exists r', In r' out /\ hash (content r') = hash (content r)).
Proof.
  intros hash self question top_k raw Hraw.
  exists (collect hash raw).
  split; [unfold Vec.search; now rewrite Hraw|].
  destruct (collect_fold_hashes hash raw [] [] eq_refl (NoDup_nil _))
    as (Hnd & (added & Hout & Hadded) & Hall).
  cbn zeta in *. fold (collect hash raw) in Hnd, Hout, Hall.
  cbn [app] in Hout. subst added.
  split; [exact Hnd|]. split; [|split; [exact Hadded|]].
  - rewrite <- (map_map content hash) in Hnd.
    now apply NoDup_map_inv in Hnd.
  - intros r Hr Hne. specialize (Hall r Hr Hne).
    apply in_map_iff in Hall. destruct Hall as (r' & E & Hr').
    now exists r'.
Qed.

Lemma vector_adapter_distinct_example :
  Vec.vector_retriever example_retriever "q" 5 (1 # 2) = Ok example_raw /\
  exists out,
    Vec.search (fun _ => 0%Z) example_retriever "q" 5 = Ok out /\
    NoDup (map (fun r => (fun _ : string => 0%Z) (content r)) out) /\
    NoDup (map content out) /\
    (forall r, In r out ->
               In r (normalized example_raw) /\ content r <> EmptyString) /\
    (forall r, In r (normalized example_raw) -> content r <> EmptyString ->
               exists r', In r' out /\ 0%Z = 0%Z).
Proof.
  split; [reflexivity|].
  apply (vector_adapter_distinct_for_any_hash (fun _ => 0%Z) example_retriever
           "q" 5%Z example_raw).
  reflexivity.
Defined.

(** ** Further properties of the external reranker and the orchestrator *)

Import HybridMore.

Lemma reorder_entries (results : list (result_item R))
  (data : list resp_item) : forall rank,
  List.length (reorder results data rank)
  = List.length (filter (valid_entry (List.length results)) data) /\
  (forall r, In r (reorder results data rank) ->
     exists pos item idx r0,
       nth_error data pos = Some item /\
       index item = Some idx /\
       nth_error results (Z.to_nat idx) = Some r0 /\
       (0 <= idx < Z.of_nat (List.length results))%Z /\
       r = reranked r0 item (rank + Z.of_nat pos)) /\
  StronglySorted position_lt (reorder results data rank).
Proof.
  induction data as [|item rest IH]; intros rank; cbn [reorder filter].
  - split; [reflexivity|]. split; [intros r [] | constructor].
  - destruct (IH (rank + 1)%Z) as (Hlen & Hin & Hsorted).
    assert (Hshift : forall r, In r (reorder results rest (rank + 1)) ->
              exists pos item0 idx r0,
                nth_error (item :: rest) pos = Some item0 /\
                index item0 = Some idx /\
                nth_error results (Z.to_nat idx) = Some r0 /\
                (0 <= idx < Z.of_nat (List.length results))%Z /\
                r = reranked r0 item0 (rank + Z.of_nat pos)).
    { intros r Hr. destruct (Hin r Hr) as (pos & it & idx & r0 & H1 & H2 & H3 & H4 & H5).
      exists (S pos), it, idx, r0. repeat split; try assumption; try lia.
      rewrite H5. f_equal. lia. }
    unfold valid_entry at 1.
    destruct (index item) as [idx|] eqn:Hidx; [|auto].
    destruct (Z.leb_spec 0 idx); destruct (Z.ltb_spec idx (Z.of_nat (List.length results)));
      cbn [andb]; auto.
    destruct (nth_error results (Z.to_nat idx)) as [r0|] eqn:Hnth.
    + cbn [List.length]. split; [now rewrite Hlen|]. split.
      * intros r [<-|Hr]; [|now apply Hshift].
        exists 0%nat, item, idx, r0. cbn [nth_error].
        repeat split; try assumption; try lia.
        unfold reranked. now rewrite Z.add_0_r.
      * constructor; [exact Hsorted|].
        apply Forall_forall. intros r Hr.
        destruct (Hin r Hr) as (pos & it & idx' & r1 & _ & _ & _ & _ & ->).
        unfold position_lt. cbn. lia.
    + apply nth_error_None in Hnth. lia.
Qed.

(** X12.  The external reranker invents nothing.  When it returns, either
    it was given no results and returns none without calling the service,
    or the service was asked for [min(top_n or n, n)] entries over the [n]
    results and every returned record is one of the results, chosen by the
    index of an entry of the answer, unchanged but for the entry's score
    and for its 1-based place in the answer as [rerank_position]; entries
    whose index is missing or out of range are skipped, so the places can
    have gaps, and they increase along the returned list. *)
Theorem external_rerank_selects_results :
  forall (self : PineconeCohereReranker) (query : string)
         (results : list (result_item R)) (top_n : option Z)
         (out : list (result_item R)),
    rerank self query results top_n = Ok out ->
    (results = [] /\ out = []) \/
    exists data,
      inference_rerank (_client self) (_model self) query
        (build_documents results 0)
        (requested top_n (Z.of_nat (List.length results))) = Ok data /\
      List.length out
      = List.length (filter (valid_entry (List.length results)) data) /\
      (forall r, In r out ->
         exists pos item idx r0,
           nth_error data pos = Some item /\
           index item = Some idx /\
           nth_error results (Z.to_nat idx) = Some r0 /\
           (0 <= idx < Z.of_nat (List.length results))%Z /\
           r = reranked r0 item (1 + Z.of_nat pos)) /\
      StronglySorted position_lt out.
Proof.
  intros self query results top_n out. unfold rerank.
  destruct results as [|x rest] eqn:D; [intros [= <-]; now left|].
  rewrite <- D. intros H. right.
  unfold requested. rewrite <- (build_documents_length results 0).
  destruct (inference_rerank _ _ _ _ _) as [data|e]; cbn [bind] in H;
    [|discriminate].
  inversion H; subst out. exists data. split; [reflexivity|].
  rewrite build_documents_length. apply reorder_entries.
Qed.

Lemma external_rerank_selects_results_example :
  exists out,
    rerank echo_reranker "q" [one_hit; one_hit] (Some 1%Z) = Ok out /\
    ( ([one_hit; one_hit] = [] /\ out = []) \/
      exists data,
        inference_rerank (_client echo_reranker) (_model echo_reranker) "q"
          (build_documents [one_hit; one_hit] 0)
          (requested (Some 1%Z) (Z.of_nat (List.length [one_hit; one_hit])))
        = Ok data /\
        List.length out
        = List.length
            (filter (valid_entry (List.length [one_hit; one_hit])) data) /\
        (forall r, In r out ->
           exists pos item idx r0,
             nth_error data pos = Some item /\
             index item = Some idx /\
             nth_error [one_hit; one_hit] (Z.to_nat idx) = Some r0 /\
             (0 <= idx < Z.of_nat (List.length [one_hit; one_hit]))%Z /\
             r = reranked r0 item (1 + Z.of_nat pos)) /\
        StronglySorted position_lt out ).
Proof.
  eexists. split; [reflexivity|].
  apply (external_rerank_selects_results echo_reranker "q" [one_hit; one_hit]
           (Some 1%Z)).
  reflexivity.
Defined.

(** *** [strip] *)

Lemma lstrip_eq (s : string) :
  lstrip s = match space_prefix s with Some r => lstrip r | None => s end.
Proof.
  destruct s as [|c1 r1]; [reflexivity|]. cbn [lstrip space_prefix].
  destruct (is_space1 c1); [reflexivity|].
  destruct r1 as [|c2 r2]; [reflexivity|].
  destruct (is_space2 c1 c2); [reflexivity|].
  destruct r2 as [|c3 r3]; [reflexivity|].
  destruct (is_space3 c1 c2 c3); reflexivity.
Qed.

Lemma space_prefix_app (s r x : string) :
  space_prefix s = Some r -> space_prefix (s ++ x) = Some (r ++ x)%string.
Proof.
  destruct s as [|c1 [|c2 [|c3 r3]]]; cbn [space_prefix append];
    repeat match goal with
           | |- context [if ?b then _ else _] => destruct b
           end; intros [= <-]; reflexivity || discriminate.
Qed.

Lemma space_prefix_length (s r : string) :
  space_prefix s = Some r -> (String.length r < String.length s)%nat.
Proof.
  destruct s as [|c1 [|c2 [|c3 r3]]]; cbn [space_prefix];
    repeat match goal with
           | |- context [if ?b then _ else _] => destruct b
           end; intros [= <-]; cbn [String.length]; lia.
Qed.

Lemma string_length_ind (P : string -> Prop) :
  (forall s, (forall r, (String.length r < String.length s)%nat -> P r) -> P s) ->
  forall s, P s.
Proof.
  intros H s.
  assert (G : forall n r, (String.length r < n)%nat -> P r).
  { induction n as [|n IH]; intros r Hr; [lia|].
    apply H. intros r' Hr'. apply IH. lia. }
  exact (G (S (String.length s)) s (Nat.lt_succ_diag_r _)).
Qed.

Lemma lstrip_head (s : string) : space_prefix (lstrip s) = None.
Proof.
  induction s as [s IH] using string_length_ind.
  rewrite lstrip_eq. destruct (space_prefix s) as [r|] eqn:E; [|exact E].
  apply IH. now apply space_prefix_length.
Qed.

Lemma lstrip_fixed (s : string) : space_prefix s = None -> lstrip s = s.
Proof. intros E. now rewrite lstrip_eq, E. Qed.

Lemma lstrip_app (a x : string) :
  lstrip a = EmptyString -> lstrip (a ++ x) = lstrip x.
Proof.
  induction a as [a IH] using string_length_ind. intros Ha.
  rewrite lstrip_eq in Ha. destruct (space_prefix a) as [r|] eqn:E.
  - rewrite (lstrip_eq (a ++ x)), (space_prefix_app _ _ x E).
    apply IH; [now apply space_prefix_length | exact Ha].
  - subst a. reflexivity.
Qed.

Lemma rstrip_split (s : string) :
  exists w, s = (rstrip s ++ w)%string /\ all_space w = true.
Proof.
  induction s as [|c rest IH]; [now exists EmptyString|].
  cbn [rstrip]. destruct (all_space (String c rest)) eqn:A.
  - now exists (String c rest).
  - destruct IH as (w & E & Hw). exists w. cbn [append]. now rewrite <- E.
Qed.

Lemma all_space_true (s : string) : all_space s = true <-> lstrip s = EmptyString.
Proof.
  unfold all_space. destruct (lstrip s); cbn; split; congruence.
Qed.

Lemma all_space_app (a w : string) :
  all_space a = true -> all_space w = true -> all_space (a ++ w) = true.
Proof.
  rewrite !all_space_true. intros Ha Hw. now rewrite lstrip_app.
Qed.

Lemma rstrip_idem (s : string) : rstrip (rstrip s) = rstrip s.
Proof.
  induction s as [|c rest IH]; [reflexivity|].
  cbn [rstrip]. destruct (all_space (String c rest)) eqn:A; [reflexivity|].
  cbn [rstrip]. rewrite IH.
  destruct (all_space (String c (rstrip rest))) eqn:A'; [|reflexivity].
  destruct (rstrip_split rest) as (w & E & Hw).
  pose proof (all_space_app _ _ A' Hw) as H. cbn [append] in H.
  rewrite <- E in H. congruence.
Qed.

Lemma space_prefix_of_prefix (p x : string) :
  space_prefix (p ++ x) = None -> space_prefix p = None.
Proof.
  intros H. destruct (space_prefix p) as [r|] eqn:E; [|reflexivity].
  rewrite (space_prefix_app _ _ x E) in H. discriminate.
Qed.

Lemma strip_idem (s : string) : strip (strip s) = strip s.
Proof.
  unfold strip. pose proof (lstrip_head s) as H.
  destruct (rstrip_split (lstrip s)) as (w & E & _).
  rewrite E in H. apply space_prefix_of_prefix in H.
  rewrite (lstrip_fixed _ H). apply rstrip_idem.
Qed.

Lemma plain_byte_tests (c : ascii) :
  plain_byte c = true ->
  is_space1 c = false /\
  forall lo hi, (128 <= lo)%nat -> byte_in lo hi c = false.
Proof.
  unfold plain_byte, byte_in. cbv zeta. intros H.
  apply andb_true_iff in H. destruct H as (H1 & H2).
  apply negb_true_iff in H1. apply Nat.ltb_lt in H2.
  split; [exact H1|]. intros lo hi Hlo.
  apply andb_false_iff. left. apply Nat.leb_gt. lia.
Qed.

Lemma space_prefix_keeps (c : ascii) (x t r : string) :
  plain_byte c = true ->
  space_prefix (x ++ String c t) = Some r ->
  exists x', r = (x' ++ String c t)%string /\ (String.length x' < String.length x)%nat.
Proof.
  intros Hc. destruct (plain_byte_tests c Hc) as (H1 & Hb).
  assert (B : forall n, (128 <= n)%nat -> byte_in n n c = false)
    by (intros n Hn; now apply Hb).
  assert (H2 : forall a, is_space2 a c = false).
  { intros a. unfold is_space2. rewrite !B by lia. apply andb_false_r. }
  assert (H3 : forall a a', is_space3 a c a' = false).
  { intros a a'. unfold is_space3. rewrite !B by lia.
    rewrite !andb_false_r. reflexivity. }
  assert (H3' : forall a a', is_space3 a a' c = false).
  { intros a a'. unfold is_space3. rewrite !B, !Hb by lia.
    rewrite !andb_false_r. reflexivity. }
  assert (H2' : forall a, is_space2 c a = false).
  { intros a. unfold is_space2. now rewrite B by lia. }
  assert (H3'' : forall a a', is_space3 c a a' = false).
  { intros a a'. unfold is_space3. rewrite !B by lia. reflexivity. }
  destruct x as [|a1 [|a2 [|a3 x3]]]; cbn [append space_prefix].
  - rewrite H1. destruct t as [|b1 [|b2 t2]];
      rewrite ?H2', ?H3''; discriminate.
  - destruct (is_space1 a1).
    + intros [= <-]. exists EmptyString. cbn. split; [reflexivity | lia].
    + rewrite H2. destruct t as [|b1 t1]; rewrite ?H3; discriminate.
  - destruct (is_space1 a1).
    + intros [= <-]. exists (String a2 EmptyString). cbn. split; [reflexivity | lia].
    + destruct (is_space2 a1 a2).
      * intros [= <-]. exists EmptyString. cbn. split; [reflexivity | lia].
      * rewrite H3'. discriminate.
  - destruct (is_space1 a1).
    + intros [= <-]. exists (String a2 (String a3 x3)). cbn. split; [reflexivity | lia].
    + destruct (is_space2 a1 a2).
      * intros [= <-]. exists (String a3 x3). cbn. split; [reflexivity | lia].
      * destruct (is_space3 a1 a2 a3); [|discriminate].
        intros [= <-]. exists x3. cbn. split; [reflexivity | lia].
Qed.

Lemma all_space_plain (c : ascii) (t : string) :
  plain_byte c = true ->
  forall x, all_space (x ++ String c t) = false.
Proof.
  intros Hc x. induction x as [x IH] using string_length_ind.
  unfold all_space. rewrite lstrip_eq.
  destruct (space_prefix (x ++ String c t)) as [r|] eqn:E.
  - destruct (space_prefix_keeps c x t r Hc E) as (x' & -> & Hlen).
    exact (IH x' Hlen).
  - destruct x; reflexivity.
Qed.

Lemma rstrip_app_plain (c : ascii) (t : string) :
  plain_byte c = true ->
  forall pre, rstrip (pre ++ String c t) = (pre ++ String c (rstrip t))%string.
Proof.
  intros Hc pre. induction pre as [|a pre IH].
  - pose proof (all_space_plain c t Hc EmptyString) as H.
    cbn [append rstrip] in *. now rewrite H.
  - pose proof (all_space_plain c t Hc (String a pre)) as H.
    cbn [append rstrip] in *. now rewrite H, IH.
Qed.

Lemma lstrip_plain (c : ascii) (t : string) :
  plain_byte c = true -> lstrip (String c t) = String c t.
Proof.
  intros Hc. apply lstrip_fixed.
  destruct (space_prefix (String c t)) as [r|] eqn:E; [|reflexivity].
  destruct (space_prefix_keeps c EmptyString t r Hc E) as (x' & _ & Hlen).
  cbn in Hlen. lia.
Qed.

(** *** Installing the external reranker *)

(** X13.  The retrieval manager installs an external reranker exactly
    when reranking is enabled, the key (the explicit one when it is given
    and not empty, else the environment's), once stripped, is not empty,
    the [Pinecone] class is available and its constructor accepts the
    stripped key; the reranker then holds that client and the configured
    model.  In particular an explicit key that is blank but not empty
    yields no reranker, whatever the environment holds. *)
Theorem external_reranker_installed_iff :
  forall (Pinecone : option (string -> Py.result PineconeClient))
         (cfg : RAGConfig) (pinecone_api_key : option string)
         (env_key : string),
    let given :=
      strip (str_or (or_default pinecone_api_key EmptyString) env_key) in
    exists ext,
      make_external_reranker Pinecone cfg pinecone_api_key env_key = Ok ext /\
      (forall r,
          ext = Some r <->
          enable_reranking cfg = true /\
          given <> EmptyString /\
          exists new_client c,
            Pinecone = Some new_client /\
            new_client given = Ok c /\
            r = {| _client := c; _model := reranker_model cfg |}) /\
      (forall key,
          pinecone_api_key = Some key -> key <> EmptyString ->
          is_blank key = true -> ext = None).
Proof.
  intros Pinecone cfg key env_key given.
  unfold make_external_reranker. fold given.
  assert (Hidem : strip given = given) by apply strip_idem.
  destruct (enable_reranking cfg) eqn:En.
  - destruct (str_truthy given) eqn:T.
    + unfold PineconeCohereReranker_init. rewrite Hidem, T. cbn [negb].
      assert (Hne : given <> EmptyString)
        by (intros E; rewrite E in T; discriminate).
      destruct Pinecone as [new_client|]; cbn [bind try_except].
      * destruct (new_client given) as [c|e] eqn:Hc; cbn [bind try_except].
        -- eexists. split; [reflexivity|]. split.
           ++ intros r. split.
              ** intros [= <-]. split; [reflexivity|]. split; [exact Hne|].
                 exists new_client, c. auto.
              ** intros (_ & _ & nc & c' & [= <-] & Hc' & ->).
                 rewrite Hc in Hc'. now inversion Hc'.
           ++ intros s -> Hs Hb. exfalso. unfold given in T.
              cbn [or_default] in T. destruct s; [congruence|].
              cbn [str_or] in T. unfold is_blank in Hb.
              rewrite T in Hb. discriminate.
        -- exists None. split; [reflexivity|]. split; [|reflexivity].
           intros r. split; [discriminate|].
           intros (_ & _ & nc & c' & [= <-] & Hc' & _). congruence.
      * exists None. split; [reflexivity|]. split; [|reflexivity].
        intros r. split; [discriminate|].
        intros (_ & _ & nc & c' & Hnone & _). discriminate.
    + exists None. split; [reflexivity|]. split; [|reflexivity].
      intros r. split; [discriminate|]. intros (_ & Hne & _).
      destruct given; [congruence | discriminate].
  - exists None. split; [reflexivity|]. split; [|reflexivity].
    intros r. split; [discriminate|]. intros (H & _). discriminate.
Qed.

Lemma external_reranker_installed_example :
  exists ext,
    make_external_reranker (Some (fun _ => Ok echo_client)) RAGConfig_default
      (Some (ideographic_space ++ " " ++ no_break_space)%string) "valid-key"
    = Ok ext /\
    ext = None.
Proof.
  destruct (external_reranker_installed_iff (Some (fun _ => Ok echo_client))
              RAGConfig_default
              (Some (ideographic_space ++ " " ++ no_break_space)%string)
              "valid-key")
    as (ext & Hmake & _ & Hblank).
  exists ext. split; [exact Hmake|].
  apply (Hblank (ideographic_space ++ " " ++ no_break_space)%string);
    [reflexivity | discriminate | reflexivity].
Defined.

(** *** Which errors a search can raise *)

Lemma rerank_with_weights_total {Sc : Type} (self : RRFReranker)
  (lists : list (list (result_item Sc))) (weights : list Q) (top_k : Z) :
  List.length lists = List.length weights ->
  (0 <= k self)%Z ->
  exists out, rerank_with_weights self lists weights top_k = Ok out.
Proof.
  intros Hlen Hk.
  destruct (rrf_accumulate self (combine lists weights) Hk)
    as (ds & di & E & Hinv & _).
  destruct (rrf_format_spec ds di (slice_to (sorted_desc Qltb snd ds) top_k)
              Hinv) as (out & Hfmt & _).
  { intros e He. apply slice_to_incl in He. now apply sorted_desc_in in He. }
  exists out. unfold rerank_with_weights.
  rewrite Hlen, Nat.eqb_refl. cbn [negb]. rewrite E. exact Hfmt.
Qed.

Lemma keyword_search_total (preprocess_text : string -> list string)
  (source_preview : document -> string) (page_meta : string -> meta)
  (self : KeywordRetriever) (query : string) (top_k : Z) :
  reachable preprocess_text self ->
  exists out,
    BM25.search preprocess_text source_preview page_meta self query top_k
    = Ok out.
Proof.
  intros Hreach.
  destruct (reachable_is_index preprocess_text self Hreach) as (docs & ->).
  destruct (search_spec preprocess_text source_preview page_meta docs query
              top_k) as (out & Hout & _).
  now exists out.
Qed.

Lemma manager_keyword_retriever_reachable
  (preprocess_text : string -> list string)
  (Pinecone : option (string -> Py.result PineconeClient)) (cfg : RAGConfig)
  (load : Py.result (list document)) (vr : VecRetriever)
  (pinecone_api_key : option string) (env_key : string)
  (mgr : RetrievalManager) :
  RetrievalManager_init preprocess_text Pinecone cfg load vr pinecone_api_key
    env_key = Ok mgr ->
  reachable preprocess_text (keyword_retriever (hybrid_retriever mgr)) /\
  k (reranker (hybrid_retriever mgr)) = rrf_k cfg /\
  Hybrid.vector_retriever (hybrid_retriever mgr) = vr /\
  vector_weight (hybrid_retriever mgr) = cfg_vector_weight cfg /\
  keyword_weight (hybrid_retriever mgr) = cfg_keyword_weight cfg.
Proof.
  unfold RetrievalManager_init. cbn [KeywordRetriever_init bind].
  set (kr0 := {| documents := []; document_terms := []; term_doc_freq := [];
                 avg_doc_length := 0; doc_lengths := [];
                 k1 := 3 / 2; b := 3 / 4 |}).
  assert (H0 : reachable preprocess_text kr0)
    by (apply (reach_init preprocess_text None); reflexivity).
  destruct (initialize_keyword_retriever preprocess_text kr0 load)
    as [kr|e] eqn:Hkr; cbn [bind]; [|discriminate].
  assert (Hreach : reachable preprocess_text kr).
  { unfold initialize_keyword_retriever in Hkr.
    destruct load as [[|doc rest]|e]; cbn [bind try_except] in Hkr.
    - inversion Hkr; subst. exact H0.
    - destruct (add_documents preprocess_text kr0 (doc :: rest)) as [kr'|e]
        eqn:Hadd; cbn [try_except] in Hkr; inversion Hkr; subst.
      + eapply reach_add; [exact H0 | exact Hadd].
      + exact H0.
    - inversion Hkr; subst. exact H0. }
  destruct (make_external_reranker Pinecone cfg pinecone_api_key env_key)
    as [ext|e]; cbn [bind]; [|discriminate].
  intros [= <-]. cbn. auto.
Qed.

(** X14.  A system built by the retrieval manager with [rrf_k >= 0]
    answers every query for which the dense search returns and, when an
    external reranker is installed, the remote service answers: keyword
    search and fusion never fail on their own. *)
Theorem manager_search_fails_only_upstream :
  forall (hash : string -> Z) (preprocess_text : string -> list string)
         (source_preview : document -> string) (page_meta : string -> meta)
         (Pinecone : option (string -> Py.result PineconeClient))
         (cfg : RAGConfig) (load : Py.result (list document))
         (vr : VecRetriever) (pinecone_api_key : option string)
         (env_key : string) (mgr : RetrievalManager)
         (query : string) (top_k : Z) (raw_results : list raw_item),
    RetrievalManager_init preprocess_text Pinecone cfg load vr
      pinecone_api_key env_key = Ok mgr ->
    (0 <= rrf_k cfg)%Z ->
    Vec.vector_retriever vr query top_k (1 # 2) = Ok raw_results ->
    (forall ext documents n,
        external_reranker (hybrid_retriever mgr) = Some ext ->
        exists data,
          inference_rerank (_client ext) (_model ext) query documents n
          = Ok data) ->
    exists out,
      manager_search hash preprocess_text source_preview page_meta mgr query
        top_k = Ok out.
Proof.
  intros hash pre sp pm Pinecone cfg load vr key env_key mgr query top_k raw
         Hinit Hk Hraw Hremote.
  destruct (manager_keyword_retriever_reachable _ _ _ _ _ _ _ _ Hinit)
    as (Hreach & Hrrf & Hvr & _).
  unfold manager_search, Hybrid.search, fuse.
  rewrite Hvr. unfold Vec.search. rewrite Hraw. cbn [bind].
  destruct (keyword_search_total pre sp pm _ query top_k Hreach) as (kw & ->).
  cbn [bind].
  destruct (rerank_with_weights_total (reranker (hybrid_retriever mgr))
              [collect hash raw; kw]
              [vector_weight (hybrid_retriever mgr);
               keyword_weight (hybrid_retriever mgr)] top_k eq_refl)
    as (fused & ->); [rewrite Hrrf; exact Hk|].
  cbn [bind].
  destruct (external_reranker (hybrid_retriever mgr)) as [ext|] eqn:X;
    [|eexists; reflexivity].
  destruct fused as [|x rest]; [eexists; reflexivity|].
  unfold rerank.
  destruct (Hremote ext (build_documents (x :: rest) 0)
              (Z.min (if (top_k =? 0)%Z
                      then Z.of_nat (List.length (build_documents (x :: rest) 0))
                      else top_k)
                 (Z.of_nat (List.length (build_documents (x :: rest) 0))))
              eq_refl) as (data & ->).
  cbn [bind]. eexists; reflexivity.
Qed.

Lemma manager_search_fails_only_upstream_example :
  exists mgr,
    RetrievalManager_init words unreachable_Pinecone RAGConfig_default
      (Ok example_corpus) example_retriever None EmptyString = Ok mgr /\
    exists out,
      manager_search length_hash words doc_content (fun _ => []) mgr
        "price" 3 = Ok out.
Proof.
  destruct (RetrievalManager_init_total words unreachable_Pinecone
              RAGConfig_default (Ok example_corpus) example_retriever None
              EmptyString) as (kr & ext & Hinit & Hext).
  eexists. split; [exact Hinit|].
  apply (manager_search_fails_only_upstream length_hash words doc_content
           (fun _ => []) unreachable_Pinecone RAGConfig_default
           (Ok example_corpus) example_retriever None EmptyString _ "price"
           3%Z example_raw Hinit).
  - simpl. lia.
  - reflexivity.
  - intros ext0 documents n Hsome. exfalso.
    cbn in Hsome. cbn in Hext. inversion Hext; subst. discriminate.
Defined.

(** X15.  Errors of the collaborators at query time are not caught by the
    hybrid search: an error of the dense search is raised by the search,
    and so is an error of the remote reranking service whenever an
    external reranker is installed and the fusion returned at least one
    result. *)
Theorem hybrid_search_propagates_upstream_errors :
  forall (hash : string -> Z) (preprocess_text : string -> list string)
         (source_preview : document -> string) (page_meta : string -> meta)
         (self : EnhancedHybridRetriever) (query : string) (top_k : Z),
    (forall e,
        Vec.vector_retriever (Hybrid.vector_retriever self) query top_k
          (1 # 2) = Raise e ->
        Hybrid.search hash preprocess_text source_preview page_meta self
          query top_k = Raise e) /\
    (forall ext fused e,
        external_reranker self = Some ext ->
        fuse hash preprocess_text source_preview page_meta self query top_k
        = Ok fused ->
        fused <> [] ->
        inference_rerank (_client ext) (_model ext) query
          (build_documents fused 0)
          (requested (Some top_k) (Z.of_nat (List.length fused))) = Raise e ->
        Hybrid.search hash preprocess_text source_preview page_meta self
          query top_k = Raise e).
Proof.
  intros hash pre sp pm self query top_k. split.
  - intros e He. unfold Hybrid.search, fuse, Vec.search. now rewrite He.
  - intros ext fused e Hext Hfuse Hne Hremote.
    unfold Hybrid.search. rewrite Hfuse, Hext. cbn [bind].
    destruct fused as [|x rest]; [congruence|].
    unfold rerank. unfold requested in Hremote.
    rewrite build_documents_length. now rewrite Hremote.
Qed.

Lemma hybrid_search_propagates_example :
  Hybrid.search length_hash words doc_content (fun _ => [])
    (EnhancedHybridRetriever_init example_retriever (index_of words []) None
       None None
       (Some {| _client :=
                  {| inference_rerank :=
                       fun _ _ _ _ => Raise (UpstreamError "timeout") |};
                _model := "cohere-rerank-3.5" |}))
    "q" 2
  = Raise (UpstreamError "timeout").
Proof.
  eapply (proj2 (hybrid_search_propagates_upstream_errors length_hash words
                   doc_content (fun _ => []) _ "q" 2%Z)).
  - reflexivity.
  - vm_compute. reflexivity.
  - discriminate.
  - reflexivity.
Defined.

(** ** Loading the corpus *)

Import Loader.

Lemma item_text_none_iff (item : ocr_item) :
  item_text item = None <->
  item = ItemOther \/
  exists fields z,
    item = ItemDict fields /\
    dict_get fields "text" = Some (JInt z) /\ z <> 0%Z.
Proof.
  destruct item as [fields|]; cbn [item_text].
  - destruct (dict_get fields "text") as [[|s|z]|] eqn:G;
      try (split; [discriminate | intros [H|(f & z' & H & G' & _)];
                                  [discriminate | inversion H; subst; congruence]]).
    destruct (Z.eqb_spec z 0) as [->|Hz].
    + split; [discriminate|].
      intros [H|(f & z' & H & G' & Hz')]; [discriminate|].
      inversion H; subst. rewrite G in G'. inversion G'. congruence.
    + split; [|reflexivity]. intros _. right. exists fields, z. auto.
  - split; [now left | reflexivity].
Qed.

Lemma item_text_stripped (item : ocr_item) (text : string) :
  item_text item = Some text -> strip text = text.
Proof.
  destruct item as [fields|]; cbn [item_text]; [|discriminate].
  destruct (dict_get fields "text") as [[|s|z]|];
    try (intros [= <-]; apply strip_idem).
  destruct (z =? 0)%Z; [intros [= <-]; apply strip_idem | discriminate].
Qed.

Lemma candidates_spec (data : list ocr_item) (doc : document) :
  In doc (candidates data) ->
  doc_content doc <> EmptyString /\
  strip (doc_content doc) = doc_content doc /\
  exists fields,
    In (ItemDict fields) data /\
    item_text (ItemDict fields) = Some (doc_content doc) /\
    doc_source doc = Some (source_of fields).
Proof.
  induction data as [|item rest IH]; cbn [candidates]; [intros []|].
  assert (Hrest : In doc (candidates rest) ->
            doc_content doc <> EmptyString /\
            strip (doc_content doc) = doc_content doc /\
            exists fields,
              In (ItemDict fields) (item :: rest) /\
              item_text (ItemDict fields) = Some (doc_content doc) /\
              doc_source doc = Some (source_of fields)).
  { intros H. destruct (IH H) as (H1 & H2 & fields & H3 & H4 & H5).
    split; [exact H1|]. split; [exact H2|]. exists fields.
    split; [now right|]. auto. }
  destruct item as [fields|]; [|exact Hrest].
  destruct (item_text (ItemDict fields)) as [text|] eqn:T; [|exact Hrest].
  destruct (str_truthy text) eqn:Tr; [|exact Hrest].
  intros [<-|H]; [|now apply Hrest]. cbn [doc_content doc_source].
  split; [intros E; rewrite E in Tr; discriminate|].
  split; [exact (item_text_stripped _ _ T)|].
  exists fields. split; [now left|]. auto.
Qed.

Section LoadFacts.
Variable hash : string -> Z.

Lemma load_loop_fails (data : list ocr_item) : forall documents seen,
  (exists item, In item data /\ item_text item = None) ->
  load_loop hash data documents seen = None.
Proof.
  induction data as [|item rest IH]; intros documents seen (bad & Hin & Hbad);
    [destruct Hin|]. cbn [load_loop].
  destruct (item_text item) as [text|] eqn:T; [|reflexivity].
  assert (Hrest : exists it, In it rest /\ item_text it = None).
  { destruct Hin as [<-|Hin]; [congruence|]. now exists bad. }
  destruct (negb (str_truthy text)); [now apply IH|].
  destruct (existsb _ seen); [now apply IH|].
  destruct item; [now apply IH | reflexivity].
Qed.

Lemma load_loop_returns (data : list ocr_item) : forall documents seen,
  well_formed data ->
  exists out, load_loop hash data documents seen = Some out.
Proof.
  induction data as [|item rest IH]; intros documents seen Hwf;
    cbn [load_loop]; [eexists; reflexivity|].
  assert (Hrest : well_formed rest)
    by (intros it Hit; apply Hwf; now right).
  destruct (item_text item) as [text|] eqn:T;
    [|exfalso; exact (Hwf item (or_introl eq_refl) T)].
  destruct (negb (str_truthy text)); [now apply IH|].
  destruct (existsb _ seen); [now apply IH|].
  destruct item; [now apply IH | discriminate].
Qed.

Lemma load_loop_inv (data : list ocr_item) : forall documents seen out,
  seen = rev (map (fun d => hash (doc_content d)) documents) ->
  NoDup seen ->
  load_loop hash data documents seen = Some out ->
  NoDup (map (fun d => hash (doc_content d)) out) /\
  (exists added,
      out = documents ++ added /\
      forall d, In d added -> In d (candidates data)) /\
  (forall c, In c (candidates data) ->
             In (hash (doc_content c))
               (map (fun d => hash (doc_content d)) out)).
Proof.
  induction data as [|item rest IH]; intros documents seen out Hseen Hnd.
  - cbn [load_loop candidates]. intros [= <-]. split; [|split].
    + apply NoDup_rev in Hnd. rewrite Hseen, rev_involutive in Hnd. exact Hnd.
    + exists []. split; [now rewrite app_nil_r | intros d []].
    + intros c [].
  - destruct item as [fields|]; [|cbn [load_loop item_text]; discriminate].
    cbn [load_loop candidates].
    destruct (item_text (ItemDict fields)) as [text|] eqn:T; [|discriminate].
    destruct (str_truthy text) eqn:Tr; cbn [negb].
    + destruct (existsb (Z.eqb (hash text)) seen) eqn:S.
      * intros Hout. destruct (IH _ _ _ Hseen Hnd Hout)
          as (H1 & (added & H2 & H3) & H4).
        split; [exact H1|]. split.
        -- exists added. split; [exact H2|]. intros d Hd.
           right. now apply H3.
        -- intros c [<-|Hc]; [|now apply H4]. cbn [doc_content].
           apply existsb_exists in S. destruct S as (h & Hh & E).
           apply Z.eqb_eq in E. subst h. rewrite Hseen in Hh.
           apply in_rev in Hh. apply in_map_iff in Hh.
           destruct Hh as (d0 & E0 & Hd0). rewrite <- E0.
           apply in_map_iff. exists d0. split; [reflexivity|].
           rewrite H2. apply in_or_app. now left.
      * intros Hout.
        destruct (IH (documents
                      ++ [{| doc_content := text;
                             doc_source := Some (source_of fields) |}])
                     (hash text :: seen) out) as (H1 & (added & H2 & H3) & H4).
        { rewrite map_app, rev_app_distr. cbn. now rewrite Hseen. }
        { constructor; [|exact Hnd]. intros Hin.
          apply not_true_iff_false in S. apply S. apply existsb_exists.
          exists (hash text). split; [exact Hin | apply Z.eqb_refl]. }
        { exact Hout. }
        split; [exact H1|]. split.
        -- eexists. split; [rewrite H2, <- app_assoc; reflexivity|].
           intros d [<-|Hd]; [now left | right; now apply H3].
        -- intros c [<-|Hc]; [|now apply H4]. cbn [doc_content].
           apply in_map_iff.
           exists {| doc_content := text;
                     doc_source := Some (source_of fields) |}.
           split; [reflexivity|]. rewrite H2. apply in_or_app. left.
           apply in_or_app. right. now left.
    + intros Hout. destruct (IH _ _ _ Hseen Hnd Hout)
        as (H1 & (added & H2 & H3) & H4).
      split; [exact H1|]. split; [|exact H4].
      exists added. split; [exact H2 | exact H3].
Qed.
End LoadFacts.

(** X16.  Loading is all or nothing: it never raises, but one malformed
    element of the list (an element that is not an object, or whose text
    is a non-zero number) makes it return no document at all, whatever
    the other elements hold; so does a file that cannot be read. *)
Theorem load_documents_all_or_nothing :
  forall (hash : string -> Z),
    load_documents_from_json hash None = [] /\
    forall (data : list ocr_item) (item : ocr_item),
      In item data ->
      (item = ItemOther \/
       exists fields z,
         item = ItemDict fields /\
         dict_get fields "text" = Some (JInt z) /\ z <> 0%Z) ->
      load_documents_from_json hash (Some data) = [].
Proof.
  intros hash. split; [reflexivity|].
  intros data item Hin Hbad. unfold load_documents_from_json.
  rewrite (load_loop_fails hash data [] []); [reflexivity|].
  exists item. split; [exact Hin|]. now apply item_text_none_iff.
Qed.

Lemma load_documents_all_or_nothing_example :
  load_documents_from_json length_hash
    (Some (example_data ++ [ItemDict [("text"%string, JInt 7)]])) = [].
Proof.
  apply (proj2 (load_documents_all_or_nothing length_hash)
           (example_data ++ [ItemDict [("text"%string, JInt 7)]])
           (ItemDict [("text"%string, JInt 7)])).
  - apply in_or_app. right. now left.
  - right. exists [("text"%string, JInt 7)], 7%Z.
    split; [reflexivity|]. split; [reflexivity | discriminate].
Defined.

(** X17.  The loaded documents have stripped, non-empty contents whose
    hashes, hence the contents themselves, are pairwise distinct, and each
    carries the source [OCR_page_<page>_<type>] of the element it came
    from.  When every element is well formed, each non-blank text is
    represented by a loaded document of the same hash. *)
Theorem loaded_documents_are_clean :
  forall (hash : string -> Z) (read : option (list ocr_item)),
    let docs := load_documents_from_json hash read in
    NoDup (map (fun d => hash (doc_content d)) docs) /\
    NoDup (map doc_content docs) /\
    (forall doc, In doc docs ->
       doc_content doc <> EmptyString /\
       strip (doc_content doc) = doc_content doc /\
       exists data fields,
         read = Some data /\
         In (ItemDict fields) data /\
         item_text (ItemDict fields) = Some (doc_content doc) /\
         doc_source doc = Some (source_of fields)) /\
    (forall data, read = Some data -> well_formed data ->
       forall c, In c (candidates data) ->
         exists doc, In doc docs /\
                     hash (doc_content doc) = hash (doc_content c)).
Proof.
  intros hash read docs. subst docs. unfold load_documents_from_json.
  destruct read as [data|].
  - destruct (load_loop hash data [] []) as [out|] eqn:E.
    + destruct (load_loop_inv hash data [] [] out eq_refl (NoDup_nil _) E)
        as (Hnd & (added & Hout & Hadded) & Hall).
      cbn [app] in Hout. subst added.
      split; [exact Hnd|]. split; [|split].
      * rewrite <- (map_map doc_content hash) in Hnd.
        now apply NoDup_map_inv in Hnd.
      * intros doc Hdoc.
        destruct (candidates_spec data doc (Hadded doc Hdoc))
          as (H1 & H2 & fields & H3 & H4 & H5).
        split; [exact H1|]. split; [exact H2|]. exists data, fields. auto.
      * intros data' [= <-] _ c Hc. specialize (Hall c Hc).
        apply in_map_iff in Hall. destruct Hall as (doc & Ed & Hd).
        now exists doc.
    + split; [constructor|]. split; [constructor|]. split; [intros doc []|].
      intros data' [= <-] Hwf.
      destruct (load_loop_returns hash data [] [] Hwf) as (out & Hout).
      congruence.
  - split; [constructor|]. split; [constructor|]. split; [intros doc []|].
    intros data' H. discriminate.
Qed.

Lemma loaded_documents_are_clean_example :
  load_documents_from_json length_hash (Some padded_data)
  = [{| doc_content := "value labour"%string;
        doc_source := Some "OCR_page_3_text"%string |};
     {| doc_content := "price"%string;
        doc_source := Some "OCR_page_12_text"%string |};
     {| doc_content := "rent"%string;
        doc_source := Some "OCR_page_7_table "%string |}]
  /\
  NoDup (map doc_content
           (load_documents_from_json length_hash (Some padded_data)))
  /\
  forall doc,
    In doc (load_documents_from_json length_hash (Some padded_data)) ->
    strip (doc_content doc) = doc_content doc.
Proof.
  split; [reflexivity|].
  destruct (loaded_documents_are_clean length_hash (Some padded_data))
    as (_ & Hnd & Hclean & _).
  split; [exact Hnd|]. intros doc Hdoc.
  exact (proj1 (proj2 (Hclean doc Hdoc))).
Defined.

(** ** Pages of loaded documents in keyword hits *)

Import Report.

Lemma format_results_records (source_preview : document -> string)
  (page_meta : string -> meta) (self : KeywordRetriever)
  (entries : list (nat * R)) :
  forall out,
    format_results source_preview page_meta self entries = Ok out ->
    Forall (fun r =>
              exists doc,
                In doc (documents self) /\
                content r = doc_content doc /\
                file_name r = source_preview doc /\
                metadata r = page_meta (source_preview doc)) out.
Proof.
  induction entries as [|[i s] rest IH]; intros out; cbn [format_results].
  - intros [= <-]. constructor.
  - destruct (nth_error (documents self) i) as [doc|] eqn:E; [|discriminate].
    destruct (format_results source_preview page_meta self rest)
      as [out'|e]; cbn [bind]; [|discriminate].
    intros [= <-]. constructor; [|now apply IH].
    exists doc. cbn. split; [exact (nth_error_In _ _ E)|]. auto.
Qed.

Lemma keyword_search_records (preprocess_text : string -> list string)
  (source_preview : document -> string) (page_meta : string -> meta)
  (self : KeywordRetriever) (query : string) (top_k : Z)
  (out : list (result_item R)) :
  BM25.search preprocess_text source_preview page_meta self query top_k
  = Ok out ->
  Forall (fun r =>
            exists doc,
              In doc (documents self) /\
              content r = doc_content doc /\
              file_name r = source_preview doc /\
              metadata r = page_meta (source_preview doc)) out.
Proof.
  unfold BM25.search.
  destruct (documents self) as [|d0 ds] eqn:D; [intros [= <-]; constructor|].
  destruct (preprocess_text query) as [|t q]; [intros [= <-]; constructor|].
  destruct (ranked self (t :: q) top_k) as [entries|e];
    cbn [bind]; [|discriminate].
  intros H. rewrite <- D. exact (format_results_records _ _ _ _ _ H).
Qed.

Lemma initialize_keyword_retriever_index
  (preprocess_text : string -> list string) (docs : list document)
  (kr0 : KeywordRetriever) :
  KeywordRetriever_init preprocess_text None = Ok kr0 ->
  initialize_keyword_retriever preprocess_text kr0 (Ok docs)
  = Ok (index_of preprocess_text docs).
Proof.
  intros H0. pose proof (reach_init preprocess_text None H0) as R0.
  assert (D0 : documents kr0 = []) by (inversion H0; reflexivity).
  unfold initialize_keyword_retriever. cbn [bind].
  destruct docs as [|doc rest]; cbn [try_except].
  - rewrite (reachable_index preprocess_text kr0 R0), D0. reflexivity.
  - destruct (add_documents_total preprocess_text kr0 (doc :: rest))
      as [kr Hadd].
    rewrite Hadd. cbn [try_except].
    assert (R1 : reachable preprocess_text kr)
      by (eapply reach_add; [exact R0 | exact Hadd]).
    rewrite (reachable_index preprocess_text kr R1). f_equal. f_equal.
    unfold add_documents in Hadd. rewrite build_index_eq in Hadd.
    inversion Hadd. cbn [documents]. now rewrite D0.
Qed.

Lemma append_assoc' (a b c : string) :
  ((a ++ b) ++ c = a ++ (b ++ c))%string.
Proof. induction a as [|x a IH]; cbn [append]; [reflexivity | now rewrite IH]. Qed.

Lemma strip_source_of (fields : list (string * json)) :
  strip (source_of fields)
  = ("OCR_page_" ++ py_str (get_or fields "page_idx" (JInt 0)) ++ "_"
     ++ rstrip (py_str (get_or fields "type" (JStr "text"))))%string.
Proof.
  unfold strip, source_of.
  set (P := py_str (get_or fields "page_idx" (JInt 0))).
  set (T := py_str (get_or fields "type" (JStr "text"))).
  change ("OCR_page_" ++ P ++ "_" ++ T)%string
    with (String "O" ("CR_page_" ++ P ++ "_" ++ T))%string.
  rewrite (lstrip_plain "O" _ eq_refl).
  change (String "O" ("CR_page_" ++ P ++ "_" ++ T))%string
    with (("OCR_page_" ++ P) ++ String "_" T)%string.
  rewrite (rstrip_app_plain "_" T eq_refl).
  rewrite append_assoc'. reflexivity.
Qed.

Lemma take_digits_uint (u : Decimal.uint) (rest : string) :
  take_digits (NilEmpty.string_of_uint u ++ String "_" rest)
  = NilEmpty.string_of_uint u.
Proof.
  induction u; cbn [NilEmpty.string_of_uint append take_digits];
    [reflexivity| | | | | | | | | |];
    match goal with
    | |- (if is_digit ?c then _ else _) = _ =>
        change (is_digit c) with true; cbv iota; now rewrite IHu
    end.
Qed.

Lemma drop_length_app (a rest : string) :
  drop (String.length a) (a ++ rest) = rest.
Proof.
  induction a as [|x a IH]; cbn [String.length append drop];
    [destruct rest; reflexivity | exact IH].
Qed.

Lemma match_page_here_leading (u : Decimal.uint) (rest : string) :
  u <> Decimal.Nil ->
  match_page_here ("OCR_page_" ++ NilZero.string_of_uint u ++ "_" ++ rest)
  = Some (Z.of_uint u).
Proof.
  intros Hu. pose proof (NilZero.usu u Hu) as Husu.
  assert (E : NilZero.string_of_uint u = NilEmpty.string_of_uint u)
    by (destruct u; [contradiction|reflexivity..]).
  rewrite E in *. unfold match_page_here.
  assert (Hpre : forall x, String.prefix "OCR_page_" ("OCR_page_" ++ x) = true)
    by (intros x; cbn; destruct x; reflexivity).
  rewrite Hpre.
  change (drop 9 ("OCR_page_" ++ NilEmpty.string_of_uint u ++ "_" ++ rest))
    with (NilEmpty.string_of_uint u ++ String "_" rest)%string.
  rewrite take_digits_uint, drop_length_app.
  assert (Hp : String.prefix "_" (String "_" rest) = true)
    by (cbn; destruct rest; reflexivity).
  rewrite Hp, Husu.
  destruct (NilEmpty.string_of_uint u) eqn:S; [|reflexivity].
  destruct u; cbn in S; congruence.
Qed.

Lemma ascii_find_page_leading : finds_leading_page ascii_find_page.
Proof.
  intros p rest Hp. cbn [py_str].
  assert (Hu : exists u, Z.to_int p = Decimal.Pos u /\ u <> Decimal.Nil).
  { destruct p as [|q|q]; [| |lia].
    - exists (Decimal.D0 Decimal.Nil). split; [reflexivity | discriminate].
    - exists (Pos.to_uint q). split; [reflexivity|].
      apply DecimalPos.Unsigned.to_uint_nonnil. }
  destruct Hu as (u & Eu & Hu).
  pose proof (DecimalZ.of_to p) as Hof. rewrite Eu in *. cbn [Z.of_int] in Hof.
  cbn [NilZero.string_of_int].
  pose proof (match_page_here_leading u rest Hu) as H.
  assert (Hstep : forall s,
             ascii_find_page s
             = match match_page_here s with
               | Some p => Some p
               | None => match s with
                         | EmptyString => None
                         | String _ r => ascii_find_page r
                         end
               end) by (intros s; destruct s; reflexivity).
  rewrite Hstep, H, Hof. reflexivity.
Qed.

(** [search] on the index of a corpus, by the formula: the ranking it
    shows holds the positions of positive score, in ranking order. *)
Lemma search_ranked_hits (preprocess_text : string -> list string)
  (source_preview : document -> string) (page_meta : string -> meta)
  (docs : list document) (query : string) (top_k : Z) :
  (0 <= top_k)%Z ->
  exists hits out,
    BM25.search preprocess_text source_preview page_meta
      (index_of preprocess_text docs) query top_k = Ok out /\
    Forall2 (shows source_preview docs) out (firstn (Z.to_nat top_k) hits) /\
    (forall i s,
        In (i, s) hits <->
        exists doc,
          nth_error docs i = Some doc /\
          s = bm25_sum preprocess_text (3 / 2) (3 / 4) docs
                (terms_of preprocess_text doc) (preprocess_text query) /\
          (0 < s)%R) /\
    StronglySorted ranks_before hits.
Proof.
  intros Hk.
  destruct (search_spec preprocess_text source_preview page_meta docs query
              top_k) as (out & Hout & Hshow).
  rewrite slice_to_firstn in Hshow by exact Hk.
  eexists. exists out. split; [exact Hout|]. split; [exact Hshow|]. split.
  - intros i s. rewrite sorted_desc_in, positive_hits_in, in_seq.
    unfold BM25.doc_score. split.
    + intros (Hi & Hs & Hpos).
      destruct (nth_error docs i) as [doc|] eqn:E.
      * exists doc. auto.
      * apply nth_error_None in E. lia.
    + intros (doc & E & Hs & Hpos). rewrite E.
      split; [|split; [exact Hs | exact Hpos]].
      assert (i < List.length docs)%nat
        by (apply nth_error_Some; congruence). lia.
  - apply sorted_desc_ranked. apply positive_hits_increasing.
    apply seq_increasing.
Qed.

Lemma loaded_document_origin (hash : string -> Z)
  (read : option (list ocr_item)) (doc : document) :
  In doc (load_documents_from_json hash read) ->
  exists data fields,
    read = Some data /\
    In (ItemDict fields) data /\
    item_text (ItemDict fields) = Some (doc_content doc) /\
    doc_source doc = Some (source_of fields).
Proof.
  unfold load_documents_from_json. destruct read as [data|]; [|intros []].
  destruct (load_loop hash data [] []) as [out|] eqn:E; [|intros []].
  destruct (load_loop_inv hash data [] [] out eq_refl (NoDup_nil _) E)
    as (_ & (added & Hout & Hadded) & _).
  cbn [app] in Hout. subst added. intros Hdoc.
  destruct (candidates_spec data doc (Hadded doc Hdoc))
    as (_ & _ & fields & H3 & H4 & H5).
  exists data, fields. auto.
Qed.

(** X18.  The page of a loaded document survives to the keyword hits.
    The retrieval manager's keyword retriever, filled from the loaded
    documents, answers every query, and each hit comes from an object of
    the JSON list: its content is that object's stripped text, its file
    name is the stripped source [OCR_page_<page>_<type>], and when the
    object's page index is a non-negative integer (0 when the key is
    missing) the hit's metadata hold exactly that page. *)
Theorem keyword_hits_report_loaded_pages :
  forall (hash : string -> Z) (preprocess_text : string -> list string)
         (content_preview : string -> string) (find_page : string -> option Z)
         (read : option (list ocr_item)) (query : string) (top_k : Z),
    finds_leading_page find_page ->
    exists kr0 kr out,
      KeywordRetriever_init preprocess_text None = Ok kr0 /\
      initialize_keyword_retriever preprocess_text kr0
        (Ok (load_documents_from_json hash read)) = Ok kr /\
      BM25.search preprocess_text (source_preview_of content_preview)
        (page_meta_of find_page) kr query top_k = Ok out /\
      Forall (fun r =>
                exists data fields,
                  read = Some data /\
                  In (ItemDict fields) data /\
                  item_text (ItemDict fields) = Some (content r) /\
                  file_name r = strip (source_of fields) /\
                  forall p : Z,
                    (0 <= p)%Z ->
                    get_or fields "page_idx" (JInt 0) = JInt p ->
                    metadata r = [("page_idx"%string, PyInt p)]) out.
Proof.
  intros hash pre content_preview find_page read query top_k Hfind.
  set (docs := load_documents_from_json hash read).
  destruct (search_spec pre (source_preview_of content_preview)
              (page_meta_of find_page) docs query top_k) as (out & Hout & _).
  eexists. exists (index_of pre docs), out.
  split; [reflexivity|].
  split; [now apply initialize_keyword_retriever_index|].
  split; [exact Hout|].
  pose proof (keyword_search_records _ _ _ _ _ _ _ Hout) as Hrec.
  cbn [BM25.index_of documents] in Hrec.
  eapply Forall_impl; [|exact Hrec]. cbv beta.
  intros r (doc & Hdoc & Hc & Hf & Hm).
  destruct (loaded_document_origin hash read doc Hdoc)
    as (data & fields & Hread & Hin & Htext & Hsrc).
  exists data, fields. split; [exact Hread|]. split; [exact Hin|].
  split; [now rewrite Hc|].
  assert (Hprev : source_preview_of content_preview doc
                  = strip (source_of fields)).
  { unfold source_preview_of. rewrite Hsrc, strip_source_of. reflexivity. }
  rewrite Hprev in Hf, Hm. split; [exact Hf|].
  intros p Hp Hpage. rewrite Hm, strip_source_of, Hpage.
  unfold page_meta_of. now rewrite (Hfind p _ Hp).
Qed.

Lemma keyword_hits_report_loaded_pages_example :
  finds_leading_page ascii_find_page /\
  exists kr0 kr out,
    KeywordRetriever_init words None = Ok kr0 /\
    initialize_keyword_retriever words kr0
      (Ok (load_documents_from_json length_hash (Some padded_data)))
    = Ok kr /\
    BM25.search words (source_preview_of (fun s => s))
      (page_meta_of ascii_find_page) kr "rent" 5 = Ok out /\
    map (fun r => (content r, file_name r, metadata r)) out
    = [("rent"%string, "OCR_page_7_table"%string,
        [("page_idx"%string, PyInt 7)])].
Proof.
  split; [exact ascii_find_page_leading|].
  destruct (keyword_hits_report_loaded_pages length_hash words (fun s => s)
              ascii_find_page (Some padded_data) "rent" 5%Z
              ascii_find_page_leading)
    as (kr0 & kr & out & H0 & Hinit & Hsearch & Hall).
  exists kr0, kr, out. split; [exact H0|]. split; [exact Hinit|].
  split; [exact Hsearch|].
  set (docs := [{| doc_content := "value labour"%string;
                   doc_source := Some "OCR_page_3_text"%string |};
                {| doc_content := "price"%string;
                   doc_source := Some "OCR_page_12_text"%string |};
                {| doc_content := "rent"%string;
                   doc_source := Some "OCR_page_7_table "%string |}]).
  assert (Hdocs : load_documents_from_json length_hash (Some padded_data)
                  = docs) by reflexivity.
  rewrite Hdocs in Hinit.
  rewrite (initialize_keyword_retriever_index words docs kr0 H0) in Hinit.
  assert (Hkr : kr = index_of words docs) by congruence.
  rewrite Hkr in Hsearch. clear Hinit Hkr Hdocs.
  destruct (search_ranked_hits words (source_preview_of (fun s => s))
              (page_meta_of ascii_find_page) docs "rent" 5%Z ltac:(lia))
    as (hits & out' & Hout' & Hshow & Hin & Hsorted).
  rewrite Hsearch in Hout'. inversion Hout'; subst out'. clear Hout'.
  change (words "rent") with ["rent"%string] in Hin.
  set (s2 := bm25_sum words (3 / 2) (3 / 4) docs ["rent"%string]
               ["rent"%string]).
  assert (H2 : (0 < s2)%R).
  { unfold s2. apply bm25_sum_positive.
    - exists "rent"%string. split; now left.
    - intros t [<-|[]] _. vm_compute. lia. }
  assert (Hhits : hits = [(2%nat, s2)]).
  { apply (sorted_unique ranks_before ranks_before_irrefl ranks_before_asym).
    - exact Hsorted.
    - repeat constructor.
    - intros [i s]. rewrite Hin. cbn [In]. split.
      + intros (doc & Hnth & Hs & Hpos).
        destruct i as [|[|[|i]]]; cbn [nth_error docs] in Hnth.
        * exfalso. inversion Hnth; subst doc.
          rewrite (bm25_sum_absent words docs _ ["rent"%string]) in Hs;
            [lra|].
          intros t [<-|[]] Hc. vm_compute in Hc.
          destruct Hc as [Hc|[Hc|[]]]; discriminate Hc.
        * exfalso. inversion Hnth; subst doc.
          rewrite (bm25_sum_absent words docs _ ["rent"%string]) in Hs;
            [lra|].
          intros t [<-|[]] Hc. vm_compute in Hc.
          destruct Hc as [Hc|[]]; discriminate Hc.
        * inversion Hnth; subst doc. left. now rewrite Hs.
        * destruct i; discriminate.
      + intros [E|[]]. inversion E; subst i s.
        exists {| doc_content := "rent"%string;
                  doc_source := Some "OCR_page_7_table "%string |}.
        split; [reflexivity|]. split; [reflexivity | exact H2]. }
  rewrite Hhits in Hshow.
  cbn [Z.to_nat Pos.to_nat Pos.iter_op Nat.add firstn] in Hshow.
  inversion Hshow as [|r e out1 es1 (d & N & C & F & _) Hnil]; subst.
  inversion Hnil; subst. clear Hshow Hnil.
  cbn [fst nth_error docs] in N. inversion N; subst d. clear N.
  cbn [doc_content] in C.
  apply Forall_inv in Hall.
  destruct Hall as (data & fields & Hdata & Hfields & Htext & Hname & Hmeta).
  inversion Hdata; subst data. clear Hdata.
  rewrite C in Htext.
  assert (Ef : fields = [("text"%string, JStr "rent");
                         ("page_idx"%string, JInt 7);
                         ("type"%string, JStr "table ")]).
  { destruct Hfields as [E|[E|[E|[E|[E|[]]]]]]; inversion E; subst fields;
      try reflexivity; vm_compute in Htext; discriminate Htext. }
  subst fields. cbn [map]. rewrite C, Hname, (Hmeta 7%Z ltac:(lia) eq_refl).
  reflexivity.
Defined.
